(** * Fiber segmentation (ark/segmentation/fiber_segmentation.py)

    A shallow embedding of [segment_fibers] and
    [plot_fiber_segmentation_steps].  The two functions are thin glue
    around numpy, scipy.ndimage and scikit-image:

    - what the file itself writes (boolean-mask assignment, [- 1],
      the elementwise product, the existence check on [out_dir],
      [os.makedirs], the per-fov loop, the dict and the list it fills)
      is modelled directly;
    - the small integer routines it calls ([scipy.ndimage.label],
      [skimage.morphology.remove_small_objects], the region enumeration
      of [skimage.measure.regionprops]) get an executable reference
      model;
    - the floating-point filters (Gaussian, CLAHE, Meijering, distance
      transform, multi-Otsu, Sobel, watershed) are fields of a record
      [imglib]; what is assumed about them is stated in [imglib_ok]. *)

From Stdlib Require Import ZArith List Lia Bool PeanoNat Floats Ascii String Sorted.
From stdpp Require Import gmap strings.
Import ListNotations.

#[local] Open Scope Z_scope.

(** ** Python exceptions and results *)

Inductive exn : Type :=
| FileNotFoundError
| FileExistsError
| NotADirectoryError
| IsADirectoryError
| KeyError
| ValueError
| IndexError
| ZeroDivisionError
| LibraryError (code : nat).

Inductive result (A : Type) : Type :=
| Ok (a : A)
| Raise (e : exn).
Arguments Ok {A} a.
Arguments Raise {A} e.

Definition bind {A B : Type} (m : result A) (k : A -> result B) : result B :=
  match m with
  | Ok a => k a
  | Raise e => Raise e
  end.

Notation "'do' x <- m ; k" := (bind m (fun x => k))
  (at level 10, x name, m at level 100, k at level 200).

(** ** numpy arrays: a shape and a C-ordered buffer *)

Record ndarray (A : Type) : Type := NdArray {
  shape : nat * nat;
  buf : list A
}.
Arguments NdArray {A} shape buf.
Arguments shape {A} n.
Arguments buf {A} n.

Definition well_formed {A : Type} (a : ndarray A) : Prop :=
  length (buf a) = (fst (shape a) * snd (shape a))%nat.

Definition same_dims {A B : Type} (a : ndarray A) (b : ndarray B) : Prop :=
  shape b = shape a /\ length (buf b) = length (buf a).

(** [a.astype(...)], comparisons against a scalar and arithmetic with a
    scalar all act cell by cell. *)
Definition np_map {A B : Type} (f : A -> B) (a : ndarray A) : ndarray B :=
  NdArray (shape a) (map f (buf a)).

Fixpoint zip_with {A B C : Type} (f : A -> B -> C) (xs : list A) (ys : list B)
  : list C :=
  match xs, ys with
  | x :: xs', y :: ys' => f x y :: zip_with f xs' ys'
  | _, _ => []
  end.

(** [np.zeros_like(a)] *)
Definition np_zeros_like (a : ndarray float) : ndarray float :=
  np_map (fun _ => 0%float) a.

(** [a < c] and [a > c] for a scalar [c]: boolean arrays. *)
Definition np_lt (a : ndarray float) (c : float) : ndarray bool :=
  np_map (fun x => PrimFloat.ltb x c) a.

Definition np_gt (a : ndarray float) (c : float) : ndarray bool :=
  np_map (fun x => PrimFloat.ltb c x) a.

(** [a[mask] = v] *)
Definition np_mask_assign {A : Type} (a : ndarray A) (mask : ndarray bool) (v : A)
  : ndarray A :=
  NdArray (shape a) (zip_with (fun x (m : bool) => if m then v else x) (buf a) (buf mask)).

(** [a - 1] on an integer array *)
Definition np_sub1 (a : ndarray Z) : ndarray Z := np_map (fun z => z - 1) a.

(** [a * b] on integer arrays of one shape *)
Definition np_mul (a b : ndarray Z) : ndarray Z :=
  NdArray (shape a) (zip_with Z.mul (buf a) (buf b)).

(** [np.max(a)]: NaN wins over every number; an empty array raises. *)
Definition fmax_nan (x y : float) : float :=
  if PrimFloat.is_nan x then x
  else if PrimFloat.is_nan y then y
  else if PrimFloat.ltb x y then y else x.

Definition np_max (a : ndarray float) : result float :=
  match buf a with
  | [] => Raise ValueError
  | x :: xs => Ok (fold_left fmax_nan xs x)
  end.

(** [a / m] for a float array and a float scalar: IEEE division, which
    raises nothing ([0 / 0] is NaN, [x / 0] is an infinity). *)
Definition np_true_divide (a : ndarray float) (m : float) : ndarray float :=
  np_map (fun x => PrimFloat.div x m) a.

(** [thresholds[i]] *)
Definition getitem {A : Type} (l : list A) (i : nat) : result A :=
  match nth_error l i with
  | Some x => Ok x
  | None => Raise IndexError
  end.

(** Python's [int / int]: true division, [ZeroDivisionError] on 0. *)
Definition float_of_Z (z : Z) : float :=
  if z <? 0 then PrimFloat.opp (PrimFloat.of_uint63 (Uint63.of_Z (- z)))
  else PrimFloat.of_uint63 (Uint63.of_Z z).

Definition py_truediv (a : nat) (b : Z) : result float :=
  if b =? 0 then Raise ZeroDivisionError
  else Ok (PrimFloat.div (float_of_Z (Z.of_nat a)) (float_of_Z b)).

(** ** scipy.ndimage.label, default structuring element

    Reference model.  Cells are addressed by their flat index in the
    C-ordered buffer of a [(H, W)] array with [n = H * W] cells; the
    default structure joins a cell to the cells above, below, left and
    right of it.  Every non-zero cell is foreground.  Components are
    numbered 1, 2, ... in the raster order of their first cell. *)

Definition neighbours (W n i : nat) : list nat :=
  ((if (W <=? i)%nat then [(i - W)%nat] else []) ++
   (if (i + W <? n)%nat then [(i + W)%nat] else []) ++
   (if (0 <? i mod W)%nat then [(i - 1)%nat] else []) ++
   (if (S (i mod W) <? W)%nat && (S i <? n)%nat then [S i] else []))%list.

(** Each foreground cell starts with its own raster index (plus one; 0
    stays background) and repeatedly takes the least mark among itself
    and its foreground neighbours. *)
Definition init_marks (b : list Z) : list nat :=
  map (fun i => if nth i b 0 =? 0 then O else S i) (seq 0 (length b)).

Definition least_mark (v : list nat) (i : nat) (js : list nat) : nat :=
  fold_left (fun m j => match nth j v O with
                        | O => m
                        | S r => Nat.min m (S r)
                        end) js (nth i v O).

Definition sweep (W : nat) (v : list nat) : list nat :=
  map (fun i => match nth i v O with
                | O => O
                | S _ => least_mark v i (neighbours W (length v) i)
                end) (seq 0 (length v)).

Fixpoint propagate (fuel W : nat) (v : list nat) : list nat :=
  match fuel with
  | O => v
  | S f => let v' := sweep W v in
           if decide (v' = v) then v else propagate f W v'
  end.

Definition final_marks (W : nat) (b : list Z) : list nat :=
  let v := init_marks b in propagate (list_sum v) W v.

(** The first cell of every component keeps its own mark. *)
Definition roots (v : list nat) : list nat :=
  List.filter (fun r => (nth r v O =? S r)%nat) (seq 0 (length v)).

Fixpoint index_of (x : nat) (l : list nat) : nat :=
  match l with
  | [] => O
  | y :: t => if (x =? y)%nat then O else S (index_of x t)
  end.

Definition number_marks (v : list nat) : list Z :=
  map (fun m => match m with
                | O => 0
                | S r => Z.of_nat (S (index_of r (roots v)))
                end) v.

(** [labeled, num_features = ndi.label(a)] *)
Definition ndi_label (a : ndarray Z) : ndarray Z * nat :=
  let v := final_marks (snd (shape a)) (buf a) in
  (NdArray (shape a) (number_marks v), length (roots v)).

(** Connectivity in the sense of the default structuring element:
    [joined W n P i j] when a chain of neighbouring cells, all
    satisfying [P], leads from [i] to [j]. *)
Inductive joined (W n : nat) (P : nat -> Prop) (i : nat) : nat -> Prop :=
| joined_refl : (i < n)%nat -> P i -> joined W n P i i
| joined_step j k :
    joined W n P i j -> In k (neighbours W n j) -> P k -> joined W n P i k.

Definition cell_at (a : ndarray Z) (i : nat) : Z := nth i (buf a) 0.

Definition foreground (a : ndarray Z) (i : nat) : Prop := cell_at a i <> 0.

(** Two cells of [a] lie in one object: a chain of non-zero cells. *)
Definition connected (a : ndarray Z) (i j : nat) : Prop :=
  joined (snd (shape a)) (length (buf a)) (foreground a) i j.

(** Two cells of [a] lie in one region of value [l]. *)
Definition same_region (a : ndarray Z) (l : Z) (i j : nat) : Prop :=
  joined (snd (shape a)) (length (buf a)) (fun k => cell_at a k = l) i j.

(** [lab] numbers the objects of [seg] with [1 .. N]: 0 exactly on the
    zero cells, every identifier used, and two cells sharing one
    exactly when they lie in one object. *)
Definition numbers_objects (seg lab : ndarray Z) (N : nat) : Prop :=
  (forall i, (i < length (buf seg))%nat ->
             cell_at lab i = 0 <-> cell_at seg i = 0) /\
  (forall i, 0 <= cell_at lab i <= Z.of_nat N) /\
  (forall k, 1 <= k <= Z.of_nat N ->
             exists i, (i < length (buf seg))%nat /\ cell_at lab i = k) /\
  (forall i j, (i < length (buf seg))%nat -> (j < length (buf seg))%nat ->
               cell_at lab i <> 0 -> cell_at lab j <> 0 ->
               cell_at lab i = cell_at lab j <-> connected seg i j).

(** Every non-zero value of [a] marks exactly one object of [a]. *)
Definition one_object_per_value (a : ndarray Z) : Prop :=
  forall i j, (i < length (buf a))%nat -> (j < length (buf a))%nat ->
              cell_at a i <> 0 -> cell_at a j <> 0 ->
              cell_at a i = cell_at a j <-> connected a i j.

(** [lab] hands out its identifiers in raster order: an identifier
    above 1 is met only after the identifier below it has been. *)
Definition raster_numbered (lab : ndarray Z) : Prop :=
  forall i, (i < length (buf lab))%nat -> 1 < cell_at lab i ->
            exists j, (j < i)%nat /\ cell_at lab j = cell_at lab i - 1.

(** What every round of propagation keeps true of the marks [v] of the
    buffer [b]: background cells carry 0, and a foreground cell carries
    the index (plus one) of a cell of its own object. *)
Definition marks_ok (W : nat) (b : list Z) (v : list nat) : Prop :=
  length v = length b /\
  forall i, (i < length b)%nat ->
    (nth i v O = O <-> nth i b 0 = 0) /\
    (forall r, nth i v O = S r ->
               joined W (length b) (fun k => nth k b 0 <> 0) i r).

(** ** skimage.morphology.remove_small_objects on an integer array

    Reference model of the library routine: [min_size == 0] returns the
    copy untouched; otherwise the cells of every value that occurs fewer
    than [min_size] times are set to 0 ([np.bincount], which refuses
    negative values). *)

Definition bincount (b : list Z) (v : Z) : Z :=
  Z.of_nat (count_occ Z.eq_dec b v).

Definition remove_small_objects (ar : ndarray Z) (min_size : Z) : result (ndarray Z) :=
  if min_size =? 0 then Ok ar
  else if existsb (fun z => z <? 0) (buf ar) then Raise ValueError
  else Ok (np_map (fun z => if bincount (buf ar) z <? min_size then 0 else z) ar).

(** ** skimage.measure.regionprops_table

    [regionprops] walks [ndi.find_objects]: one region per value
    [1 .. max] that occurs in the label image, in increasing order.
    A row of the table describes one region; what the requested
    properties evaluate to is left to the library. *)

Inductive cell : Type :=
| CInt (z : Z)
| CFloat (f : float)
| CStr (s : string).

Record row : Type := Row {
  row_label : Z;
  row_cells : list (string * cell)
}.

Definition region_labels (a : ndarray Z) : list Z :=
  List.filter (fun l => existsb (Z.eqb l) (buf a))
              (map Z.of_nat (seq 1 (Z.to_nat (fold_right Z.max 0 (buf a))))).

Fixpoint map_result {A B : Type} (f : A -> result B) (l : list A) : result (list B) :=
  match l with
  | [] => Ok []
  | x :: t => do y <- f x ; do ys <- map_result f t ; Ok (y :: ys)
  end.

(** [fov_table[name] = value]: the column is overwritten when the
    table has it and added last otherwise. *)
Fixpoint set_cell (name : string) (c : cell) (cells : list (string * cell))
  : list (string * cell) :=
  match cells with
  | [] => [(name, c)]
  | (k, v) :: t => if String.eqb k name then (k, c) :: t
                   else (k, v) :: set_cell name c t
  end.

Definition set_column (name : string) (c : cell) (t : list row) : list row :=
  map (fun r => Row (row_label r) (set_cell name c (row_cells r))) t.

(** [pd.concat(tables)]: an empty list of frames raises. *)
Definition pd_concat (tables : list (list row)) : result (list row) :=
  match tables with
  | [] => Raise ValueError
  | _ => Ok (concat tables)
  end.

(** ** The file system

    A state of the file system lists its directories and its files by
    name.  Names are compared as strings (no links, no normalisation):
    an entry lies in the directory [os.path.dirname] gives for its
    name, and a name without a directory part lies in the working
    directory, which is always there.  Modelled is what
    [segment_fibers] does to the file system: the existence test,
    [os.makedirs], and the opening of a file for writing by [imsave]
    and [DataFrame.to_csv]. *)

Inductive artifact : Type :=
| TiffFloat (a : ndarray float)
| TiffInt (a : ndarray Z)
| CsvTable (t : list row).

Record filesystem : Type := FS {
  dirs : gset string;
  files : gmap string artifact
}.

Definition os_path_exists (fs : filesystem) (p : string) : bool :=
  bool_decide (p ∈ dirs fs) || bool_decide (is_Some (files fs !! p)).

(** [os.path.isdir(p)] *)
Definition is_dir (fs : filesystem) (p : string) : bool :=
  bool_decide (p ∈ dirs fs).

Fixpoint ends_with_sep (s : string) : bool :=
  match s with
  | EmptyString => false
  | String c EmptyString => Ascii.eqb c "/"%char
  | String _ t => ends_with_sep t
  end.

(** [os.path.join(a, b)] (posixpath) *)
Definition os_path_join (a b : string) : string :=
  if String.prefix "/" b then b
  else if String.eqb a "" || ends_with_sep a then a +:+ b
  else a +:+ "/" +:+ b.

(** ['/' in s] *)
Fixpoint has_sep (s : string) : bool :=
  match s with
  | EmptyString => false
  | String c t => Ascii.eqb c "/"%char || has_sep t
  end.

(** [s[:s.rfind('/') + 1]] and [s[s.rfind('/') + 1:]], the two halves
    [os.path.split] starts from. *)
Fixpoint upto_last_sep (s : string) : string :=
  match s with
  | EmptyString => EmptyString
  | String c t => if Ascii.eqb c "/"%char || has_sep t
                  then String c (upto_last_sep t) else EmptyString
  end.

Fixpoint os_path_basename (s : string) : string :=
  match s with
  | EmptyString => EmptyString
  | String c t => if Ascii.eqb c "/"%char || has_sep t
                  then os_path_basename t else s
  end.

(** [s == '/' * len(s)] and [s.rstrip('/')] *)
Fixpoint all_sep (s : string) : bool :=
  match s with
  | EmptyString => true
  | String c t => Ascii.eqb c "/"%char && all_sep t
  end.

Fixpoint rstrip_sep (s : string) : string :=
  match s with
  | EmptyString => EmptyString
  | String c t => if Ascii.eqb c "/"%char && all_sep t then EmptyString
                  else String c (rstrip_sep t)
  end.

(** [os.path.dirname(p)] (posixpath): the head of [os.path.split],
    without its trailing separators unless it consists of them. *)
Definition os_path_dirname (p : string) : string :=
  let head := upto_last_sep p in
  if all_sep head then head else rstrip_sep head.

(** A computation on the file system that may raise. *)
Definition io (A : Type) : Type := filesystem -> filesystem * result A.

Definition io_ret {A : Type} (a : A) : io A := fun fs => (fs, Ok a).

Definition io_raise {A : Type} (e : exn) : io A := fun fs => (fs, Raise e).

Definition io_lift {A : Type} (r : result A) : io A := fun fs => (fs, r).

Definition io_read {A : Type} (f : filesystem -> A) : io A :=
  fun fs => (fs, Ok (f fs)).

Definition io_bind {A B : Type} (m : io A) (k : A -> io B) : io B :=
  fun fs => match m fs with
            | (fs', Ok a) => k a fs'
            | (fs', Raise e) => (fs', Raise e)
            end.

Notation "'run' x <- m ; k" := (io_bind m (fun x => k))
  (at level 10, x name, m at level 100, k at level 200).

(** What the system answers when the directory [d] is looked up for an
    entry to be made or opened in it: nothing is wrong with the working
    directory or a directory; a regular file in the place of [d], or of
    the nearest ancestor of [d] that exists, gives
    [NotADirectoryError]; otherwise [d] is missing and the answer is
    [FileNotFoundError].  The length of the name is fuel enough. *)
Fixpoint dir_error (fuel : nat) (fs : filesystem) (d : string) : option exn :=
  match d with
  | EmptyString => None
  | _ =>
    if bool_decide (d ∈ dirs fs) then None
    else if bool_decide (is_Some (files fs !! d)) then Some NotADirectoryError
    else match fuel with
         | O => Some FileNotFoundError
         | S n => match dir_error n fs (os_path_dirname d) with
                  | Some NotADirectoryError => Some NotADirectoryError
                  | _ => Some FileNotFoundError
                  end
         end
  end.

(** The error, if any, of reaching the place of the entry [p]. *)
Definition entry_error (fs : filesystem) (p : string) : option exn :=
  match p with
  | EmptyString => Some FileNotFoundError
  | _ => dir_error (String.length p) fs (os_path_dirname p)
  end.

(** [os.mkdir(p)] *)
Definition os_mkdir (p : string) : io unit :=
  fun fs => match entry_error fs p with
            | Some e => (fs, Raise e)
            | None => if os_path_exists fs p then (fs, Raise FileExistsError)
                      else (FS ({[ p ]} ∪ dirs fs) (files fs), Ok tt)
            end.

(** [os.makedirs(name)], [exist_ok] left at its default [False]:
    missing ancestors are made first, then [os.mkdir(name)] is
    called. *)
Fixpoint makedirs_from (fuel : nat) (name : string) : io unit :=
  fun fs =>
    let head := os_path_dirname name in
    let tail := os_path_basename name in
    let (head, tail) :=
      match tail with
      | EmptyString => (os_path_dirname head, os_path_basename head)
      | _ => (head, tail)
      end in
    if negb (String.eqb head EmptyString) && negb (String.eqb tail EmptyString)
       && negb (os_path_exists fs head)
    then match fuel with
         | O => os_mkdir name fs
         | S n =>
           let (fs1, r) := makedirs_from n head fs in
           match r with
           | Ok _ | Raise FileExistsError =>
             if String.eqb tail "." then (fs1, Ok tt) else os_mkdir name fs1
           | Raise e => (fs1, Raise e)
           end
         end
    else os_mkdir name fs.

Definition os_makedirs (p : string) : io unit :=
  makedirs_from (String.length p) p.

(** The error, if any, of opening [p] for writing. *)
Definition write_error (fs : filesystem) (p : string) : option exn :=
  match entry_error fs p with
  | Some e => Some e
  | None => if is_dir fs p then Some IsADirectoryError else None
  end.

(** [imsave(p, image)] and [DataFrame.to_csv(p)]: the file is opened
    for writing, made if it is not there and replaced if it is. *)
Definition write_file (p : string) (a : artifact) : io unit :=
  fun fs => match write_error fs p with
            | Some e => (fs, Raise e)
            | None => (FS (dirs fs) (<[ p := a ]> (files fs)), Ok tt)
            end.

(** A list of files written one after the other. *)
Fixpoint write_all (ws : list (string * artifact)) : io unit :=
  match ws with
  | [] => io_ret tt
  | w :: rest => run _ <- write_file (fst w) (snd w) ; write_all rest
  end.

(** What [write_all] leaves when every write goes through. *)
Definition apply_writes (ws : list (string * artifact))
    (m : gmap string artifact) : gmap string artifact :=
  fold_left (fun acc kv => <[ fst kv := snd kv ]> acc) ws m.

(** A file can be written at [p] when the directories are [ds]. *)
Definition writable (ds : gset string) (p : string) : Prop :=
  p <> EmptyString /\
  (os_path_dirname p = EmptyString \/ os_path_dirname p ∈ ds) /\
  p ∉ ds.

(** ** The image source

    [data_xr] is an xarray of dimensions (fov, x, y, channel), held as
    float64.  Fields of view and channels are addressed by name; a name
    that is not a coordinate raises [KeyError].  The loop variable of
    [for fov in channel_xr.fovs] stands for the name of the field of
    view. *)

Record DataArray : Type := {
  xr_fovs : list string;
  xr_channels : list string;
  xr_rows : nat;
  xr_cols : nat;
  xr_pixel : string -> nat -> nat -> string -> float
}.

(** What [data_xr.loc[:, :, :, channel]] selects: dimensions (fov, x, y). *)
Record ChannelArray : Type := {
  ch_fovs : list string;
  ch_shape : nat * nat * nat;
  ch_pixel : string -> nat -> nat -> float
}.

Definition has_name (names : list string) (x : string) : bool :=
  existsb (String.eqb x) names.

(** The C-ordered buffer of the [rows] x [cols] image whose cell
    [(x, y)] is [f x y]. *)
Definition raster {A : Type} (rows cols : nat) (f : nat -> nat -> A) : list A :=
  flat_map (fun x => map (f x) (seq 0 cols)) (seq 0 rows).

(** [data_xr.loc[:, :, :, fiber_channel]] *)
Definition loc_channel (d : DataArray) (channel : string) : result ChannelArray :=
  if has_name (xr_channels d) channel
  then Ok {| ch_fovs := xr_fovs d;
             ch_shape := (length (xr_fovs d), xr_rows d, xr_cols d);
             ch_pixel := fun fov x y => xr_pixel d fov x y channel |}
  else Raise KeyError.

(** [channel_xr.loc[fov, :, :].values.astype('float')] *)
Definition loc_fov (c : ChannelArray) (fov : string) : result (ndarray float) :=
  if has_name (ch_fovs c) fov
  then Ok (NdArray (snd (fst (ch_shape c)), snd (ch_shape c))
                   (raster (snd (fst (ch_shape c))) (snd (ch_shape c))
                           (ch_pixel c fov)))
  else Raise KeyError.

(** [data_xr.loc[fov_name, :, :, fiber_channel].values] *)
Definition loc_fov_channel (d : DataArray) (fov channel : string)
  : result (ndarray float) :=
  if has_name (xr_fovs d) fov && has_name (xr_channels d) channel
  then Ok (NdArray (xr_rows d, xr_cols d)
                   (raster (xr_rows d) (xr_cols d)
                           (fun x y => xr_pixel d fov x y channel)))
  else Raise KeyError.

(** ** The image-processing library

    The routines of scipy.ndimage and scikit-image that work on
    floating-point images, as the two functions call them. *)

Record imglib : Type := {
  (** [ndi.gaussian_filter(image, sigma=s)] *)
  gaussian_filter : ndarray float -> float -> result (ndarray float);
  (** [equalize_adapthist(image, kernel_size=k)] *)
  equalize_adapthist : ndarray float -> float -> result (ndarray float);
  (** [meijering(image, sigmas=ws, black_ridges=b)] *)
  meijering : ndarray float -> list float -> bool -> result (ndarray float);
  (** [distance_transform_edt(mask)] *)
  distance_transform_edt : ndarray bool -> result (ndarray float);
  (** [threshold_multiotsu(image, classes=c)] *)
  threshold_multiotsu : ndarray float -> nat -> result (list float);
  (** [sobel(image)] *)
  sobel : ndarray float -> result (ndarray float);
  (** [watershed(elevation, markers)] *)
  watershed : ndarray float -> ndarray float -> result (ndarray Z);
  (** the columns [regionprops_table] computes for one region *)
  region_properties : list string -> ndarray Z -> Z -> result (list (string * cell))
}.

(** [ark.settings] is not among the sources; the one constant used,
    the name of the fov column, is a parameter. *)
Record settings : Type := {
  FOV_ID : string
}.

(** The keyword arguments of both functions. *)
Record params : Type := {
  blur : float;
  contrast_scaling_divisor : Z;
  fiber_widths : list float;
  ridge_cutoff : float;
  sobel_blur : float;
  min_fiber_size : Z
}.

(** [regionprops_table(label_image, properties=props)] *)
Definition regionprops_table (L : imglib) (label_image : ndarray Z)
    (props : list string) : result (list row) :=
  map_result (fun l => do cells <- region_properties L props label_image l ;
                       Ok (Row l cells))
             (region_labels label_image).

(** ** segment_fibers *)

(** The images one pass of the loop body computes (lines 169-202). *)
Record fov_steps : Type := {
  fiber_channel_data : ndarray float;
  blurred : ndarray float;
  contrast_adjusted : ndarray float;
  ridges : ndarray float;
  distance_transformed : ndarray float;
  thresholds : list float;
  threshed : ndarray float;
  elevation_map : ndarray float;
  segmentation : ndarray Z;
  labeled : ndarray Z;
  labeled_filtered : ndarray Z
}.

Definition segment_fov (L : imglib) (p : params) (channel_xr : ChannelArray)
    (fov_len : nat) (fov : string) : result fov_steps :=
  do fiber_channel_data <- loc_fov channel_xr fov ;
  do blurred <- gaussian_filter L fiber_channel_data (blur p) ;
  (* local contrast enhancement *)
  do top <- np_max blurred ;
  do kernel_size <- py_truediv fov_len (contrast_scaling_divisor p) ;
  do contrast_adjusted <-
     equalize_adapthist L (np_true_divide blurred top) kernel_size ;
  (* meijering filtering *)
  do ridges <- meijering L contrast_adjusted (fiber_widths p) false ;
  (* remove image intensity influence for watershed setup *)
  do edt <- distance_transform_edt L (np_gt ridges (ridge_cutoff p)) ;
  do distance_transformed <- gaussian_filter L edt 1%float ;
  (* watershed setup *)
  let threshed := np_zeros_like distance_transformed in
  do thresholds <- threshold_multiotsu L distance_transformed 3 ;
  do t0 <- getitem thresholds 0 ;
  let threshed := np_mask_assign threshed (np_lt distance_transformed t0) 1%float in
  do t1 <- getitem thresholds 1 ;
  let threshed := np_mask_assign threshed (np_gt distance_transformed t1) 2%float in
  do smoothed <- gaussian_filter L distance_transformed (sobel_blur p) ;
  do elevation_map <- sobel L smoothed ;
  do flooded <- watershed L elevation_map threshed ;
  let segmentation := np_sub1 flooded in
  let labeled := fst (ndi_label segmentation) in
  do kept <- remove_small_objects labeled (min_fiber_size p) ;
  let labeled_filtered := np_mul kept segmentation in
  Ok {| fiber_channel_data := fiber_channel_data;
        blurred := blurred;
        contrast_adjusted := contrast_adjusted;
        ridges := ridges;
        distance_transformed := distance_transformed;
        thresholds := thresholds;
        threshed := threshed;
        elevation_map := elevation_map;
        segmentation := segmentation;
        labeled := labeled;
        labeled_filtered := labeled_filtered |}.

(** Every image of a pass has the dimensions of the source image. *)
Definition dims_preserved (s : fov_steps) : Prop :=
  same_dims (fiber_channel_data s) (blurred s) /\
  same_dims (fiber_channel_data s) (contrast_adjusted s) /\
  same_dims (fiber_channel_data s) (ridges s) /\
  same_dims (fiber_channel_data s) (distance_transformed s) /\
  same_dims (fiber_channel_data s) (threshed s) /\
  same_dims (fiber_channel_data s) (elevation_map s) /\
  same_dims (fiber_channel_data s) (segmentation s) /\
  same_dims (fiber_channel_data s) (labeled s) /\
  same_dims (fiber_channel_data s) (labeled_filtered s).

(** The debug images of one fov (lines 204-209). *)
Definition save_debug (debug_path fov : string) (s : fov_steps) : io unit :=
  run _ <- write_file (os_path_join debug_path (fov +:+ "_thresholded.tiff"))
                      (TiffFloat (threshed s)) ;
  run _ <- write_file (os_path_join debug_path (fov +:+ "_ridges_thresholded.tiff"))
                      (TiffFloat (distance_transformed s)) ;
  run _ <- write_file (os_path_join debug_path (fov +:+ "_meijering_filter.tiff"))
                      (TiffFloat (ridges s)) ;
  write_file (os_path_join debug_path (fov +:+ "_contrast_adjusted.tiff"))
             (TiffFloat (contrast_adjusted s)).

(** The loop over [channel_xr.fovs] (lines 168-219), threading the dict
    [fiber_label_images] and the list [fiber_object_table]. *)
Fixpoint fov_loop (L : imglib) (cfg : settings) (p : params)
    (channel_xr : ChannelArray) (fov_len : nat) (out_dir : string)
    (object_properties : list string) (debug : bool) (debug_path : string)
    (fovs : list string)
    (fiber_label_images : gmap string (ndarray Z))
    (fiber_object_table : list (list row))
  : io (gmap string (ndarray Z) * list (list row)) :=
  match fovs with
  | [] => io_ret (fiber_label_images, fiber_object_table)
  | fov :: rest =>
    run s <- io_lift (segment_fov L p channel_xr fov_len fov) ;
    run _ <- (if debug then save_debug debug_path fov s else io_ret tt) ;
    run _ <- write_file (os_path_join out_dir (fov +:+ "_fiber_labels.tiff"))
                        (TiffInt (labeled_filtered s)) ;
    let fiber_label_images := <[ fov := labeled_filtered s ]> fiber_label_images in
    run fov_table <-
        io_lift (regionprops_table L (labeled_filtered s) object_properties) ;
    let fov_table := set_column (FOV_ID cfg) (CStr fov) fov_table in
    fov_loop L cfg p channel_xr fov_len out_dir object_properties debug debug_path
             rest fiber_label_images (fiber_object_table ++ [fov_table])
  end.

(** The writes of one pass (lines 204-211). *)
Definition save_pass (out_dir dpath fov : string) (debug : bool) (s : fov_steps)
  : io unit :=
  run _ <- (if debug then save_debug dpath fov s else io_ret tt) ;
  write_file (os_path_join out_dir (fov +:+ "_fiber_labels.tiff"))
             (TiffInt (labeled_filtered s)).

(** The paths of the debug images of a field of view, and the files of
    one pass with what is written to them, in the order of writing. *)
Definition debug_paths (dpath fov : string) : list string :=
  [ os_path_join dpath (fov +:+ "_thresholded.tiff");
    os_path_join dpath (fov +:+ "_ridges_thresholded.tiff");
    os_path_join dpath (fov +:+ "_meijering_filter.tiff");
    os_path_join dpath (fov +:+ "_contrast_adjusted.tiff") ].

Definition pass_paths (out_dir dpath fov : string) (debug : bool) : list string :=
  ((if debug then debug_paths dpath fov else [])
   ++ [ os_path_join out_dir (fov +:+ "_fiber_labels.tiff") ])%list.

Definition pass_writes (out_dir dpath fov : string) (debug : bool) (s : fov_steps)
  : list (string * artifact) :=
  ((if debug
    then [ (os_path_join dpath (fov +:+ "_thresholded.tiff"),
            TiffFloat (threshed s));
           (os_path_join dpath (fov +:+ "_ridges_thresholded.tiff"),
            TiffFloat (distance_transformed s));
           (os_path_join dpath (fov +:+ "_meijering_filter.tiff"),
            TiffFloat (ridges s));
           (os_path_join dpath (fov +:+ "_contrast_adjusted.tiff"),
            TiffFloat (contrast_adjusted s)) ]
    else [])
   ++ [ (os_path_join out_dir (fov +:+ "_fiber_labels.tiff"),
         TiffInt (labeled_filtered s)) ])%list.

(** The rows one field of view contributes to the table (lines 215-218). *)
Definition fov_table (L : imglib) (cfg : settings) (p : params)
    (channel_xr : ChannelArray) (fov_len : nat)
    (object_properties : list string) (fov : string) : result (list row) :=
  do s <- segment_fov L p channel_xr fov_len fov ;
  do t <- regionprops_table L (labeled_filtered s) object_properties ;
  Ok (set_column (FOV_ID cfg) (CStr fov) t).

Definition segment_fibers (L : imglib) (cfg : settings) (data_xr : DataArray)
    (fiber_channel out_dir : string) (p : params)
    (object_properties : list string) (debug : bool)
  : io (list row * gmap string (ndarray Z)) :=
  run channel_xr <- io_lift (loc_channel data_xr fiber_channel) ;
  let fov_len := snd (fst (ch_shape channel_xr)) in
  run out_dir_exists <- io_read (fun fs => os_path_exists fs out_dir) ;
  if negb out_dir_exists then io_raise FileNotFoundError
  else
    let debug_path := os_path_join out_dir "_debug" in
    run _ <- (if debug then os_makedirs debug_path else io_ret tt) ;
    run acc <- fov_loop L cfg p channel_xr fov_len out_dir object_properties
                        debug debug_path (ch_fovs channel_xr) ∅ [] ;
    run fiber_object_table <- io_lift (pd_concat (snd acc)) ;
    run _ <- write_file (os_path_join out_dir "fiber_object_table.csv")
                        (CsvTable fiber_object_table) ;
    io_ret (fiber_object_table, fst acc).

(** ** plot_fiber_segmentation_steps

    The nine panels of the figure, in the order of the axes; drawing
    them has no part in what is computed. *)
Record panels : Type := {
  panel_raw : ndarray float;
  panel_blurred : ndarray float;
  panel_contrast_adjusted : ndarray float;
  panel_ridges : ndarray float;
  panel_distance_transformed : ndarray float;
  panel_threshed : ndarray float;
  panel_elevation_map : ndarray float;
  panel_labeled : ndarray Z;
  panel_labeled_filtered : ndarray Z
}.

Definition plot_fiber_segmentation_steps (L : imglib) (data_xr : DataArray)
    (fov_name fiber_channel : string) (p : params) : result panels :=
  do channel_data <- loc_fov_channel data_xr fov_name fiber_channel ;
  do blurred <- gaussian_filter L channel_data (blur p) ;
  do top <- np_max blurred ;
  do kernel_size <-
     py_truediv (fst (shape channel_data)) (contrast_scaling_divisor p) ;
  do contrast_adjusted <-
     equalize_adapthist L (np_true_divide blurred top) kernel_size ;
  do ridges <- meijering L contrast_adjusted (fiber_widths p) false ;
  do edt <- distance_transform_edt L (np_gt ridges (ridge_cutoff p)) ;
  do distance_transformed <- gaussian_filter L edt 1%float ;
  (* watershed setup *)
  let threshed := np_zeros_like distance_transformed in
  do thresholds <- threshold_multiotsu L distance_transformed 3 ;
  do t0 <- getitem thresholds 0 ;
  let threshed := np_mask_assign threshed (np_lt distance_transformed t0) 1%float in
  do t1 <- getitem thresholds 1 ;
  let threshed := np_mask_assign threshed (np_gt distance_transformed t1) 2%float in
  do smoothed <- gaussian_filter L distance_transformed (sobel_blur p) ;
  do elevation_map <- sobel L smoothed ;
  do flooded <- watershed L elevation_map threshed ;
  let segmentation := np_sub1 flooded in
  let labeled := fst (ndi_label segmentation) in
  do kept <- remove_small_objects labeled (min_fiber_size p) ;
  let labeled_filtered := np_mul kept segmentation in
  Ok {| panel_raw := channel_data;
        panel_blurred := blurred;
        panel_contrast_adjusted := contrast_adjusted;
        panel_ridges := ridges;
        panel_distance_transformed := distance_transformed;
        panel_threshed := threshed;
        panel_elevation_map := elevation_map;
        panel_labeled := labeled;
        panel_labeled_filtered := labeled_filtered |}.

(** A segmentation whose cells are 0 (background) or 1 (fiber). *)
Definition binary (seg : ndarray Z) : Prop :=
  Forall (fun v => v = 0 \/ v = 1) (buf seg).

(** The two assignments of lines 191-192 in a row give every cell the
    class of the last mask that holds for it. *)
Definition class_of (t0 t1 x : float) : float :=
  if PrimFloat.ltb t1 x then 2%float
  else if PrimFloat.ltb x t0 then 1%float else 0%float.

(** The panels [plot_fiber_segmentation_steps] shows of the images of a
    pass of [segment_fibers]. *)
Definition panels_of (s : fov_steps) : panels := {|
  panel_raw := fiber_channel_data s;
  panel_blurred := blurred s;
  panel_contrast_adjusted := contrast_adjusted s;
  panel_ridges := ridges s;
  panel_distance_transformed := distance_transformed s;
  panel_threshed := threshed s;
  panel_elevation_map := elevation_map s;
  panel_labeled := labeled s;
  panel_labeled_filtered := labeled_filtered s
|}.

(** ** What is assumed of the library

    Every filter returns an image of the dimensions of its input
    (the watershed: of its markers); 3-class multi-Otsu returns two
    cutoffs in increasing order, the lower one a bin centre of the
    histogram and so strictly above the least value of the image; a
    watershed seeded with classes 1 and 2 and no mask floods every cell
    from one of the seeds. *)

Definition classified (m : ndarray float) : Prop :=
  Forall (fun x => x = 0 \/ x = 1 \/ x = 2)%float (buf m).

Definition has_seed (m : ndarray float) : Prop :=
  Exists (fun x => x = 1 \/ x = 2)%float (buf m).

Record imglib_ok (L : imglib) : Prop := {
  gaussian_filter_dims :
    forall a s b, gaussian_filter L a s = Ok b -> same_dims a b;
  equalize_adapthist_dims :
    forall a k b, equalize_adapthist L a k = Ok b -> same_dims a b;
  meijering_dims :
    forall a ws pol b, meijering L a ws pol = Ok b -> same_dims a b;
  distance_transform_edt_dims :
    forall m b, distance_transform_edt L m = Ok b -> same_dims m b;
  sobel_dims :
    forall a b, sobel L a = Ok b -> same_dims a b;
  watershed_dims :
    forall e m ws, watershed L e m = Ok ws -> same_dims m ws;
  threshold_multiotsu_two :
    forall a ts, threshold_multiotsu L a 3 = Ok ts ->
      exists t0 t1, ts = [t0; t1] /\ PrimFloat.leb t0 t1 = true /\
                    Exists (fun x => PrimFloat.ltb x t0 = true) (buf a);
  watershed_floods :
    forall e m ws, watershed L e m = Ok ws -> classified m -> has_seed m ->
      Forall (fun v => v = 1 \/ v = 2) (buf ws)
}.

(** ** A library instance to run the functions with

    Every filter is the identity, the distance transform is the
    indicator of its mask, the two cutoffs are fixed (and refused when
    no value lies below the lower one), and the watershed gives every
    cell that is not a class-2 seed to class 1.  It meets
    [imglib_ok] and lets the functions be evaluated on small images. *)

Definition plain_lib : imglib := {|
  gaussian_filter := fun a _ => Ok a;
  equalize_adapthist := fun a _ => Ok a;
  meijering := fun a _ _ => Ok a;
  distance_transform_edt :=
    fun m => Ok (np_map (fun b : bool => if b then 1 else 0)%float m);
  threshold_multiotsu :=
    fun a _ => if existsb (fun x => PrimFloat.ltb x 0.25) (buf a)
               then Ok [0.25; 0.75]%float else Raise ValueError;
  sobel := fun a => Ok a;
  watershed :=
    fun _ m => Ok (np_map (fun x => if PrimFloat.eqb x 2 then 2 else 1) m);
  region_properties :=
    fun props _ l => Ok (map (fun name => (name, CInt l)) props)
|}.

Definition plain_settings : settings := {| FOV_ID := "fov" |}.

Definition plain_params : params := {|
  blur := 2;
  contrast_scaling_divisor := 128;
  fiber_widths := [2; 4]%float;
  ridge_cutoff := 0.125;
  sobel_blur := 1;
  min_fiber_size := 2
|}.

Definition keep_all_params : params := {|
  blur := 2;
  contrast_scaling_divisor := 128;
  fiber_widths := [2; 4]%float;
  ridge_cutoff := 0.125;
  sobel_blur := 1;
  min_fiber_size := 0
|}.

(** Two 3 x 4 fields of view with one channel. *)
Definition sample_values (fov : string) : list float :=
  if String.eqb fov "fov0"
  then [1; 1; 0; 0;
        0; 0; 0; 1;
        1; 0; 1; 1]%float
  else [0; 1; 1; 0;
        0; 0; 0; 0;
        0; 0; 0; 1]%float.

Definition sample_data : DataArray := {|
  xr_fovs := ["fov0"; "fov1"];
  xr_channels := ["Collagen"];
  xr_rows := 3;
  xr_cols := 4;
  xr_pixel := fun fov x y _ => nth (x * 4 + y) (sample_values fov) 0%float
|}.

Definition out_fs : filesystem := FS {[ "out" ]} ∅.


Definition sample_channel : ChannelArray := {|
  ch_fovs := ["fov0"; "fov1"];
  ch_shape := (2, 3, 4)%nat;
  ch_pixel := fun fov x y => nth (x * 4 + y) (sample_values fov) 0%float
|}.

(** The images of the first sample field of view. *)
Definition sample_steps : fov_steps := {|
  fiber_channel_data := NdArray (3, 4)%nat (sample_values "fov0");
  blurred := NdArray (3, 4)%nat (sample_values "fov0");
  contrast_adjusted := NdArray (3, 4)%nat (sample_values "fov0");
  ridges := NdArray (3, 4)%nat (sample_values "fov0");
  distance_transformed := NdArray (3, 4)%nat (sample_values "fov0");
  thresholds := [0.25; 0.75]%float;
  threshed := NdArray (3, 4)%nat [2; 2; 1; 1;
                                  1; 1; 1; 2;
                                  2; 1; 2; 2]%float;
  elevation_map := NdArray (3, 4)%nat (sample_values "fov0");
  segmentation := NdArray (3, 4)%nat [1; 1; 0; 0;
                                      0; 0; 0; 1;
                                      1; 0; 1; 1];
  labeled := NdArray (3, 4)%nat [1; 1; 0; 0;
                                 0; 0; 0; 2;
                                 3; 0; 2; 2];
  labeled_filtered := NdArray (3, 4)%nat [1; 1; 0; 0;
                                          0; 0; 0; 2;
                                          0; 0; 2; 2]
|}.

Definition sample_table : list row :=
  [ Row 1 [("label", CInt 1); ("fov", CStr "fov0")];
    Row 2 [("label", CInt 2); ("fov", CStr "fov0")];
    Row 1 [("label", CInt 1); ("fov", CStr "fov1")] ].

Definition sample_images : gmap string (ndarray Z) :=
  <[ "fov1" := NdArray (3, 4)%nat [0; 1; 1; 0;
                                   0; 0; 0; 0;
                                   0; 0; 0; 0] ]>
  (<[ "fov0" := labeled_filtered sample_steps ]> ∅).

(** The file system a run on [out_fs] without debug images leaves. *)
Definition sample_fs_after : filesystem :=
  FS {[ "out" ]}
     (<[ "out/fiber_object_table.csv" := CsvTable sample_table ]>
      (<[ "out/fov1_fiber_labels.tiff" :=
            TiffInt (NdArray (3, 4)%nat [0; 1; 1; 0;
                                         0; 0; 0; 0;
                                         0; 0; 0; 0]) ]>
       (<[ "out/fov0_fiber_labels.tiff" :=
             TiffInt (labeled_filtered sample_steps) ]> ∅))).

(** The file system a run on [out_fs] with debug images leaves. *)
Definition sample_debug_fs_after : filesystem :=
  fst (segment_fibers plain_lib plain_settings sample_data "Collagen" "out"
                      plain_params ["label"] true out_fs).

(** A 2 x 2 field of view that is zero everywhere. *)
Definition zero_channel : ChannelArray := {|
  ch_fovs := ["fov0"];
  ch_shape := (1, 2, 2)%nat;
  ch_pixel := fun _ _ _ => 0%float
|}.

(** * Dimensionality reduction (ark/analysis/dimensionality_reduction.py)

    A shallow embedding of [visualize_dimensionality_reduction] and its
    helper [plot_dim_reduced_data]:

    - the frame operations the file uses ([dropna], selection of
      columns by name, [.values]), the column slices of the result, the
      dict of algorithms and the figure registry of pyplot get an
      executable reference model;
    - the numerical routines (the scaler and the three projections) and
      the checks seaborn makes on its arguments are fields of a record
      [vizlib];
    - the state is what the two functions can change or look at: the
      figures of pyplot, the paths that exist and the images saved. *)

(** ** pandas frames

    A frame is a list of column labels and a list of rows.  An entry is
    missing when it is [None] or a NaN. *)

Definition isna (v : option cell) : bool :=
  match v with
  | None => true
  | Some (CFloat f) => PrimFloat.is_nan f
  | Some _ => false
  end.

Record DataFrame : Type := {
  df_columns : list string;
  df_rows : list (list (option cell))
}.

(** A frame whose rows have one entry per column. *)
Definition rectangular (d : DataFrame) : Prop :=
  Forall (fun r => length r = length (df_columns d)) (df_rows d).

(** [cell_data.dropna()]: the rows without a missing entry. *)
Definition dropna (d : DataFrame) : DataFrame :=
  {| df_columns := df_columns d;
     df_rows := List.filter (fun r => negb (existsb isna r)) (df_rows d) |}.

(** The positions of the columns labelled [name]. *)
Definition column_positions (labels : list string) (name : string) : list nat :=
  List.filter (fun i => String.eqb (nth i labels "") name) (seq 0 (length labels)).

Definition locate_columns (labels wanted : list string) : result (list nat) :=
  do groups <- map_result (fun name => match column_positions labels name with
                                       | [] => Raise KeyError
                                       | ps => Ok ps
                                       end) wanted ;
  Ok (concat groups).

Definition take_columns (d : DataFrame) (ps : list nat) : DataFrame :=
  {| df_columns := map (fun i => nth i (df_columns d) "") ps;
     df_rows := map (fun r => map (fun i => nth i r None) ps) (df_rows d) |}.

(** [cell_data[columns]] for a list of labels: the columns in the order
    asked for; a label the frame does not have raises [KeyError]. *)
Definition df_getitem_list (d : DataFrame) (wanted : list string)
  : result DataFrame :=
  do ps <- locate_columns (df_columns d) wanted ;
  Ok (take_columns d ps).

(** [cell_data[category]] for one label. *)
Definition df_getitem (d : DataFrame) (name : string) : result DataFrame :=
  df_getitem_list d [name].

(** [frame.values] *)
Definition df_values (d : DataFrame) : ndarray (option cell) :=
  NdArray (length (df_rows d), length (df_columns d)) (concat (df_rows d)).

(** [a[:, j]] on a two-dimensional array *)
Definition np_column {A : Type} (a : ndarray A) (j : nat) : result (list A) :=
  if (j <? snd (shape a))%nat
  then Ok (flat_map (fun i => match nth_error (buf a) (i * snd (shape a) + j) with
                              | Some x => [x]
                              | None => []
                              end)
                    (seq 0 (fst (shape a))))
  else Raise IndexError.

(** [d[k]] on a dict, kept as the list of its items in insertion order,
    and [l.index(x)] on a list. *)
Fixpoint dict_get {V : Type} (d : list (string * V)) (k : string) : result V :=
  match d with
  | [] => Raise KeyError
  | (k', v) :: t => if String.eqb k' k then Ok v else dict_get t k
  end.

Fixpoint list_index (l : list string) (x : string) : result nat :=
  match l with
  | [] => Raise ValueError
  | y :: t => if String.eqb y x then Ok O
              else do i <- list_index t x ; Ok (S i)
  end.

(** ** pyplot and the disk *)

(** What [sns.scatterplot] is called with. *)
Record scatter : Type := {
  sc_x : list float;
  sc_y : list float;
  sc_hue : DataFrame;
  sc_palette : string;
  sc_data : DataFrame;
  sc_legend : string;
  sc_alpha : float
}.

(** A figure: the scatter plots drawn on its axes, its legend and its
    title.  A new scatter plot is added to the ones there; legend and
    title replace the ones there. *)
Record figure : Type := {
  fig_scatters : list scatter;
  fig_legend : option (float * float * Z * float);
  fig_title : option (string * Z)
}.

Definition empty_figure : figure :=
  {| fig_scatters := []; fig_legend := None; fig_title := None |}.

(** The figures of pyplot by number, the current one last; the
    directories and files that exist; the images saved. *)
Record session : Type := {
  figures : list (Z * figure);
  disk_paths : gset string;
  saved : gmap string figure
}.

Definition find_figure (num : Z) (figs : list (Z * figure)) : option figure :=
  match List.find (fun nf => fst nf =? num) figs with
  | Some nf => Some (snd nf)
  | None => None
  end.

Definition gui (A : Type) : Type := session -> session * result A.

Definition gui_ret {A : Type} (a : A) : gui A := fun st => (st, Ok a).

Definition gui_raise {A : Type} (e : exn) : gui A := fun st => (st, Raise e).

Definition gui_lift {A : Type} (r : result A) : gui A := fun st => (st, r).

Definition gui_bind {A B : Type} (m : gui A) (k : A -> gui B) : gui B :=
  fun st => match m st with
            | (st', Ok a) => k a st'
            | (st', Raise e) => (st', Raise e)
            end.

Notation "'draw' x <- m ; k" := (gui_bind m (fun x => k))
  (at level 10, x name, m at level 100, k at level 200).

(** [plt.figure(num)]: the figure of that number becomes the current
    one, as it is; when there is none, an empty one is made. *)
Definition activate (num : Z) (figs : list (Z * figure)) : list (Z * figure) :=
  (List.filter (fun nf => negb (fst nf =? num)) figs
   ++ [(num, match find_figure num figs with
             | Some f => f
             | None => empty_figure
             end)])%list.

Definition plt_figure (num : Z) : gui unit :=
  fun st => ({| figures := activate num (figures st);
                disk_paths := disk_paths st;
                saved := saved st |}, Ok tt).

(** The current figure ([plt.gcf()]); without any figure, figure 1 is
    made. *)
Definition on_current (change : figure -> figure) (figs : list (Z * figure))
  : list (Z * figure) :=
  match rev figs with
  | [] => [(1, change empty_figure)]
  | (num, f) :: before => (rev before ++ [(num, change f)])%list
  end.

Definition current_figure (figs : list (Z * figure)) : figure :=
  match rev figs with
  | [] => empty_figure
  | (_, f) :: _ => f
  end.

Definition draw_on_current (change : figure -> figure) : gui unit :=
  fun st => ({| figures := on_current change (figures st);
                disk_paths := disk_paths st;
                saved := saved st |}, Ok tt).

Definition add_scatter (sc : scatter) (f : figure) : figure :=
  {| fig_scatters := fig_scatters f ++ [sc];
     fig_legend := fig_legend f;
     fig_title := fig_title f |}.

Definition set_legend (l : float * float * Z * float) (f : figure) : figure :=
  {| fig_scatters := fig_scatters f;
     fig_legend := Some l;
     fig_title := fig_title f |}.

Definition set_title (t : string * Z) (f : figure) : figure :=
  {| fig_scatters := fig_scatters f;
     fig_legend := fig_legend f;
     fig_title := Some t |}.

(** [plt.legend(bbox_to_anchor=b, loc=l, borderaxespad=p)] *)
Definition plt_legend (b : float * float) (l : Z) (p : float) : gui unit :=
  draw_on_current (set_legend (b, l, p)).

(** [plt.title(text, fontsize=n)] *)
Definition plt_title (text : string) (n : Z) : gui unit :=
  draw_on_current (set_title (text, n)).

(** [os.path.exists(p)] *)
Definition path_exists (st : session) (p : string) : bool :=
  bool_decide (p ∈ disk_paths st) || bool_decide (is_Some (saved st !! p)).

(** [plt.savefig(p)]: the current figure goes to [p]; the write itself
    is taken to succeed. *)
Definition plt_savefig (p : string) : gui unit :=
  fun st =>
    let figs := on_current (fun f => f) (figures st) in
    ({| figures := figs;
        disk_paths := disk_paths st;
        saved := <[ p := current_figure figs ]> (saved st) |}, Ok tt).

(** ** The numerical library and seaborn *)

Inductive reducer : Type := UMAP | PCA | TSNE.

Record vizlib : Type := {
  (** [StandardScaler().fit_transform(X)] *)
  standard_scaler : ndarray (option cell) -> result (ndarray float);
  (** [r().fit_transform(X)] for the class [r] *)
  fit_transform : reducer -> ndarray (option cell) -> result (ndarray float);
  (** whether [sns.scatterplot] accepts its arguments *)
  scatterplot_check : scatter -> result unit
}.

(** [sns.scatterplot(x=, y=, hue=, palette=, data=, legend=, alpha=)]:
    drawn on the current figure. *)
Definition sns_scatterplot (V : vizlib) (sc : scatter) : gui unit :=
  draw _ <- gui_lift (scatterplot_check V sc) ;
  draw_on_current (add_scatter sc).

(** ** plot_dim_reduced_data *)

(** The keyword arguments with a default other than [None]. *)
Record plot_options : Type := {
  title_fontsize : Z;
  palette : string;
  alpha : float;
  legend_type : string;
  bbox_to_anchor : float * float;
  legend_loc : Z;
  legend_borderaxespad : float
}.

Definition default_options : plot_options := {|
  title_fontsize := 24;
  palette := "Spectral";
  alpha := 0x1.3333333333333p-2;  (* 0.3 *)
  legend_type := "full";
  bbox_to_anchor := (0x1.0cccccccccccdp+0, 1)%float;  (* (1.05, 1) *)
  legend_loc := 2;
  legend_borderaxespad := 0
|}.

Definition plot_dim_reduced_data (V : vizlib)
    (component_one component_two : list float) (fig_id : Z)
    (hue cell_data : DataFrame) (title : string) (o : plot_options)
    (save_dir save_file : option string) : gui unit :=
  draw _ <- plt_figure fig_id ;
  draw _ <- sns_scatterplot V {| sc_x := component_one;
                                 sc_y := component_two;
                                 sc_hue := hue;
                                 sc_palette := palette o;
                                 sc_data := cell_data;
                                 sc_legend := legend_type o;
                                 sc_alpha := alpha o |} ;
  draw _ <- plt_legend (bbox_to_anchor o) (legend_loc o) (legend_borderaxespad o) ;
  draw _ <- plt_title title (title_fontsize o) ;
  match save_dir with
  | None => gui_ret tt
  | Some dir =>
    fun st =>
      if negb (path_exists st dir) then (st, Raise ValueError)
      else match save_file with
           | None => (st, Raise ValueError)
           | Some file => plt_savefig (os_path_join dir file) st
           end
  end.

(** The figure [fig_id] as [plt.figure(fig_id)] finds or makes it, and
    the session once the four drawing calls of [plot_dim_reduced_data]
    are through. *)
Definition figure_before (num : Z) (st : session) : figure :=
  match find_figure num (figures st) with
  | Some f => f
  | None => empty_figure
  end.

Definition drawn (sc : scatter) (title : string) (o : plot_options) (f : figure)
  : figure :=
  set_title (title, title_fontsize o)
    (set_legend (bbox_to_anchor o, legend_loc o, legend_borderaxespad o)
       (add_scatter sc f)).

Definition after_drawing (num : Z) (f : figure) (st : session) : session :=
  {| figures := (List.filter (fun nf => negb (fst nf =? num)) (figures st)
                 ++ [(num, f)])%list;
     disk_paths := disk_paths st;
     saved := saved st |}.

(** ** visualize_dimensionality_reduction *)

Definition algorithms : list string := ["UMAP"; "PCA"; "tSNE"].

Definition dim_red_map : list (string * reducer) :=
  [("UMAP", UMAP); ("PCA", PCA); ("tSNE", TSNE)].

(** A float array seen as an array of entries. *)
Definition as_entries (a : ndarray float) : ndarray (option cell) :=
  np_map (fun x => Some (CFloat x)) a.

(** Lines 107-118 up to the call of [plot_dim_reduced_data]: the
    arguments of that call, evaluated from left to right. *)
Definition reduce (V : vizlib) (cell_data : DataFrame) (columns : list string)
    (category algorithm : string)
  : result (list float * list float * nat * DataFrame) :=
  do dim_red_reducer <- dict_get dim_red_map algorithm ;
  do X <- (if negb (String.eqb algorithm "UMAP")
           then do selected <- df_getitem_list cell_data columns ;
                Ok (df_values selected)
           else do selected <- df_getitem_list cell_data columns ;
                do scaled <- standard_scaler V (df_values selected) ;
                Ok (as_entries scaled)) ;
  do dim_red_results <- fit_transform V dim_red_reducer X ;
  do component_one <- np_column dim_red_results 0 ;
  do component_two <- np_column dim_red_results 1 ;
  do fig_id <- list_index (map fst dim_red_map) algorithm ;
  do hue <- df_getitem cell_data category ;
  Ok (component_one, component_two, fig_id, hue).

Definition visualize_dimensionality_reduction (V : vizlib)
    (cell_data : DataFrame) (columns : list string)
    (category color_map algorithm : string) (save_dir : option string)
  : gui unit :=
  let cell_data := dropna cell_data in
  (* check if the algorithm is valid *)
  if negb (has_name algorithms algorithm) then gui_raise ValueError
  else
    (* set the title of the graph *)
    let graph_title := algorithm +:+ " projection of data" in
    draw args <- gui_lift (reduce V cell_data columns category algorithm) ;
    let '(component_one, component_two, fig_id, hue) := args in
    (* now plot the results of the dimensionality reduction *)
    plot_dim_reduced_data V component_one component_two (Z.of_nat fig_id)
                          hue cell_data graph_title default_options
                          save_dir (Some (algorithm +:+ "Visualization.png")).

(** ** A library instance and a frame to run the functions with

    The scaler and the projections read the entries as numbers and
    leave them where they are; every scatter plot is accepted. *)

Definition entry_value (v : option cell) : float :=
  match v with
  | Some (CFloat f) => f
  | Some (CInt z) => float_of_Z z
  | _ => 0%float
  end.

Definition plain_viz : vizlib := {|
  standard_scaler := fun X => Ok (np_map entry_value X);
  fit_transform := fun _ X => Ok (np_map entry_value X);
  scatterplot_check := fun _ => Ok tt
|}.

(** Four cells, one of them without its population. *)
Definition sample_frame : DataFrame := {|
  df_columns := ["CD4"; "CD8"; "population"];
  df_rows := [ [Some (CFloat 1); Some (CFloat 0); Some (CStr "T helper")];
               [Some (CFloat 0); Some (CFloat 1); Some (CStr "T killer")];
               [Some (CFloat 2); Some (CFloat 2); None];
               [Some (CFloat 1); Some (CFloat 3); Some (CStr "T killer")] ]
|}.

Definition sample_hue : DataFrame := {|
  df_columns := ["population"];
  df_rows := [ [Some (CStr "T helper")];
               [Some (CStr "T killer")];
               [Some (CStr "T killer")] ]
|}.

Definition sample_scatter : scatter := {|
  sc_x := [1; 0; 1]%float;
  sc_y := [0; 1; 3]%float;
  sc_hue := sample_hue;
  sc_palette := "Spectral";
  sc_data := dropna sample_frame;
  sc_legend := "full";
  sc_alpha := 0x1.3333333333333p-2
|}.

(** The figure a first PCA call on [sample_frame] draws. *)
Definition sample_figure : figure := {|
  fig_scatters := [sample_scatter];
  fig_legend := Some (0x1.0cccccccccccdp+0%float, 1%float, 2, 0%float);
  fig_title := Some ("PCA projection of data", 24)
|}.

Definition plots_session : session := {|
  figures := [];
  disk_paths := {[ "plots" ]};
  saved := ∅
|}.

(** ** The writes of the loop, as a list

    What the passes for [fovs] write, in the order of writing, when
    every pass goes through: the debug images (lines 205-209) and the
    label image (line 211) of each field of view. *)

Definition loop_writes (L : imglib) (p : params) (channel_xr : ChannelArray)
    (fov_len : nat) (out_dir dpath : string) (debug : bool) (fovs : list string)
  : list (string * artifact) :=
  flat_map (fun fov => match segment_fov L p channel_xr fov_len fov with
                       | Ok s => pass_writes out_dir dpath fov debug s
                       | Raise _ => []
                       end) fovs.

(** ** More inputs to run the functions on *)

(** The keyword arguments with a [contrast_scaling_divisor] of 0. *)
Definition zero_divisor_params : params := {|
  blur := 2;
  contrast_scaling_divisor := 0;
  fiber_widths := [2; 4]%float;
  ridge_cutoff := 0.125;
  sobel_blur := 1;
  min_fiber_size := 2
|}.


(** A field of view of 0 x 4 cells. *)
Definition empty_channel : ChannelArray := {|
  ch_fovs := ["fov0"];
  ch_shape := (1, 0, 4)%nat;
  ch_pixel := fun _ _ _ => 0%float
|}.

(** The first sample field of view followed by one that is 1
    everywhere, on which [plain_lib] finds no value below its lower
    cutoff. *)
Definition bright_data : DataArray := {|
  xr_fovs := ["fov0"; "bright"];
  xr_channels := ["Collagen"];
  xr_rows := 3;
  xr_cols := 4;
  xr_pixel := fun fov x y _ =>
                if String.eqb fov "bright" then 1%float
                else nth (x * 4 + y) (sample_values "fov0") 0%float
|}.

(** An output directory that holds a file of its own. *)
Definition notes_fs : filesystem :=
  FS {[ "out" ]} {[ "out/notes.csv" := CsvTable [] ]}.

(** The session a first PCA call on [sample_frame], saving to [plots],
    leaves behind. *)
Definition sample_session_after : session := {|
  figures := [(1, sample_figure)];
  disk_paths := {[ "plots" ]};
  saved := {[ "plots/PCAVisualization.png" := sample_figure ]}
|}.

(** A regular file in the place of the output directory. *)
Definition file_fs : filesystem := FS ∅ {[ "out" := CsvTable [] ]}.

(** The first sample field of view under a name with a separator, and
    an output directory with a subdirectory for it. *)
Definition nested_data : DataArray := {|
  xr_fovs := ["a/fov0"];
  xr_channels := ["Collagen"];
  xr_rows := 3;
  xr_cols := 4;
  xr_pixel := fun _ x y _ => nth (x * 4 + y) (sample_values "fov0") 0%float
|}.

Definition nested_fs : filesystem := FS {[ "out"; "out/a" ]} ∅.

(** * Properties of the reference models *)

(** ** The neighbourhood *)

Lemma neighbours_lt W n i j :
  (i < n)%nat -> In j (neighbours W n i) -> (j < n)%nat.
Proof.
  unfold neighbours. intros Hi Hj.
  repeat (apply in_app_or in Hj; destruct Hj as [Hj | Hj]).
  - destruct (W <=? i)%nat; simpl in Hj; [| tauto]. lia.
  - destruct (Nat.ltb_spec (i + W) n); simpl in Hj; [| tauto]. lia.
  - destruct (0 <? i mod W)%nat; simpl in Hj; [| tauto]. lia.
  - destruct (Nat.ltb_spec (S i) n); rewrite ?andb_false_r in Hj;
      [| simpl in Hj; tauto].
    destruct (S (i mod W) <? W)%nat; simpl in Hj; [| tauto]. lia.
Qed.

Lemma mod_succ W i : (S (i mod W) < W)%nat -> (S i mod W = S (i mod W))%nat.
Proof.
  intros H. symmetry. apply (Nat.mod_unique (S i) W (i / W)); [exact H |].
  pose proof (Nat.div_mod_eq i W) as E.
  revert E. generalize (W * (i / W))%nat (i mod W)%nat. intros; lia.
Qed.

Lemma mod_pred W i :
  (0 < W)%nat -> (0 < i mod W)%nat -> (S ((i - 1) mod W) = i mod W)%nat.
Proof.
  intros HW0 H.
  assert (HW : (W <> 0)%nat) by lia.
  assert (Hlt : (i mod W < W)%nat) by (apply Nat.mod_upper_bound; exact HW).
  assert (E : (i mod W - 1 = (i - 1) mod W)%nat).
  { apply (Nat.mod_unique (i - 1) W (i / W)); [lia |].
    pose proof (Nat.div_mod_eq i W) as E.
    revert E H. generalize (W * (i / W))%nat (i mod W)%nat. intros; lia. }
  lia.
Qed.

Lemma neighbours_sym W n i j :
  (0 < W)%nat -> (i < n)%nat -> In j (neighbours W n i) -> In i (neighbours W n j).
Proof.
  intros HW Hi Hj. unfold neighbours in Hj.
  repeat (apply in_app_or in Hj; destruct Hj as [Hj | Hj]).
  - destruct (Nat.leb_spec W i); simpl in Hj; [| tauto].
    destruct Hj as [<- | []]. unfold neighbours.
    apply in_or_app; right. apply in_or_app; left.
    replace (i - W + W <? n)%nat with true by (symmetry; apply Nat.ltb_lt; lia).
    left; lia.
  - destruct (Nat.ltb_spec (i + W) n); simpl in Hj; [| tauto].
    destruct Hj as [<- | []]. unfold neighbours.
    apply in_or_app; left.
    replace (W <=? i + W)%nat with true by (symmetry; apply Nat.leb_le; lia).
    left; lia.
  - destruct (Nat.ltb_spec 0 (i mod W)); simpl in Hj; [| tauto].
    destruct Hj as [<- | []]. unfold neighbours.
    do 3 (apply in_or_app; right).
    pose proof (mod_pred W i HW H) as E.
    pose proof (Nat.mod_upper_bound i W ltac:(lia)) as U.
    replace (S ((i - 1) mod W) <? W)%nat with true
      by (symmetry; apply Nat.ltb_lt; lia).
    assert (0 < i)%nat by (destruct i; [rewrite Nat.Div0.mod_0_l in H; lia | lia]).
    replace (S (i - 1) <? n)%nat with true by (symmetry; apply Nat.ltb_lt; lia).
    left; lia.
  - destruct (Nat.ltb_spec (S (i mod W)) W); simpl in Hj; [| tauto].
    destruct (Nat.ltb_spec (S i) n); simpl in Hj; [| tauto].
    destruct Hj as [<- | []]. unfold neighbours.
    do 2 (apply in_or_app; right). apply in_or_app; left.
    rewrite (mod_succ W i H).
    replace (0 <? S (i mod W))%nat with true by (symmetry; apply Nat.ltb_lt; lia).
    left; lia.
Qed.

(** ** Chains of cells *)

Lemma joined_ends W n P i j :
  joined W n P i j -> ((i < n)%nat /\ P i) /\ ((j < n)%nat /\ P j).
Proof.
  induction 1 as [Hi HP | j k Hij IH Hk HPk].
  - auto.
  - destruct IH as [Hi [Hj _]]. split; [exact Hi |].
    split; [eapply neighbours_lt; eauto | exact HPk].
Qed.

Lemma joined_trans W n P i j k :
  joined W n P i j -> joined W n P j k -> joined W n P i k.
Proof.
  intros Hij Hjk. induction Hjk as [Hj HP | k l Hjk IH Hl HPl].
  - exact Hij.
  - apply joined_step with k; assumption.
Qed.

Lemma joined_sym W n P i j :
  (0 < W)%nat -> joined W n P i j -> joined W n P j i.
Proof.
  intros HW. induction 1 as [Hi HP | j k Hij IH Hk HPk].
  - now apply joined_refl.
  - destruct (joined_ends _ _ _ _ _ Hij) as [_ [Hj HPj]].
    apply joined_trans with j; [| exact IH].
    apply joined_step with k.
    + apply joined_refl; [eapply neighbours_lt; eauto | exact HPk].
    + now apply neighbours_sym.
    + exact HPj.
Qed.

Lemma joined_weaken W n (P Q : nat -> Prop) i j :
  (forall k, P k -> Q k) -> joined W n P i j -> joined W n Q i j.
Proof.
  intros HPQ. induction 1 as [Hi HP | j k Hij IH Hk HPk].
  - apply joined_refl; auto.
  - apply joined_step with j; auto.
Qed.

(** ** Propagating marks *)

Lemma fold_least_spec (v : list nat) (js : list nat) (m0 : nat) :
  let m := fold_left (fun m j => match nth j v O with
                                 | O => m
                                 | S r => Nat.min m (S r)
                                 end) js m0 in
  (m <= m0)%nat /\
  (forall j, In j js -> nth j v O <> O -> (m <= nth j v O)%nat) /\
  (m = m0 \/ exists j, In j js /\ nth j v O <> O /\ m = nth j v O) /\
  (m0 <> O -> m <> O).
Proof.
  revert m0. induction js as [| j js IH]; intros m0; simpl.
  - repeat split; auto. intros j [].
  - destruct (nth j v O) as [| r] eqn:E.
    + destruct (IH m0) as (H1 & H2 & H3 & H4).
      repeat split; auto.
      * intros j' [<- | Hj'] Hne; [congruence | auto].
      * destruct H3 as [H3 | (j' & Hj' & Hne & H3)]; [left; exact H3 |].
        right. exists j'. auto.
    + destruct (IH (Nat.min m0 (S r))) as (H1 & H2 & H3 & H4).
      repeat split.
      * lia.
      * intros j' [<- | Hj'] Hne; [rewrite E; lia | auto].
      * destruct H3 as [H3 | (j' & Hj' & Hne & H3)].
        -- destruct (Nat.min_spec m0 (S r)) as [[_ Hm] | [_ Hm]].
           ++ left. congruence.
           ++ right. exists j. rewrite E. split; [now left |]. split; congruence.
        -- right. exists j'. auto.
      * intros Hm0. apply H4. lia.
Qed.

Lemma least_mark_le_self v i js : (least_mark v i js <= nth i v O)%nat.
Proof. destruct (fold_least_spec v js (nth i v O)) as (H & _). exact H. Qed.

Lemma least_mark_le_neighbour v i js j :
  In j js -> nth j v O <> O -> (least_mark v i js <= nth j v O)%nat.
Proof. destruct (fold_least_spec v js (nth i v O)) as (_ & H & _). apply H. Qed.

Lemma least_mark_source v i js :
  least_mark v i js = nth i v O \/
  exists j, In j js /\ nth j v O <> O /\ least_mark v i js = nth j v O.
Proof. destruct (fold_least_spec v js (nth i v O)) as (_ & _ & H & _). exact H. Qed.

Lemma least_mark_nonzero v i js : nth i v O <> O -> least_mark v i js <> O.
Proof. destruct (fold_least_spec v js (nth i v O)) as (_ & _ & _ & H). exact H. Qed.

Lemma nth_map_seq {A : Type} (f : nat -> A) (n i : nat) (d : A) :
  (i < n)%nat -> nth i (map f (seq 0 n)) d = f i.
Proof.
  intros Hi. rewrite (nth_indep _ d (f O)) by (rewrite length_map, length_seq; exact Hi).
  rewrite map_nth, seq_nth by exact Hi. reflexivity.
Qed.

Lemma sweep_length W v : length (sweep W v) = length v.
Proof. unfold sweep. now rewrite length_map, length_seq. Qed.

Lemma sweep_nth W v i :
  (i < length v)%nat ->
  nth i (sweep W v) O =
  match nth i v O with
  | O => O
  | S _ => least_mark v i (neighbours W (length v) i)
  end.
Proof. intros Hi. unfold sweep. now rewrite nth_map_seq. Qed.

Lemma sweep_le W v i : (nth i (sweep W v) O <= nth i v O)%nat.
Proof.
  destruct (Nat.lt_ge_cases i (length v)) as [Hi | Hi].
  - rewrite sweep_nth by exact Hi.
    destruct (nth i v O) eqn:E; [lia |]. rewrite <- E. apply least_mark_le_self.
  - rewrite nth_overflow by (rewrite sweep_length; exact Hi). lia.
Qed.

Lemma pointwise_le_Forall2 (u v : list nat) :
  length u = length v ->
  (forall i, (nth i u O <= nth i v O)%nat) ->
  Forall2 le u v.
Proof.
  revert v. induction u as [| x u IH]; intros [| y v] Hlen Hle;
    simpl in Hlen; try discriminate; constructor.
  - exact (Hle O).
  - apply IH; [lia |]. intros i. exact (Hle (S i)).
Qed.

Lemma Forall2_le_sum (u v : list nat) :
  Forall2 le u v -> u = v \/ (list_sum u < list_sum v)%nat.
Proof.
  induction 1 as [| x y u v Hxy Huv IH]; [now left |].
  simpl. destruct IH as [-> | IH].
  - destruct (Nat.eq_dec x y) as [-> | Hne]; [now left | right; lia].
  - right; lia.
Qed.

Lemma sweep_fixed_or_smaller W v :
  sweep W v = v \/ (list_sum (sweep W v) < list_sum v)%nat.
Proof.
  apply Forall2_le_sum, pointwise_le_Forall2.
  - apply sweep_length.
  - intros i. apply sweep_le.
Qed.

(** With the sum of the marks as fuel, propagation ends in a fixed point. *)
Lemma propagate_fixed W fuel v :
  (list_sum v <= fuel)%nat -> sweep W (propagate fuel W v) = propagate fuel W v.
Proof.
  revert v. induction fuel as [| f IH]; intros v Hsum; simpl.
  - destruct (sweep_fixed_or_smaller W v) as [E | Hlt]; [exact E | lia].
  - destruct (decide (sweep W v = v)) as [E | Hne]; [exact E |].
    apply IH. destruct (sweep_fixed_or_smaller W v) as [E | Hlt]; [contradiction | lia].
Qed.

Lemma init_marks_ok W b : marks_ok W b (init_marks b).
Proof.
  unfold marks_ok, init_marks. split; [now rewrite length_map, length_seq |].
  intros i Hi. rewrite nth_map_seq by exact Hi.
  destruct (Z.eqb_spec (nth i b 0) 0) as [E | E].
  - split; [tauto | discriminate].
  - split; [split; [discriminate | contradiction] |].
    intros r [= <-]. now apply joined_refl.
Qed.

Lemma sweep_marks_ok W b v : marks_ok W b v -> marks_ok W b (sweep W v).
Proof.
  intros [Hlen Hv]. split; [now rewrite sweep_length |].
  intros i Hi. rewrite sweep_nth by lia.
  destruct (Hv i Hi) as [Hz Hr].
  destruct (nth i v O) as [| x] eqn:E.
  - split; [exact Hz | discriminate].
  - assert (Hfg : nth i b 0 <> 0) by (intros Hb; apply Hz in Hb; discriminate).
    split.
    + split; [| contradiction].
      intros Hm. exfalso. revert Hm. apply least_mark_nonzero. congruence.
    + intros r Hm.
      destruct (least_mark_source v i (neighbours W (length v) i))
        as [Hs | (j & Hj & Hne & Hs)].
      * apply Hr. congruence.
      * rewrite Hlen in Hj.
        assert (Hjn : (j < length b)%nat) by (eapply neighbours_lt; eauto).
        destruct (Hv j Hjn) as [Hzj Hrj].
        assert (Hfgj : nth j b 0 <> 0) by tauto.
        apply joined_trans with j.
        -- apply joined_step with i; [now apply joined_refl | exact Hj | exact Hfgj].
        -- apply Hrj. congruence.
Qed.

Lemma propagate_marks_ok W b fuel v :
  marks_ok W b v -> marks_ok W b (propagate fuel W v).
Proof.
  revert v. induction fuel as [| f IH]; intros v Hv; simpl; [exact Hv |].
  destruct (decide (sweep W v = v)); [exact Hv |].
  apply IH. now apply sweep_marks_ok.
Qed.

Lemma final_marks_ok W b : marks_ok W b (final_marks W b).
Proof. apply propagate_marks_ok, init_marks_ok. Qed.

Lemma final_marks_fixed W b : sweep W (final_marks W b) = final_marks W b.
Proof. apply propagate_fixed. lia. Qed.

(** At a fixed point neighbouring foreground cells carry one mark, and
    so do the two ends of every chain. *)
Lemma fixed_neighbour_le W v i j :
  sweep W v = v -> (i < length v)%nat -> nth i v O <> O ->
  In j (neighbours W (length v) i) -> nth j v O <> O ->
  (nth i v O <= nth j v O)%nat.
Proof.
  intros Hfix Hi Hne Hj Hnej.
  rewrite <- Hfix at 1. rewrite sweep_nth by exact Hi.
  destruct (nth i v O) eqn:E; [congruence |].
  now apply least_mark_le_neighbour.
Qed.

Lemma fixed_joined_eq W b v i j :
  (0 < W)%nat -> marks_ok W b v -> sweep W v = v ->
  joined W (length b) (fun k => nth k b 0 <> 0) i j ->
  nth i v O = nth j v O.
Proof.
  intros HW [Hlen Hv] Hfix. induction 1 as [Hi HP | j k Hij IH Hk HPk].
  - reflexivity.
  - rewrite IH.
    destruct (joined_ends _ _ _ _ _ Hij) as [_ [Hj HPj]].
    assert (Hkn : (k < length b)%nat) by (eapply neighbours_lt; eauto).
    assert (Hnj : nth j v O <> O) by (intros E; apply (Hv j Hj) in E; contradiction).
    assert (Hnk : nth k v O <> O) by (intros E; apply (Hv k Hkn) in E; contradiction).
    apply Nat.le_antisymm.
    + apply (fixed_neighbour_le W); auto; rewrite Hlen; auto.
    + apply (fixed_neighbour_le W); auto; rewrite Hlen; auto.
      now apply neighbours_sym.
Qed.

(** ** Numbering the components *)

Lemma index_of_lt x l : In x l -> (index_of x l < length l)%nat.
Proof.
  induction l as [| y l IH]; simpl; [tauto |].
  intros [-> | Hx].
  - rewrite Nat.eqb_refl. lia.
  - destruct (x =? y)%nat; [lia | apply IH in Hx; lia].
Qed.

Lemma index_of_inj x y l :
  In x l -> In y l -> index_of x l = index_of y l -> x = y.
Proof.
  induction l as [| z l IH]; simpl; [tauto |].
  intros Hx Hy.
  destruct (Nat.eqb_spec x z) as [-> | Hxz], (Nat.eqb_spec y z) as [-> | Hyz];
    try congruence; try discriminate.
  intros [= E]. apply IH; auto.
  - destruct Hx; congruence.
  - destruct Hy; congruence.
Qed.

Lemma index_of_nth k l :
  List.NoDup l -> (k < length l)%nat -> index_of (nth k l O) l = k.
Proof.
  intros Hnd. revert k. induction Hnd as [| y l Hy Hnd IH]; intros k Hk; simpl in *.
  - lia.
  - destruct k as [| k]; [now rewrite Nat.eqb_refl |].
    destruct (Nat.eqb_spec (nth k l O) y) as [E | _].
    + exfalso. apply Hy. rewrite <- E. apply nth_In. lia.
    + f_equal. apply IH. lia.
Qed.

Lemma roots_spec v r :
  In r (roots v) <-> (r < length v)%nat /\ nth r v O = S r.
Proof.
  unfold roots. rewrite filter_In, in_seq, Nat.eqb_eq. intuition lia.
Qed.

Lemma roots_NoDup v : List.NoDup (roots v).
Proof. unfold roots. apply List.NoDup_filter, List.seq_NoDup. Qed.

Lemma number_marks_nth v i :
  nth i (number_marks v) 0 =
  match nth i v O with
  | O => 0
  | S r => Z.of_nat (S (index_of r (roots v)))
  end.
Proof.
  unfold number_marks.
  exact (map_nth (fun m => match m with
                           | O => 0
                           | S r => Z.of_nat (S (index_of r (roots v)))
                           end) v O i).
Qed.

(** ** What [ndi_label] returns *)

Lemma well_formed_width {A : Type} (a : ndarray A) i :
  well_formed a -> (i < length (buf a))%nat -> (0 < snd (shape a))%nat.
Proof. unfold well_formed. intros E Hi. rewrite E in Hi. nia. Qed.

Lemma ndi_label_cell a i :
  cell_at (fst (ndi_label a)) i =
  match nth i (final_marks (snd (shape a)) (buf a)) O with
  | O => 0
  | S r => Z.of_nat
             (S (index_of r (roots (final_marks (snd (shape a)) (buf a)))))
  end.
Proof. unfold cell_at, ndi_label; simpl. apply number_marks_nth. Qed.

Lemma ndi_label_dims a : same_dims a (fst (ndi_label a)).
Proof.
  unfold same_dims, ndi_label; simpl. split; [reflexivity |].
  unfold number_marks. rewrite length_map. apply (final_marks_ok (snd (shape a))).
Qed.

Lemma ndi_label_zero a i :
  (i < length (buf a))%nat ->
  cell_at (fst (ndi_label a)) i = 0 <-> cell_at a i = 0.
Proof.
  intros Hi. rewrite ndi_label_cell.
  destruct (final_marks_ok (snd (shape a)) (buf a)) as [_ Hv].
  destruct (Hv i Hi) as [Hz _]. unfold cell_at.
  destruct (nth i (final_marks (snd (shape a)) (buf a)) O) eqn:E.
  - tauto.
  - split; [lia |]. intros Hb. apply Hz in Hb. discriminate.
Qed.

Lemma final_mark_is_root a i r :
  well_formed a -> (i < length (buf a))%nat ->
  nth i (final_marks (snd (shape a)) (buf a)) O = S r ->
  In r (roots (final_marks (snd (shape a)) (buf a))) /\ connected a i r.
Proof.
  intros Hwf Hi E.
  pose proof (final_marks_ok (snd (shape a)) (buf a)) as Hok.
  pose proof (well_formed_width a i Hwf Hi) as HW.
  destruct Hok as [Hlen Hv].
  pose proof (proj2 (Hv i Hi) r E) as Hj.
  split; [| exact Hj].
  apply roots_spec.
  destruct (joined_ends _ _ _ _ _ Hj) as [_ [Hr _]].
  split; [now rewrite Hlen |].
  rewrite <- E. symmetry.
  apply (fixed_joined_eq (snd (shape a)) (buf a)); auto.
  - split; assumption.
  - apply final_marks_fixed.
Qed.

Lemma ndi_label_range a i :
  well_formed a ->
  0 <= cell_at (fst (ndi_label a)) i <= Z.of_nat (snd (ndi_label a)).
Proof.
  intros Hwf. rewrite ndi_label_cell.
  destruct (Nat.lt_ge_cases i (length (buf a))) as [Hi | Hi].
  - destruct (nth i (final_marks (snd (shape a)) (buf a)) O) as [| r] eqn:E;
      [simpl; lia |].
    destruct (final_mark_is_root a i r Hwf Hi E) as [Hr _].
    apply index_of_lt in Hr. unfold ndi_label; simpl. lia.
  - rewrite nth_overflow; [lia |].
    destruct (final_marks_ok (snd (shape a)) (buf a)) as [-> _]. exact Hi.
Qed.

Lemma ndi_label_onto a k :
  well_formed a -> 1 <= k <= Z.of_nat (snd (ndi_label a)) ->
  exists i, (i < length (buf a))%nat /\ cell_at (fst (ndi_label a)) i = k.
Proof.
  intros Hwf Hk. unfold ndi_label in Hk; simpl in Hk.
  set (v := final_marks (snd (shape a)) (buf a)) in *.
  assert (Hlen : length v = length (buf a))
    by apply (final_marks_ok (snd (shape a))).
  set (r := nth (Z.to_nat (k - 1)) (roots v) O).
  assert (Hr : In r (roots v)) by (apply nth_In; lia).
  pose proof (proj1 (roots_spec v r) Hr) as [Hrn Hrv].
  exists r. split; [lia |].
  rewrite ndi_label_cell. fold v. rewrite Hrv.
  unfold r. rewrite index_of_nth; [lia | apply roots_NoDup | lia].
Qed.

Lemma ndi_label_connected a i j :
  well_formed a ->
  (i < length (buf a))%nat -> (j < length (buf a))%nat ->
  foreground a i -> foreground a j ->
  cell_at (fst (ndi_label a)) i = cell_at (fst (ndi_label a)) j <->
  connected a i j.
Proof.
  intros Hwf Hi Hj Hfi Hfj.
  pose proof (well_formed_width a i Hwf Hi) as HW.
  pose proof (final_marks_ok (snd (shape a)) (buf a)) as Hok.
  rewrite !ndi_label_cell. split.
  - intros E.
    destruct (nth i (final_marks (snd (shape a)) (buf a)) O) as [| ri] eqn:Ei.
    { exfalso. apply Hfi. apply (proj2 Hok i Hi). exact Ei. }
    destruct (nth j (final_marks (snd (shape a)) (buf a)) O) as [| rj] eqn:Ej.
    { exfalso. apply Hfj. apply (proj2 Hok j Hj). exact Ej. }
    destruct (final_mark_is_root a i ri Hwf Hi Ei) as [Hri Hci].
    destruct (final_mark_is_root a j rj Hwf Hj Ej) as [Hrj Hcj].
    assert (ri = rj) by (apply (index_of_inj _ _ _ Hri Hrj); lia).
    subst rj. unfold connected in *.
    apply joined_trans with ri; [exact Hci |].
    apply joined_sym; assumption.
  - intros Hc.
    rewrite (fixed_joined_eq (snd (shape a)) (buf a) _ i j HW Hok
               (final_marks_fixed _ _) Hc).
    reflexivity.
Qed.

(** ** The order of the identifiers *)

Lemma init_marks_le b i : (nth i (init_marks b) O <= S i)%nat.
Proof.
  destruct (Nat.lt_ge_cases i (length b)) as [Hi | Hi].
  - unfold init_marks. rewrite nth_map_seq by exact Hi.
    destruct (nth i b 0 =? 0); lia.
  - rewrite nth_overflow; [lia |].
    unfold init_marks. now rewrite length_map, length_seq.
Qed.

Lemma propagate_le W fuel v i : (nth i (propagate fuel W v) O <= nth i v O)%nat.
Proof.
  revert v. induction fuel as [| f IH]; intros v; simpl; [lia |].
  destruct (decide (sweep W v = v)); [lia |].
  etransitivity; [apply IH | apply sweep_le].
Qed.

(** The mark of a cell is the index of a cell at or before it. *)
Lemma final_marks_le W b i : (nth i (final_marks W b) O <= S i)%nat.
Proof.
  unfold final_marks. etransitivity; [apply propagate_le | apply init_marks_le].
Qed.

Lemma seq_sorted s n : StronglySorted lt (seq s n).
Proof.
  revert s. induction n as [| n IH]; intros s; simpl; constructor.
  - apply IH.
  - apply List.Forall_forall. intros y Hy. apply in_seq in Hy. lia.
Qed.

Lemma filter_sorted (f : nat -> bool) l :
  StronglySorted lt l -> StronglySorted lt (List.filter f l).
Proof.
  induction 1 as [| x l Hs IH Hx]; simpl; [constructor |].
  destruct (f x); [| exact IH].
  constructor; [exact IH |].
  apply List.Forall_forall. intros y Hy. apply filter_In in Hy.
  exact (proj1 (List.Forall_forall _ _) Hx y (proj1 Hy)).
Qed.

Lemma roots_sorted v : StronglySorted lt (roots v).
Proof. unfold roots. apply filter_sorted, seq_sorted. Qed.

Lemma sorted_nth l k1 k2 :
  StronglySorted lt l -> (k1 < k2)%nat -> (k2 < length l)%nat ->
  (nth k1 l O < nth k2 l O)%nat.
Proof.
  intros Hs. revert k1 k2.
  induction Hs as [| x l Hs IH Hx]; intros k1 k2 H12 H2; simpl in H2; [lia |].
  destruct k2 as [| k2]; [lia |]. destruct k1 as [| k1]; simpl.
  - apply (proj1 (List.Forall_forall _ _) Hx). apply nth_In. lia.
  - apply IH; lia.
Qed.

Lemma nth_index_of x l : In x l -> nth (index_of x l) l O = x.
Proof.
  induction l as [| y l IH]; simpl; [tauto |].
  intros Hx. destruct (Nat.eqb_spec x y) as [-> | Hne]; [reflexivity |].
  apply IH. destruct Hx; congruence.
Qed.

(** [ndi_label] numbers the objects in the raster order of their first
    cells. *)
Lemma ndi_label_raster_numbered a :
  well_formed a -> raster_numbered (fst (ndi_label a)).
Proof.
  intros Hwf i Hi Hk.
  pose proof (ndi_label_dims a) as [_ Hlen]. rewrite Hlen in Hi.
  rewrite ndi_label_cell in Hk. rewrite (ndi_label_cell a i).
  destruct (nth i (final_marks (snd (shape a)) (buf a)) O) as [| r] eqn:E; [lia |].
  destruct (final_mark_is_root a i r Hwf Hi E) as [Hr _].
  pose proof (final_marks_le (snd (shape a)) (buf a) i) as Hle. rewrite E in Hle.
  set (v := final_marks (snd (shape a)) (buf a)) in *.
  pose proof (index_of_lt _ _ Hr) as Hm.
  pose proof (nth_index_of _ _ Hr) as Hnth.
  set (m := index_of r (roots v)) in *.
  assert (Hm1 : (1 <= m)%nat) by lia.
  assert (Hr' : In (nth (m - 1) (roots v) O) (roots v)) by (apply nth_In; lia).
  pose proof (sorted_nth (roots v) (m - 1) m (roots_sorted v)
                ltac:(lia) Hm) as Hlt.
  rewrite Hnth in Hlt.
  exists (nth (m - 1) (roots v) O). split; [lia |].
  rewrite ndi_label_cell. fold v.
  rewrite (proj2 (proj1 (roots_spec v _) Hr')).
  rewrite index_of_nth; [lia | apply roots_NoDup | lia].
Qed.

Lemma raster_numbered_below lab j k :
  raster_numbered lab -> (j < length (buf lab))%nat ->
  1 <= k <= cell_at lab j ->
  exists j', (j' <= j)%nat /\ cell_at lab j' = k.
Proof.
  intros Hr. remember (Z.to_nat (cell_at lab j - k)) as d eqn:Hd.
  revert j Hd. induction d as [| d IH]; intros j Hd Hj Hk.
  - exists j. split; lia.
  - destruct (Hr j Hj) as (j1 & Hj1 & E); [lia |].
    destruct (IH j1) as (j' & Hj' & E'); [lia | lia | lia |].
    exists j'. split; [lia | exact E'].
Qed.

Lemma seen_before (lab : ndarray Z) (x : Z) m :
  (exists j, (j < m)%nat /\ cell_at lab j = x) \/
  (forall j, (j < m)%nat -> cell_at lab j <> x).
Proof.
  induction m as [| m [(j & Hj & E) | IH]].
  - right. intros j Hj. lia.
  - left. exists j. split; [lia | exact E].
  - destruct (Z.eq_dec (cell_at lab m) x) as [E | Hne].
    + left. exists m. split; [lia | exact E].
    + right. intros j Hj. destruct (Nat.eq_dec j m) as [-> | Hjm]; [exact Hne |].
      apply IH. lia.
Qed.

(** A cell that continues an object met before gets the identifier of
    that object in every numbering that agrees so far. *)
Lemma numbering_follows seg lab1 N1 lab2 N2 i j :
  numbers_objects seg lab1 N1 -> numbers_objects seg lab2 N2 ->
  (i < length (buf seg))%nat -> (j < i)%nat ->
  (forall k, (k < i)%nat -> cell_at lab1 k = cell_at lab2 k) ->
  cell_at seg i <> 0 -> cell_at lab1 j = cell_at lab1 i ->
  cell_at lab1 i = cell_at lab2 i.
Proof.
  intros (Z1 & _ & _ & C1) (Z2 & _ & _ & C2) Hi Hj Hsame Hfg E.
  assert (Hjn : (j < length (buf seg))%nat) by lia.
  assert (H1i : cell_at lab1 i <> 0) by (intros H; now apply Z1 in H).
  assert (H2i : cell_at lab2 i <> 0) by (intros H; now apply Z2 in H).
  assert (H1j : cell_at lab1 j <> 0) by congruence.
  assert (H2j : cell_at lab2 j <> 0) by (rewrite <- Hsame by exact Hj; exact H1j).
  pose proof (proj1 (C1 j i Hjn Hi H1j H1i) E) as Hc.
  pose proof (proj2 (C2 j i Hjn Hi H2j H2i) Hc) as E2.
  rewrite <- E, <- E2. now apply Hsame.
Qed.

(** The first cell of an object cannot get a smaller identifier in one
    raster numbering than in another that agrees so far. *)
Lemma numbering_first lab1 lab2 i :
  raster_numbered lab2 -> (i < length (buf lab2))%nat ->
  (forall k, (k < i)%nat -> cell_at lab1 k = cell_at lab2 k) ->
  (forall k, (k < i)%nat -> cell_at lab1 k <> cell_at lab1 i) ->
  1 <= cell_at lab1 i ->
  cell_at lab2 i <= cell_at lab1 i.
Proof.
  intros Hr Hi Hsame Hnew Hpos.
  destruct (Z_le_gt_dec (cell_at lab2 i) (cell_at lab1 i)) as [Hle | Hgt];
    [exact Hle | exfalso].
  destruct (Hr i Hi) as (j & Hj & E); [lia |].
  destruct (raster_numbered_below lab2 j (cell_at lab1 i) Hr) as (j' & Hj' & E');
    [lia | lia |].
  apply (Hnew j'); [lia |]. rewrite Hsame by lia. exact E'.
Qed.

(** Numbering the objects in raster order leaves no choice: two label
    images that number the objects of one segmentation in that order
    are equal cell by cell. *)
Lemma raster_numbering_unique seg lab1 N1 lab2 N2 :
  numbers_objects seg lab1 N1 -> numbers_objects seg lab2 N2 ->
  raster_numbered lab1 -> raster_numbered lab2 ->
  length (buf lab1) = length (buf seg) ->
  length (buf lab2) = length (buf seg) ->
  buf lab1 = buf lab2.
Proof.
  intros Hn1 Hn2 Hr1 Hr2 Hl1 Hl2.
  assert (Hcells : forall i, (i < length (buf seg))%nat ->
                     cell_at lab1 i = cell_at lab2 i).
  { intros i. induction i as [i IH] using lt_wf_ind. intros Hi.
    assert (Hsame : forall k, (k < i)%nat -> cell_at lab1 k = cell_at lab2 k)
      by (intros k Hk; apply IH; lia).
    assert (Hsame' : forall k, (k < i)%nat -> cell_at lab2 k = cell_at lab1 k)
      by (intros k Hk; symmetry; now apply Hsame).
    pose proof Hn1 as (Z1 & R1 & _). pose proof Hn2 as (Z2 & R2 & _).
    destruct (Z.eq_dec (cell_at seg i) 0) as [Hz | Hfg].
    - rewrite (proj2 (Z1 i Hi) Hz), (proj2 (Z2 i Hi) Hz). reflexivity.
    - assert (H1 : 1 <= cell_at lab1 i).
      { pose proof (R1 i). assert (cell_at lab1 i <> 0)
          by (intros H0; now apply Z1 in H0). lia. }
      assert (H2 : 1 <= cell_at lab2 i).
      { pose proof (R2 i). assert (cell_at lab2 i <> 0)
          by (intros H0; now apply Z2 in H0). lia. }
      destruct (seen_before lab1 (cell_at lab1 i) i) as [(j & Hj & E) | Hnew1].
      { exact (numbering_follows seg lab1 N1 lab2 N2 i j Hn1 Hn2 Hi Hj Hsame Hfg E). }
      destruct (seen_before lab2 (cell_at lab2 i) i) as [(j & Hj & E) | Hnew2].
      { symmetry.
        exact (numbering_follows seg lab2 N2 lab1 N1 i j Hn2 Hn1 Hi Hj Hsame' Hfg E). }
      pose proof (numbering_first lab1 lab2 i Hr2 ltac:(lia) Hsame Hnew1 H1).
      pose proof (numbering_first lab2 lab1 i Hr1 ltac:(lia) Hsame' Hnew2 H2).
      lia. }
  apply (nth_ext _ _ 0 0); [congruence |].
  intros i Hi. apply Hcells. lia.
Qed.

(** ** Order of binary64 values *)

Lemma SFleb_not_SFltb (a x : spec_float) :
  SFleb a x = true -> SFltb x a = false.
Proof.
  unfold SFleb, SFltb, SFcompare.
  destruct a as [sa | sa | | sa ma ea], x as [sx | sx | | sx mx ex];
    try destruct sa; try destruct sx; try discriminate; try reflexivity;
    intros H.
  all: change (Pos.compare_cont Eq) with Pos.compare in *.
  all: destruct (Z.compare_spec ea ex), (Z.compare_spec ex ea);
         try discriminate; try reflexivity; try lia.
  all: subst; destruct (Pos.compare_spec ma mx), (Pos.compare_spec mx ma);
         simpl in *; try discriminate; try reflexivity; try lia.
Qed.

Lemma SFltb_SFleb_trans (x a b : spec_float) :
  SFltb x a = true -> SFleb a b = true -> SFltb b x = false.
Proof.
  unfold SFleb, SFltb, SFcompare.
  destruct x as [sx | sx | | sx mx ex], a as [sa | sa | | sa ma ea],
           b as [sb | sb | | sb mb eb];
    try destruct sx; try destruct sa; try destruct sb;
    try discriminate; try reflexivity; intros H1 H2.
  all: change (Pos.compare_cont Eq) with Pos.compare in *.
  all: destruct (Z.compare_spec ex ea), (Z.compare_spec ea eb),
         (Z.compare_spec eb ex); try discriminate; try reflexivity; try lia.
  all: subst; destruct (Pos.compare_spec mx ma), (Pos.compare_spec ma mb),
         (Pos.compare_spec mb mx); simpl in *; try discriminate;
         try reflexivity; try lia.
Qed.

Lemma float_le_not_lt (a x : float) :
  PrimFloat.leb a x = true -> PrimFloat.ltb x a = false.
Proof. rewrite leb_spec, ltb_spec. apply SFleb_not_SFltb. Qed.

Lemma float_lt_le_not_gt (x a b : float) :
  PrimFloat.ltb x a = true -> PrimFloat.leb a b = true -> PrimFloat.ltb b x = false.
Proof. rewrite !ltb_spec, leb_spec. apply SFltb_SFleb_trans. Qed.

(** ** Cell-wise operations *)

Lemma zip_with_length {A B C : Type} (f : A -> B -> C) xs ys :
  length xs = length ys -> length (zip_with f xs ys) = length xs.
Proof.
  revert ys. induction xs as [| x xs IH]; intros [| y ys] E;
    simpl in *; try discriminate; [reflexivity |].
  f_equal. apply IH. lia.
Qed.

Lemma zip_with_nth {A B C : Type} (f : A -> B -> C) xs ys i da db dc :
  length xs = length ys -> f da db = dc ->
  nth i (zip_with f xs ys) dc = f (nth i xs da) (nth i ys db).
Proof.
  intros E Hd. revert ys i E. induction xs as [| x xs IH]; intros [| y ys] i E;
    simpl in *; try discriminate.
  - now destruct i.
  - destruct i; [reflexivity |]. apply IH. lia.
Qed.

Lemma map_nth_fixed {A : Type} (f : A -> A) l d i :
  f d = d -> nth i (map f l) d = f (nth i l d).
Proof.
  intros E. transitivity (nth i (map f l) (f d)); [now rewrite E | apply map_nth].
Qed.

Lemma np_map_dims {A B : Type} (f : A -> B) a : same_dims a (np_map f a).
Proof. unfold same_dims, np_map; simpl. now rewrite length_map. Qed.

Lemma same_dims_refl {A : Type} (a : ndarray A) : same_dims a a.
Proof. now split. Qed.

Lemma same_dims_trans {A B C : Type} (a : ndarray A) (b : ndarray B) (c : ndarray C) :
  same_dims a b -> same_dims b c -> same_dims a c.
Proof. unfold same_dims. intros [-> ->] [-> ->]. now split. Qed.

Lemma same_dims_well_formed {A B : Type} (a : ndarray A) (b : ndarray B) :
  same_dims a b -> well_formed a -> well_formed b.
Proof. unfold same_dims, well_formed. intros [-> ->]. tauto. Qed.

Lemma np_sub1_cell a i :
  (i < length (buf a))%nat -> cell_at (np_sub1 a) i = cell_at a i - 1.
Proof.
  intros Hi. unfold cell_at, np_sub1, np_map; simpl.
  rewrite (nth_indep _ 0 (0 - 1)) by (now rewrite length_map).
  apply (map_nth (fun z => z - 1)).
Qed.

Lemma np_mul_dims a b : same_dims a b -> same_dims a (np_mul a b).
Proof.
  intros [_ E]. unfold same_dims, np_mul; simpl. split; [reflexivity |].
  now apply zip_with_length.
Qed.

Lemma np_mul_cell a b i :
  same_dims a b -> cell_at (np_mul a b) i = cell_at a i * cell_at b i.
Proof.
  intros [_ E]. unfold cell_at, np_mul; simpl.
  now apply zip_with_nth.
Qed.

(** ** The classification image (lines 188-192) *)

Lemma threshed_buf d t0 t1 :
  np_mask_assign
    (np_mask_assign (np_zeros_like d) (np_lt d t0) 1%float) (np_gt d t1) 2%float
  = np_map (class_of t0 t1) d.
Proof.
  unfold np_mask_assign, np_zeros_like, np_lt, np_gt, np_map; simpl. f_equal.
  induction (buf d) as [| x l IH]; simpl; [reflexivity |].
  rewrite IH. unfold class_of. now destruct (PrimFloat.ltb t1 x), (PrimFloat.ltb x t0).
Qed.

Lemma class_of_classified d t0 t1 : classified (np_map (class_of t0 t1) d).
Proof.
  unfold classified; simpl. apply List.Forall_forall. intros y Hy.
  apply in_map_iff in Hy. destruct Hy as (x & <- & _). unfold class_of.
  destruct (PrimFloat.ltb t1 x), (PrimFloat.ltb x t0); auto.
Qed.

Lemma class_of_below t0 t1 x :
  PrimFloat.leb t0 t1 = true -> PrimFloat.ltb x t0 = true -> class_of t0 t1 x = 1%float.
Proof.
  intros H01 Hx. unfold class_of.
  now rewrite (float_lt_le_not_gt x t0 t1 Hx H01), Hx.
Qed.

Lemma class_of_above t0 t1 x :
  PrimFloat.ltb t1 x = true -> class_of t0 t1 x = 2%float.
Proof. intros Hx. unfold class_of. now rewrite Hx. Qed.

Lemma class_of_between t0 t1 x :
  PrimFloat.leb t0 x = true -> PrimFloat.leb x t1 = true ->
  class_of t0 t1 x = 0%float.
Proof.
  intros H0 H1. unfold class_of.
  now rewrite (float_le_not_lt x t1 H1), (float_le_not_lt t0 x H0).
Qed.

(** ** remove_small_objects *)

Lemma remove_small_objects_cell ar m kept i :
  remove_small_objects ar m = Ok kept ->
  cell_at kept i =
  if (m =? 0) || negb (bincount (buf ar) (cell_at ar i) <? m)
  then cell_at ar i else 0.
Proof.
  unfold remove_small_objects.
  destruct (m =? 0); [intros [= <-]; reflexivity |].
  destruct (existsb _ _); [discriminate |]. intros [= <-].
  unfold cell_at, np_map; simpl.
  rewrite map_nth_fixed by (now destruct (_ <? _)).
  now destruct (bincount (buf ar) (nth i (buf ar) 0) <? m).
Qed.

Lemma remove_small_objects_dims ar m kept :
  remove_small_objects ar m = Ok kept -> same_dims ar kept.
Proof.
  unfold remove_small_objects.
  destruct (m =? 0); [intros [= <-]; apply same_dims_refl |].
  destruct (existsb _ _); [discriminate |]. intros [= <-]. apply np_map_dims.
Qed.

(** A value is kept or dropped as a whole. *)
Lemma remove_small_objects_whole ar m kept i j :
  remove_small_objects ar m = Ok kept ->
  cell_at kept i <> 0 -> cell_at ar j = cell_at ar i ->
  cell_at kept j = cell_at ar i /\ cell_at kept i = cell_at ar i.
Proof.
  intros H Hi E.
  rewrite (remove_small_objects_cell _ _ _ j H), E.
  rewrite (remove_small_objects_cell _ _ _ i H) in Hi |- *.
  destruct ((m =? 0) || negb (bincount (buf ar) (cell_at ar i) <? m));
    [tauto | contradiction].
Qed.

(** ** The regions of a label image *)

Lemma fold_max_ge l x : In x l -> x <= fold_right Z.max 0 l.
Proof.
  induction l as [| y l IH]; simpl; [tauto |].
  intros [-> | Hx]; [lia | apply IH in Hx; lia].
Qed.

Lemma region_labels_spec a l :
  In l (region_labels a) <-> 0 < l /\ In l (buf a).
Proof.
  unfold region_labels. rewrite filter_In, in_map_iff, existsb_exists. split.
  - intros [(k & <- & Hk) (y & Hy & E)]. apply in_seq in Hk.
    apply Z.eqb_eq in E. subst y. split; [lia | exact Hy].
  - intros [Hl Hin]. split.
    + exists (Z.to_nat l). split; [lia |]. apply in_seq.
      pose proof (fold_max_ge _ _ Hin). lia.
    + exists l. split; [exact Hin | apply Z.eqb_refl].
Qed.

Lemma region_labels_NoDup a : List.NoDup (region_labels a).
Proof.
  unfold region_labels. apply List.NoDup_filter.
  apply Finite.Injective_map_NoDup; [| apply List.seq_NoDup].
  intros x y. apply Nat2Z.inj.
Qed.

Lemma map_result_ok {A B : Type} (f : A -> result B) (g : B -> A) l ys :
  (forall x y, f x = Ok y -> g y = x) ->
  map_result f l = Ok ys -> map g ys = l.
Proof.
  intros Hg. revert ys. induction l as [| x l IH]; intros ys; simpl.
  - now intros [= <-].
  - destruct (f x) as [y |] eqn:E; simpl; [| discriminate].
    destruct (map_result f l) as [ys' |]; simpl; [| discriminate].
    intros [= <-]. simpl. f_equal; [now apply Hg | now apply IH].
Qed.

Lemma regionprops_table_labels L a props t :
  regionprops_table L a props = Ok t -> map row_label t = region_labels a.
Proof.
  apply map_result_ok. intros l r.
  destruct (region_properties L props a l); simpl; [| discriminate].
  now intros [= <-].
Qed.

Lemma set_column_labels name c t :
  map row_label (set_column name c t) = map row_label t.
Proof. unfold set_column. rewrite map_map. reflexivity. Qed.

(** ** Labelling, size filter and product (lines 200-202)

    For a segmentation whose cells are 0 or 1: the product with the
    segmentation changes nothing, every surviving value is the label
    the cell had before filtering, and a surviving label still covers
    exactly one object. *)

Lemma binary_cell seg i : binary seg -> cell_at seg i = 0 \/ cell_at seg i = 1.
Proof.
  intros Hb. unfold cell_at.
  destruct (Nat.lt_ge_cases i (length (buf seg))) as [Hi | Hi].
  - exact (proj1 (List.Forall_forall _ _) Hb _ (nth_In _ _ Hi)).
  - left. now apply nth_overflow.
Qed.

Lemma cell_at_overflow a i : (length (buf a) <= i)%nat -> cell_at a i = 0.
Proof. intros Hi. unfold cell_at. now apply nth_overflow. Qed.

Lemma filtered_is_kept seg m kept i :
  binary seg ->
  remove_small_objects (fst (ndi_label seg)) m = Ok kept ->
  cell_at (np_mul kept seg) i = cell_at kept i.
Proof.
  intros Hb Hk.
  pose proof (ndi_label_dims seg) as Hd.
  pose proof (remove_small_objects_dims _ _ _ Hk) as Hd'.
  assert (Hks : same_dims kept seg).
  { destruct Hd as [E1 E2], Hd' as [E3 E4]. split; congruence. }
  rewrite np_mul_cell by exact Hks.
  destruct (binary_cell seg i Hb) as [E | E]; rewrite E; [| lia].
  rewrite (remove_small_objects_cell _ _ _ i Hk).
  assert (cell_at (fst (ndi_label seg)) i = 0) as ->.
  { destruct (Nat.lt_ge_cases i (length (buf seg))) as [Hi | Hi].
    - now apply ndi_label_zero.
    - apply cell_at_overflow. destruct Hd as [_ ->]. exact Hi. }
  destruct (_ || _); lia.
Qed.

Lemma filtered_dims seg m kept :
  remove_small_objects (fst (ndi_label seg)) m = Ok kept ->
  same_dims seg (np_mul kept seg).
Proof.
  intros Hk.
  pose proof (ndi_label_dims seg) as [E1 E2].
  pose proof (remove_small_objects_dims _ _ _ Hk) as [E3 E4].
  unfold same_dims, np_mul; simpl. split; [congruence |].
  rewrite zip_with_length; congruence.
Qed.

Lemma filtered_is_label seg m kept i :
  binary seg ->
  remove_small_objects (fst (ndi_label seg)) m = Ok kept ->
  cell_at (np_mul kept seg) i <> 0 ->
  cell_at (np_mul kept seg) i = cell_at (fst (ndi_label seg)) i.
Proof.
  intros Hb Hk. rewrite (filtered_is_kept seg m kept i Hb Hk).
  rewrite (remove_small_objects_cell _ _ _ i Hk).
  destruct (_ || _); [reflexivity | contradiction].
Qed.

Lemma filtered_nonneg seg m kept i :
  well_formed seg -> binary seg ->
  remove_small_objects (fst (ndi_label seg)) m = Ok kept ->
  0 <= cell_at (np_mul kept seg) i.
Proof.
  intros Hwf Hb Hk. rewrite (filtered_is_kept seg m kept i Hb Hk).
  rewrite (remove_small_objects_cell _ _ _ i Hk).
  pose proof (ndi_label_range seg i Hwf). destruct (_ || _); lia.
Qed.

Lemma filtered_foreground seg m kept i :
  binary seg ->
  remove_small_objects (fst (ndi_label seg)) m = Ok kept ->
  (i < length (buf seg))%nat ->
  cell_at (np_mul kept seg) i <> 0 -> foreground seg i.
Proof.
  intros Hb Hk Hi Hne Hz.
  apply (ndi_label_zero seg i Hi) in Hz.
  rewrite (filtered_is_label seg m kept i Hb Hk Hne) in Hne. contradiction.
Qed.

(** Cells of one label survive together. *)
Lemma filtered_same_label seg m kept i j :
  binary seg ->
  remove_small_objects (fst (ndi_label seg)) m = Ok kept ->
  cell_at (np_mul kept seg) i <> 0 ->
  cell_at (fst (ndi_label seg)) j = cell_at (fst (ndi_label seg)) i ->
  cell_at (np_mul kept seg) j = cell_at (np_mul kept seg) i.
Proof.
  intros Hb Hk Hne E.
  rewrite !(filtered_is_kept seg m kept _ Hb Hk) in *.
  destruct (remove_small_objects_whole _ _ _ i j Hk Hne E) as [-> ->].
  reflexivity.
Qed.

(** A chain all of whose cells are reached from [i] stays inside any
    set that holds every cell reached from [i]. *)
Lemma joined_within W n (P Q : nat -> Prop) i j :
  (forall k, joined W n P i k -> Q k) ->
  joined W n P i j -> joined W n Q i j.
Proof.
  intros HQ. induction 1 as [Hi HP | j k Hij IH Hk HPk].
  - apply joined_refl; [exact Hi |]. apply HQ. now apply joined_refl.
  - apply joined_step with j; [exact IH | exact Hk |].
    apply HQ. now apply joined_step with j.
Qed.

Lemma filtered_region seg m kept i j :
  well_formed seg -> binary seg ->
  remove_small_objects (fst (ndi_label seg)) m = Ok kept ->
  (i < length (buf seg))%nat -> (j < length (buf seg))%nat ->
  cell_at (np_mul kept seg) i <> 0 ->
  cell_at (np_mul kept seg) j = cell_at (np_mul kept seg) i ->
  same_region (np_mul kept seg) (cell_at (np_mul kept seg) i) i j.
Proof.
  intros Hwf Hb Hk Hi Hj Hne E.
  pose proof (filtered_dims seg m kept Hk) as [Hs Hl].
  assert (Hnej : cell_at (np_mul kept seg) j <> 0) by congruence.
  assert (Hc : connected seg i j).
  { apply ndi_label_connected; auto.
    - eapply filtered_foreground; eauto.
    - eapply filtered_foreground; eauto.
    - rewrite <- (filtered_is_label seg m kept i Hb Hk Hne).
      rewrite <- (filtered_is_label seg m kept j Hb Hk Hnej). congruence. }
  unfold same_region. rewrite Hs, Hl.
  apply joined_within with (P := foreground seg); [| exact Hc].
  intros k Hik.
  destruct (joined_ends _ _ _ _ _ Hik) as [_ [Hkn Hfk]].
  apply (filtered_same_label seg m kept i k Hb Hk Hne).
  symmetry. apply ndi_label_connected; auto.
  eapply filtered_foreground; eauto.
Qed.

Lemma filtered_connected seg m kept i j :
  well_formed seg -> binary seg ->
  remove_small_objects (fst (ndi_label seg)) m = Ok kept ->
  (i < length (buf seg))%nat -> (j < length (buf seg))%nat ->
  cell_at (np_mul kept seg) i <> 0 -> cell_at (np_mul kept seg) j <> 0 ->
  cell_at (np_mul kept seg) i = cell_at (np_mul kept seg) j <->
  connected (np_mul kept seg) i j.
Proof.
  intros Hwf Hb Hk Hi Hj Hni Hnj.
  pose proof (filtered_dims seg m kept Hk) as [Hs Hl].
  split.
  - intros E.
    pose proof (filtered_region seg m kept i j Hwf Hb Hk Hi Hj Hni (eq_sym E)) as Hr.
    unfold connected. unfold same_region in Hr.
    eapply joined_weaken; [| exact Hr].
    intros k Ek. unfold foreground. congruence.
  - intros Hc. unfold connected in Hc. rewrite Hs, Hl in Hc.
    rewrite (filtered_is_label seg m kept i Hb Hk Hni).
    rewrite (filtered_is_label seg m kept j Hb Hk Hnj).
    apply ndi_label_connected; auto.
    + eapply filtered_foreground; eauto.
    + eapply filtered_foreground; eauto.
    + unfold connected. eapply joined_within; [| exact Hc].
      intros k Hik. destruct (joined_ends _ _ _ _ _ Hik) as [_ [Hkn Hfk]].
      eapply filtered_foreground; eauto.
Qed.

(** * Paths and files *)

(** ** Strings and paths *)

Lemma append_nil_l s : "" +:+ s = s.
Proof. reflexivity. Qed.

Lemma append_cons c s t : String c s +:+ t = String c (s +:+ t).
Proof. reflexivity. Qed.

Lemma append_assoc s t u : (s +:+ t) +:+ u = s +:+ (t +:+ u).
Proof.
  induction s as [| c s IH]; [reflexivity |].
  rewrite !append_cons. now rewrite IH.
Qed.

Lemma length_append s t :
  String.length (s +:+ t) = (String.length s + String.length t)%nat.
Proof.
  induction s as [| c s IH]; [reflexivity |].
  rewrite append_cons. simpl. now rewrite IH.
Qed.

(** Two strings with endings of one length are equal only if the
    endings are. *)
Lemma append_same_ending x y s t :
  String.length s = String.length t -> x +:+ s = y +:+ t -> x = y /\ s = t.
Proof.
  intros Hl E.
  assert (Hxy : String.length x = String.length y).
  { pose proof (f_equal String.length E) as El.
    rewrite !length_append in El. lia. }
  clear Hl. revert y E Hxy.
  induction x as [| c x IH]; intros [| d y] E Hxy; try discriminate.
  - now split.
  - rewrite !append_cons in E. injection E as -> E. injection Hxy as Hxy.
    destruct (IH y E Hxy) as [-> ->]. now split.
Qed.


(** [os.path.join(a, b)] ends as [b] does. *)
Lemma os_path_join_ends a b t :
  exists x, os_path_join a (b +:+ t) = x +:+ t.
Proof.
  unfold os_path_join.
  destruct (String.prefix "/" (b +:+ t)); [now exists b |].
  destruct (_ || _).
  - exists (a +:+ b). now rewrite append_assoc.
  - exists (a +:+ "/" +:+ b). now rewrite !append_assoc.
Qed.




(** No image of the loop is written where the table goes. *)
Lemma tiff_path_not_table a b out_dir sfx :
  In sfx ["_thresholded.tiff"; "_ridges_thresholded.tiff";
          "_meijering_filter.tiff"; "_contrast_adjusted.tiff";
          "_fiber_labels.tiff"] ->
  os_path_join a (b +:+ sfx) <> os_path_join out_dir "fiber_object_table.csv".
Proof.
  intros Hs E.
  change "fiber_object_table.csv"
    with ("fiber_object_tabl" +:+ "e.csv") in E.
  destruct (os_path_join_ends out_dir "fiber_object_tabl" "e.csv") as [y Hy].
  rewrite Hy in E. clear Hy.
  assert (Hx : exists x, os_path_join a (b +:+ sfx) = x +:+ ".tiff").
  { simpl in Hs. destruct Hs as [<- | [<- | [<- | [<- | [<- | []]]]]].
    - change "_thresholded.tiff" with ("_thresholded" +:+ ".tiff").
      rewrite <- (append_assoc b). apply os_path_join_ends.
    - change "_ridges_thresholded.tiff" with ("_ridges_thresholded" +:+ ".tiff").
      rewrite <- (append_assoc b). apply os_path_join_ends.
    - change "_meijering_filter.tiff" with ("_meijering_filter" +:+ ".tiff").
      rewrite <- (append_assoc b). apply os_path_join_ends.
    - change "_contrast_adjusted.tiff" with ("_contrast_adjusted" +:+ ".tiff").
      rewrite <- (append_assoc b). apply os_path_join_ends.
    - change "_fiber_labels.tiff" with ("_fiber_labels" +:+ ".tiff").
      rewrite <- (append_assoc b). apply os_path_join_ends. }
  destruct Hx as [x Hx]. rewrite Hx in E.
  now apply append_same_ending in E as [_ [=]].
Qed.


(** ** Directory names *)

Lemma has_sep_app x y : has_sep (x +:+ y) = has_sep x || has_sep y.
Proof.
  induction x as [| c x IH]; [reflexivity |].
  rewrite append_cons. cbn [has_sep]. rewrite IH. apply orb_assoc.
Qed.

Lemma upto_last_sep_app x b :
  has_sep b = false -> upto_last_sep (x +:+ b) = upto_last_sep x.
Proof.
  intros Hb. induction x as [| c x IH].
  - rewrite append_nil_l. destruct b as [| d b]; [reflexivity |].
    cbn [upto_last_sep]. cbn [has_sep] in Hb. now rewrite Hb.
  - rewrite append_cons. cbn [upto_last_sep].
    now rewrite has_sep_app, Hb, orb_false_r, IH.
Qed.

(** A name without separator added to a path does not change the
    directory. *)
Lemma dirname_app x b :
  has_sep b = false -> os_path_dirname (x +:+ b) = os_path_dirname x.
Proof. intros Hb. unfold os_path_dirname. now rewrite upto_last_sep_app. Qed.

Lemma basename_app x b :
  has_sep b = false -> os_path_basename (x +:+ b) = os_path_basename x +:+ b.
Proof.
  intros Hb. induction x as [| c x IH].
  - rewrite !append_nil_l. destruct b as [| d b]; [reflexivity |].
    cbn [os_path_basename]. cbn [has_sep] in Hb. now rewrite Hb.
  - rewrite append_cons. cbn [os_path_basename].
    rewrite has_sep_app, Hb, orb_false_r.
    destruct (Ascii.eqb c "/" || has_sep x); [exact IH | reflexivity].
Qed.

Lemma upto_last_sep_dir a : upto_last_sep (a +:+ "/") = a +:+ "/".
Proof.
  induction a as [| c a IH]; [reflexivity |].
  rewrite append_cons. cbn [upto_last_sep]. rewrite has_sep_app.
  change (has_sep "/") with true. now rewrite !orb_true_r, IH.
Qed.

Lemma all_sep_dir a :
  a <> EmptyString -> ends_with_sep a = false -> all_sep (a +:+ "/") = false.
Proof.
  induction a as [| c a IH]; [congruence |]. intros _ He.
  rewrite append_cons. cbn [all_sep].
  destruct a as [| d a].
  - cbn [ends_with_sep] in He. now rewrite He.
  - rewrite IH; [apply andb_false_r | discriminate | exact He].
Qed.

Lemma rstrip_sep_dir a : ends_with_sep a = false -> rstrip_sep (a +:+ "/") = a.
Proof.
  induction a as [| c a IH]; intros He; [reflexivity |].
  rewrite append_cons. cbn [rstrip_sep].
  destruct a as [| d a].
  - cbn [ends_with_sep] in He. now rewrite He.
  - rewrite (all_sep_dir (String d a)), andb_false_r, IH;
      [reflexivity | exact He | discriminate | exact He].
Qed.

Lemma dirname_dir a :
  a <> EmptyString -> ends_with_sep a = false -> os_path_dirname (a +:+ "/") = a.
Proof.
  intros Hne He. unfold os_path_dirname.
  rewrite upto_last_sep_dir, all_sep_dir by assumption.
  now apply rstrip_sep_dir.
Qed.

Lemma prefix_sep_has_sep b : has_sep b = false -> String.prefix "/" b = false.
Proof.
  destruct b as [| c b]; [reflexivity |]. cbn [has_sep].
  intros H. apply orb_false_iff in H as [H _].
  change (String.prefix "/" (String c b))
    with (if ascii_dec "/" c then String.prefix "" b else false).
  destruct (ascii_dec "/" c) as [<- | _]; [| reflexivity].
  now rewrite Ascii.eqb_refl in H.
Qed.

(** A name without separator, joined to a directory written without a
    trailing separator, lies in that directory. *)
Lemma dirname_join a b :
  ends_with_sep a = false -> has_sep b = false ->
  os_path_dirname (os_path_join a b) = a.
Proof.
  intros Ha Hb. unfold os_path_join.
  rewrite (prefix_sep_has_sep b Hb), Ha, orb_false_r.
  destruct (String.eqb_spec a "") as [-> | Hne].
  - exact (dirname_app "" b Hb).
  - rewrite <- append_assoc, dirname_app by exact Hb. now apply dirname_dir.
Qed.

(** Two names without separator, joined to one directory, lie in one
    directory. *)
Lemma dirname_join_same a b1 b2 :
  has_sep b1 = false -> has_sep b2 = false ->
  os_path_dirname (os_path_join a b1) = os_path_dirname (os_path_join a b2).
Proof.
  intros H1 H2. unfold os_path_join.
  rewrite (prefix_sep_has_sep b1 H1), (prefix_sep_has_sep b2 H2).
  destruct (_ || _).
  - now rewrite (dirname_app a b1 H1), (dirname_app a b2 H2).
  - rewrite <- (append_assoc a "/" b1), <- (append_assoc a "/" b2).
    now rewrite (dirname_app _ b1 H1), (dirname_app _ b2 H2).
Qed.

Lemma append_nonempty x b : b <> EmptyString -> x +:+ b <> EmptyString.
Proof.
  intros Hb E. apply (f_equal String.length) in E.
  rewrite length_append in E. destruct b; [congruence | simpl in E; lia].
Qed.

Lemma os_path_join_nonempty a b : b <> EmptyString -> os_path_join a b <> EmptyString.
Proof.
  intros Hb. unfold os_path_join.
  destruct (String.prefix "/" b); [exact Hb |].
  destruct (_ || _); [now apply append_nonempty |].
  apply append_nonempty. now apply append_nonempty.
Qed.

Lemma ends_with_sep_app x b :
  b <> EmptyString -> ends_with_sep (x +:+ b) = ends_with_sep b.
Proof.
  intros Hb. induction x as [| c x IH]; [reflexivity |].
  rewrite append_cons. pose proof (append_nonempty x b Hb) as Hne.
  destruct (x +:+ b) as [| d t] eqn:E; [congruence |]. exact IH.
Qed.

(** The path of the debug directory does not end in a separator, has
    a last component, and is none of the files of a run. *)
Lemma debug_path_plain out_dir :
  ends_with_sep (os_path_join out_dir "_debug") = false.
Proof.
  destruct (os_path_join_ends out_dir "_debu" "g") as [x Hx].
  change ("_debu" +:+ "g") with "_debug" in Hx. rewrite Hx.
  now rewrite ends_with_sep_app.
Qed.

Lemma debug_path_basename out_dir :
  os_path_basename (os_path_join out_dir "_debug") <> EmptyString.
Proof.
  destruct (os_path_join_ends out_dir "" "_debug") as [x Hx].
  rewrite append_nil_l in Hx. rewrite Hx, basename_app by reflexivity.
  now apply append_nonempty.
Qed.

Lemma debug_path_not_file out_dir a b sfx :
  In sfx ["_thresholded.tiff"; "_ridges_thresholded.tiff";
          "_meijering_filter.tiff"; "_contrast_adjusted.tiff";
          "_fiber_labels.tiff"; "fiber_object_table.csv"] ->
  os_path_join a (b +:+ sfx) <> os_path_join out_dir "_debug".
Proof.
  intros Hs E.
  destruct (os_path_join_ends out_dir "_debu" "g") as [y Hy].
  change ("_debu" +:+ "g") with "_debug" in Hy. rewrite Hy in E. clear Hy.
  assert (Hx : exists x c, os_path_join a (b +:+ sfx) = x +:+ String c ""
                           /\ c <> "g"%char).
  { simpl in Hs. destruct Hs as [<- | [<- | [<- | [<- | [<- | [<- | []]]]]]].
    - destruct (os_path_join_ends a (b +:+ "_thresholded.tif") "f") as [x Hx].
      rewrite append_assoc in Hx. exists x, "f"%char. split; [exact Hx | discriminate].
    - destruct (os_path_join_ends a (b +:+ "_ridges_thresholded.tif") "f") as [x Hx].
      rewrite append_assoc in Hx. exists x, "f"%char. split; [exact Hx | discriminate].
    - destruct (os_path_join_ends a (b +:+ "_meijering_filter.tif") "f") as [x Hx].
      rewrite append_assoc in Hx. exists x, "f"%char. split; [exact Hx | discriminate].
    - destruct (os_path_join_ends a (b +:+ "_contrast_adjusted.tif") "f") as [x Hx].
      rewrite append_assoc in Hx. exists x, "f"%char. split; [exact Hx | discriminate].
    - destruct (os_path_join_ends a (b +:+ "_fiber_labels.tif") "f") as [x Hx].
      rewrite append_assoc in Hx. exists x, "f"%char. split; [exact Hx | discriminate].
    - destruct (os_path_join_ends a (b +:+ "fiber_object_table.cs") "v") as [x Hx].
      rewrite append_assoc in Hx. exists x, "v"%char. split; [exact Hx | discriminate]. }
  destruct Hx as (x & c & Hx & Hc). rewrite Hx in E.
  apply append_same_ending in E as [_ [=]]; [congruence | reflexivity].
Qed.

(** ** Looking up a directory, making one, writing a file *)

Lemma dir_error_None fuel fs d :
  dir_error fuel fs d = None <-> d = EmptyString \/ d ∈ dirs fs.
Proof.
  destruct d as [| c d]; [destruct fuel; simpl; tauto |].
  assert (Hne : String c d <> EmptyString) by discriminate.
  destruct fuel as [| n]; cbn [dir_error]; case_bool_decide as Hd;
    try tauto; case_bool_decide; try (split; [discriminate | tauto]).
  destruct (dir_error n fs (os_path_dirname (String c d))) as [[] |];
    (split; [discriminate | tauto]).
Qed.

Lemma entry_error_None fs p :
  entry_error fs p = None <->
  p <> EmptyString /\
  (os_path_dirname p = EmptyString \/ os_path_dirname p ∈ dirs fs).
Proof.
  destruct p as [| c p]; unfold entry_error.
  - split; [discriminate | intros [H _]; congruence].
  - rewrite dir_error_None. split; [intros H; split; [discriminate | exact H] | tauto].
Qed.

Lemma write_error_None fs p : write_error fs p = None <-> writable (dirs fs) p.
Proof.
  unfold write_error, writable, is_dir.
  pose proof (entry_error_None fs p) as He.
  destruct (entry_error fs p) as [e |].
  - split; [discriminate |]. intros (H1 & H2 & _).
    pose proof (proj2 He (conj H1 H2)). discriminate.
  - destruct (proj1 He eq_refl) as [H1 H2].
    case_bool_decide; split; try discriminate; tauto.
Qed.

(** Whether a file can be written depends on the directories only. *)
Lemma write_file_run p a fs :
  writable (dirs fs) p ->
  write_file p a fs = (FS (dirs fs) (<[ p := a ]> (files fs)), Ok tt).
Proof.
  intros H. apply write_error_None in H. unfold write_file. now rewrite H.
Qed.

Lemma write_file_cases p a fs :
  (writable (dirs fs) p /\
   write_file p a fs = (FS (dirs fs) (<[ p := a ]> (files fs)), Ok tt)) \/
  (~ writable (dirs fs) p /\ exists e, write_file p a fs = (fs, Raise e)).
Proof.
  unfold write_file. pose proof (write_error_None fs p) as H.
  destruct (write_error fs p) as [e |].
  - right. split; [| eauto]. intros Hw. apply H in Hw. discriminate.
  - left. split; [now apply H | reflexivity].
Qed.

Lemma apply_writes_cons w ws m :
  apply_writes (w :: ws) m = apply_writes ws (<[ fst w := snd w ]> m).
Proof. reflexivity. Qed.

(** A list of writes either goes through, and then every path was
    writable, or stops at a path that is not. *)
Lemma write_all_cases ws fs :
  (Forall (fun w => writable (dirs fs) (fst w)) ws /\
   write_all ws fs = (FS (dirs fs) (apply_writes ws (files fs)), Ok tt)) \/
  (~ Forall (fun w => writable (dirs fs) (fst w)) ws /\
   exists e fs', write_all ws fs = (fs', Raise e) /\ dirs fs' = dirs fs).
Proof.
  revert fs. induction ws as [| w ws IH]; intros fs.
  - left. split; [constructor |]. now destruct fs.
  - cbn [write_all]. unfold io_bind.
    destruct (write_file_cases (fst w) (snd w) fs) as [[Hw ->] | [Hw (e & ->)]].
    + destruct (IH (FS (dirs fs) (<[ fst w := snd w ]> (files fs))))
        as [[Hall ->] | [Hall (e & fs' & -> & Hd)]]; simpl in *.
      * left. split; [now constructor | reflexivity].
      * right. split; [| eauto]. intros H. apply Hall. now inversion H.
    + right. split; [| eauto]. intros H. apply Hw. now inversion H.
Qed.

Lemma write_all_run ws fs :
  Forall (fun w => writable (dirs fs) (fst w)) ws ->
  write_all ws fs = (FS (dirs fs) (apply_writes ws (files fs)), Ok tt).
Proof.
  intros H. destruct (write_all_cases ws fs) as [[_ E] | [Hn _]];
    [exact E | contradiction].
Qed.

Lemma write_all_ok ws fs fs' u :
  write_all ws fs = (fs', Ok u) ->
  Forall (fun w => writable (dirs fs) (fst w)) ws /\
  fs' = FS (dirs fs) (apply_writes ws (files fs)).
Proof.
  intros H. destruct (write_all_cases ws fs) as [[Hall E] | [_ (e & fs2 & E & _)]];
    rewrite E in H; [| discriminate].
  injection H as <- _. now split.
Qed.

Lemma write_all_dirs ws fs : dirs (fst (write_all ws fs)) = dirs fs.
Proof.
  destruct (write_all_cases ws fs) as [[_ ->] | [_ (e & fs' & -> & Hd)]];
    [reflexivity | exact Hd].
Qed.

Lemma write_all_other ws fs q :
  ~ In q (map fst ws) ->
  files (fst (write_all ws fs)) !! q = files fs !! q.
Proof.
  revert fs. induction ws as [| w ws IH]; intros fs Hq; [reflexivity |].
  cbn [write_all]. unfold io_bind.
  destruct (write_file_cases (fst w) (snd w) fs) as [[_ ->] | [_ (e & ->)]];
    [| reflexivity].
  rewrite IH by (intros H; apply Hq; now right). simpl.
  apply lookup_insert_ne. intros E. apply Hq. now left.
Qed.

Lemma write_all_keeps ws fs q :
  is_Some (files fs !! q) -> is_Some (files (fst (write_all ws fs)) !! q).
Proof.
  revert fs. induction ws as [| w ws IH]; intros fs Hq; [exact Hq |].
  cbn [write_all]. unfold io_bind.
  destruct (write_file_cases (fst w) (snd w) fs) as [[_ ->] | [_ (e & ->)]];
    [| exact Hq].
  apply IH. simpl. destruct (decide (fst w = q)) as [-> | Hne].
  - rewrite lookup_insert_eq. eauto.
  - now rewrite lookup_insert_ne.
Qed.

Lemma write_all_app ws1 ws2 fs :
  write_all (ws1 ++ ws2) fs =
  match write_all ws1 fs with
  | (fs1, Ok _) => write_all ws2 fs1
  | (fs1, Raise e) => (fs1, Raise e)
  end.
Proof.
  revert fs. induction ws1 as [| w ws1 IH]; intros fs; [reflexivity |].
  simpl app. cbn [write_all]. unfold io_bind.
  destruct (write_file (fst w) (snd w) fs) as [fs1 [[] | e]]; [apply IH | reflexivity].
Qed.

Lemma os_mkdir_files p fs : files (fst (os_mkdir p fs)) = files fs.
Proof.
  unfold os_mkdir. destruct (entry_error fs p); [reflexivity |].
  now destruct (os_path_exists fs p).
Qed.

Lemma os_mkdir_new p fs :
  p <> EmptyString ->
  os_path_dirname p = EmptyString \/ os_path_dirname p ∈ dirs fs ->
  os_path_exists fs p = false ->
  os_mkdir p fs = (FS ({[ p ]} ∪ dirs fs) (files fs), Ok tt).
Proof.
  intros Hp Hd He. unfold os_mkdir.
  rewrite (proj2 (entry_error_None fs p) (conj Hp Hd)). now rewrite He.
Qed.

Lemma os_mkdir_exists p fs :
  p <> EmptyString ->
  os_path_dirname p = EmptyString \/ os_path_dirname p ∈ dirs fs ->
  os_path_exists fs p = true ->
  os_mkdir p fs = (fs, Raise FileExistsError).
Proof.
  intros Hp Hd He. unfold os_mkdir.
  rewrite (proj2 (entry_error_None fs p) (conj Hp Hd)). now rewrite He.
Qed.

(** However [os.makedirs] ends, it leaves the files alone. *)
Lemma makedirs_from_files fuel p fs :
  files (fst (makedirs_from fuel p fs)) = files fs.
Proof.
  revert p fs. induction fuel as [| n IH]; intros p fs; cbn [makedirs_from].
  - destruct (os_path_basename p);
      destruct (_ && _); apply os_mkdir_files.
  - destruct (os_path_basename p) as [| c t].
    + destruct (_ && _); [| apply os_mkdir_files].
      pose proof (IH (os_path_dirname (os_path_dirname p)) fs) as Hh.
      destruct (makedirs_from n _ fs) as [fs1 [[] | e]]; simpl in Hh.
      * destruct (String.eqb _ "."); [exact Hh |].
        now rewrite os_mkdir_files.
      * destruct e; try exact Hh.
        destruct (String.eqb _ "."); [exact Hh |].
        now rewrite os_mkdir_files.
    + destruct (_ && _); [| apply os_mkdir_files].
      pose proof (IH (os_path_dirname p) fs) as Hh.
      destruct (makedirs_from n _ fs) as [fs1 [[] | e]]; simpl in Hh.
      * destruct (String.eqb _ "."); [exact Hh |].
        now rewrite os_mkdir_files.
      * destruct e; try exact Hh.
        destruct (String.eqb _ "."); [exact Hh |].
        now rewrite os_mkdir_files.
Qed.

Lemma os_makedirs_files p fs : files (fst (os_makedirs p fs)) = files fs.
Proof. apply makedirs_from_files. Qed.

(** With a last component and a directory that is there,
    [os.makedirs] is [os.mkdir]. *)
Lemma os_makedirs_plain p fs :
  os_path_basename p <> EmptyString ->
  os_path_dirname p = EmptyString \/ os_path_exists fs (os_path_dirname p) = true ->
  os_makedirs p fs = os_mkdir p fs.
Proof.
  intros Hb Hd. unfold os_makedirs.
  destruct (String.length p); cbn [makedirs_from];
    destruct (os_path_basename p) as [| c t]; try congruence;
    destruct Hd as [-> | ->]; try reflexivity;
    now rewrite andb_false_r.
Qed.

Lemma is_dir_exists fs p : is_dir fs p = true -> os_path_exists fs p = true.
Proof. unfold is_dir, os_path_exists. now intros ->. Qed.

Lemma is_dir_elem fs p : is_dir fs p = true <-> p ∈ dirs fs.
Proof. apply bool_decide_eq_true. Qed.

(** [os.makedirs] on the debug path of an output directory. *)
Lemma makedirs_debug_new out_dir fs :
  os_path_dirname (os_path_join out_dir "_debug") = EmptyString \/
  os_path_dirname (os_path_join out_dir "_debug") ∈ dirs fs ->
  os_path_exists fs (os_path_join out_dir "_debug") = false ->
  os_makedirs (os_path_join out_dir "_debug") fs
  = (FS ({[ os_path_join out_dir "_debug" ]} ∪ dirs fs) (files fs), Ok tt).
Proof.
  intros Hd He. rewrite os_makedirs_plain.
  - apply os_mkdir_new; [now apply os_path_join_nonempty | exact Hd | exact He].
  - apply debug_path_basename.
  - destruct Hd as [Hd | Hd]; [now left | right].
    apply is_dir_exists. now apply is_dir_elem.
Qed.

Lemma makedirs_debug_exists out_dir fs :
  os_path_dirname (os_path_join out_dir "_debug") = EmptyString \/
  os_path_dirname (os_path_join out_dir "_debug") ∈ dirs fs ->
  os_path_exists fs (os_path_join out_dir "_debug") = true ->
  os_makedirs (os_path_join out_dir "_debug") fs = (fs, Raise FileExistsError).
Proof.
  intros Hd He. rewrite os_makedirs_plain.
  - apply os_mkdir_exists; [now apply os_path_join_nonempty | exact Hd | exact He].
  - apply debug_path_basename.
  - destruct Hd as [Hd | Hd]; [now left | right].
    apply is_dir_exists. now apply is_dir_elem.
Qed.

(** * Inversion and unfolding *)

Lemma bind_inv {A B : Type} (m : result A) (k : A -> result B) b :
  bind m k = Ok b -> exists a, m = Ok a /\ k a = Ok b.
Proof. destruct m as [a |]; simpl; [eauto | discriminate]. Qed.

Ltac bind_ok H :=
  let x := fresh "x" in
  let E := fresh "E" in
  cbv beta zeta in H; apply bind_inv in H; destruct H as (x & E & H).

(** [segment_fibers], outcome by outcome. *)
Lemma segment_fibers_eq L cfg data ch out_dir p props debug fs :
  segment_fibers L cfg data ch out_dir p props debug fs =
  match loc_channel data ch with
  | Raise e => (fs, Raise e)
  | Ok c =>
    if os_path_exists fs out_dir then
      match (if debug then os_makedirs (os_path_join out_dir "_debug")
             else io_ret tt) fs with
      | (fs1, Raise e) => (fs1, Raise e)
      | (fs1, Ok _) =>
        match fov_loop L cfg p c (snd (fst (ch_shape c))) out_dir props debug
                       (os_path_join out_dir "_debug") (ch_fovs c) ∅ [] fs1 with
        | (fs2, Raise e) => (fs2, Raise e)
        | (fs2, Ok acc) =>
          match pd_concat (snd acc) with
          | Raise e => (fs2, Raise e)
          | Ok t =>
            match write_file (os_path_join out_dir "fiber_object_table.csv")
                             (CsvTable t) fs2 with
            | (fs3, Raise e) => (fs3, Raise e)
            | (fs3, Ok _) => (fs3, Ok (t, fst acc))
            end
          end
        end
      end
    else (fs, Raise FileNotFoundError)
  end.
Proof.
  unfold segment_fibers. unfold io_bind at 1, io_lift at 1.
  destruct (loc_channel data ch) as [c | e]; [| reflexivity].
  unfold io_bind at 1, io_read.
  destruct (os_path_exists fs out_dir); [| reflexivity].
  cbv beta iota. change (negb true) with false. cbv beta iota.
  unfold io_bind at 1.
  destruct ((if debug then os_makedirs (os_path_join out_dir "_debug")
             else io_ret tt) fs) as [fs1 [[] | e]]; [| reflexivity].
  unfold io_bind at 1.
  destruct (fov_loop _ _ _ _ _ _ _ _ _ _ _ _ fs1) as [fs2 [acc | e]];
    [| reflexivity].
  unfold io_bind, io_lift, io_ret.
  destruct (pd_concat (snd acc)); [| reflexivity].
  destruct (write_file _ _ fs2) as [fs3 [[] | e]]; reflexivity.
Qed.

(** * The loop body

    From here on [L] is the image library the functions are run with,
    and it meets [imglib_ok]. *)

Section Pipeline.

Variable L : imglib.
Hypothesis HL : imglib_ok L.

(** What a successful pass computed, call by call. *)
Lemma segment_fov_inv p c n fov s :
  segment_fov L p c n fov = Ok s ->
  exists top k edt t0 t1 smoothed flooded kept,
    loc_fov c fov = Ok (fiber_channel_data s) /\
    gaussian_filter L (fiber_channel_data s) (blur p) = Ok (blurred s) /\
    np_max (blurred s) = Ok top /\
    py_truediv n (contrast_scaling_divisor p) = Ok k /\
    equalize_adapthist L (np_true_divide (blurred s) top) k
      = Ok (contrast_adjusted s) /\
    meijering L (contrast_adjusted s) (fiber_widths p) false = Ok (ridges s) /\
    distance_transform_edt L (np_gt (ridges s) (ridge_cutoff p)) = Ok edt /\
    gaussian_filter L edt 1%float = Ok (distance_transformed s) /\
    threshold_multiotsu L (distance_transformed s) 3 = Ok (thresholds s) /\
    getitem (thresholds s) 0 = Ok t0 /\
    getitem (thresholds s) 1 = Ok t1 /\
    threshed s = np_map (class_of t0 t1) (distance_transformed s) /\
    gaussian_filter L (distance_transformed s) (sobel_blur p) = Ok smoothed /\
    sobel L smoothed = Ok (elevation_map s) /\
    watershed L (elevation_map s) (threshed s) = Ok flooded /\
    segmentation s = np_sub1 flooded /\
    labeled s = fst (ndi_label (segmentation s)) /\
    remove_small_objects (labeled s) (min_fiber_size p) = Ok kept /\
    labeled_filtered s = np_mul kept (segmentation s).
Proof.
  unfold segment_fov. intros H.
  do 15 bind_ok H. cbv beta zeta in H. injection H as <-. simpl.
  rewrite threshed_buf in *.
  do 8 eexists. repeat (split; [eassumption || reflexivity |]). reflexivity.
Qed.

Lemma segment_fov_dims p c n fov s :
  segment_fov L p c n fov = Ok s -> dims_preserved s.
Proof using HL.
  intros H.
  destruct (segment_fov_inv _ _ _ _ _ H)
    as (top & k & edt & t0 & t1 & smoothed & flooded & kept & H1 & H2 & H3 & H4
        & H5 & H6 & H7 & H8 & H9 & H10 & H11 & H12 & H13 & H14 & H15 & H16
        & H17 & H18 & H19).
  pose proof (gaussian_filter_dims L HL _ _ _ H2) as D1.
  pose proof (same_dims_trans _ _ _ D1
                (same_dims_trans _ _ _ (np_map_dims _ _)
                   (equalize_adapthist_dims L HL _ _ _ H5))) as D2.
  pose proof (same_dims_trans _ _ _ D2 (meijering_dims L HL _ _ _ _ H6)) as D3.
  pose proof (same_dims_trans _ _ _ D3
                (same_dims_trans _ _ _ (np_map_dims _ _)
                   (same_dims_trans _ _ _
                      (distance_transform_edt_dims L HL _ _ H7)
                      (gaussian_filter_dims L HL _ _ _ H8)))) as D4.
  assert (D5 : same_dims (fiber_channel_data s) (threshed s)).
  { rewrite H12. exact (same_dims_trans _ _ _ D4 (np_map_dims _ _)). }
  pose proof (same_dims_trans _ _ _ D4
                (same_dims_trans _ _ _ (gaussian_filter_dims L HL _ _ _ H13)
                   (sobel_dims L HL _ _ H14))) as D6.
  assert (D7 : same_dims (fiber_channel_data s) (segmentation s)).
  { rewrite H16.
    exact (same_dims_trans _ _ _ D5
             (same_dims_trans _ _ _ (watershed_dims L HL _ _ _ H15)
                (np_map_dims _ _))). }
  assert (D8 : same_dims (fiber_channel_data s) (labeled s)).
  { rewrite H17. exact (same_dims_trans _ _ _ D7 (ndi_label_dims _)). }
  assert (D9 : same_dims (fiber_channel_data s) (labeled_filtered s)).
  { rewrite H19. rewrite H17 in H18.
    exact (same_dims_trans _ _ _ D7 (filtered_dims _ _ _ H18)). }
  unfold dims_preserved. tauto.
Qed.

(** The least value of the distance field lies below the lower cutoff,
    so class 1 has a seed. *)
Lemma segment_fov_has_seed p c n fov s :
  segment_fov L p c n fov = Ok s -> has_seed (threshed s).
Proof using HL.
  intros H.
  destruct (segment_fov_inv _ _ _ _ _ H)
    as (top & k & edt & t0 & t1 & smoothed & flooded & kept & _ & _ & _ & _
        & _ & _ & _ & _ & H9 & H10 & H11 & H12 & _).
  destruct (threshold_multiotsu_two L HL _ _ H9) as (u0 & u1 & Hts & Hle & Hlow).
  rewrite Hts in H10, H11. injection H10 as <-. injection H11 as <-.
  rewrite H12. unfold has_seed, np_map; simpl.
  apply List.Exists_exists in Hlow. destruct Hlow as (x & Hx & Hlt).
  apply List.Exists_exists. exists (class_of u0 u1 x).
  split; [now apply in_map |]. left. now apply class_of_below.
Qed.

(** The segmentation is 0 where class 1 flooded and 1 where class 2
    flooded. *)
Lemma segment_fov_binary p c n fov s :
  segment_fov L p c n fov = Ok s -> binary (segmentation s).
Proof using HL.
  intros H.
  pose proof (segment_fov_has_seed _ _ _ _ _ H) as Hseed.
  destruct (segment_fov_inv _ _ _ _ _ H)
    as (top & k & edt & t0 & t1 & smoothed & flooded & kept & _ & _ & _ & _
        & _ & _ & _ & _ & _ & _ & _ & H12 & _ & _ & H15 & H16 & _).
  assert (Hc : classified (threshed s))
    by (rewrite H12; apply class_of_classified).
  pose proof (watershed_floods L HL _ _ _ H15 Hc Hseed) as Hf.
  unfold binary. rewrite H16. unfold np_sub1, np_map; simpl.
  apply List.Forall_forall. intros y Hy. apply in_map_iff in Hy.
  destruct Hy as (x & <- & Hx).
  destruct (proj1 (List.Forall_forall _ _) Hf x Hx); lia.
Qed.

Lemma raster_length {A : Type} rows cols (f : nat -> nat -> A) :
  length (raster rows cols f) = (rows * cols)%nat.
Proof.
  unfold raster. generalize 0%nat at 2.
  induction rows as [| rows IH]; intros start; simpl; [reflexivity |].
  rewrite length_app, length_map, length_seq, IH. reflexivity.
Qed.

Lemma loc_fov_shape c fov a :
  loc_fov c fov = Ok a ->
  shape a = (snd (fst (ch_shape c)), snd (ch_shape c)) /\ well_formed a.
Proof.
  unfold loc_fov. destruct (has_name _ _); [| discriminate].
  intros [= <-]. split; [reflexivity |]. apply raster_length.
Qed.

Lemma loc_channel_inv d ch c :
  loc_channel d ch = Ok c ->
  has_name (xr_channels d) ch = true /\
  ch_fovs c = xr_fovs d /\
  ch_shape c = (length (xr_fovs d), xr_rows d, xr_cols d) /\
  ch_pixel c = fun fov x y => xr_pixel d fov x y ch.
Proof.
  unfold loc_channel. destruct (has_name _ _); [| discriminate].
  now intros [= <-].
Qed.

(** * The loop and the function around it *)

(** The writes of a pass are those of its list, in that order. *)
Lemma save_pass_writes out_dir dpath fov debug s fs :
  save_pass out_dir dpath fov debug s fs
  = write_all (pass_writes out_dir dpath fov debug s) fs.
Proof.
  unfold save_pass, pass_writes.
  destruct debug; simpl app; cbn [write_all fst snd];
    unfold save_debug, io_bind, io_ret;
    repeat match goal with
           | |- context [write_file ?q ?a ?f] =>
               destruct (write_file q a f) as [? [[] | ?]]
           end; reflexivity.
Qed.

Lemma pass_writes_paths out_dir dpath fov debug s :
  map fst (pass_writes out_dir dpath fov debug s)
  = pass_paths out_dir dpath fov debug.
Proof. unfold pass_writes, pass_paths. now destruct debug. Qed.

(** One pass of the loop, spelled out. *)
Lemma fov_loop_cons cfg p c n out_dir props debug dpath fov rest imgs tabs fs :
  fov_loop L cfg p c n out_dir props debug dpath (fov :: rest) imgs tabs fs =
  match segment_fov L p c n fov with
  | Raise e => (fs, Raise e)
  | Ok s =>
    match write_all (pass_writes out_dir dpath fov debug s) fs with
    | (fs1, Raise e) => (fs1, Raise e)
    | (fs1, Ok _) =>
      match regionprops_table L (labeled_filtered s) props with
      | Raise e => (fs1, Raise e)
      | Ok t =>
        fov_loop L cfg p c n out_dir props debug dpath rest
                 (<[ fov := labeled_filtered s ]> imgs)
                 (tabs ++ [set_column (FOV_ID cfg) (CStr fov) t])
                 fs1
      end
    end
  end.
Proof.
  cbn [fov_loop]. unfold io_bind at 1, io_lift at 1.
  destruct (segment_fov L p c n fov) as [s | e]; [| reflexivity].
  rewrite <- save_pass_writes. unfold save_pass.
  unfold io_bind, io_lift.
  destruct ((if debug then save_debug dpath fov s else io_ret tt) fs)
    as [fs0 [[] | e]]; [| reflexivity].
  destruct (write_file _ _ fs0) as [fs1 [[] | e]]; [| reflexivity].
  destruct (regionprops_table L (labeled_filtered s) props); reflexivity.
Qed.

(** The loop leaves the directories alone, however it ends. *)
Lemma fov_loop_dirs cfg p c n out_dir props debug dpath fovs imgs tabs fs :
  dirs (fst (fov_loop L cfg p c n out_dir props debug dpath fovs imgs tabs fs))
  = dirs fs.
Proof.
  revert imgs tabs fs. induction fovs as [| fov rest IH]; intros imgs tabs fs;
    [reflexivity |].
  rewrite fov_loop_cons.
  destruct (segment_fov L p c n fov) as [s | e]; [| reflexivity].
  pose proof (write_all_dirs (pass_writes out_dir dpath fov debug s) fs) as Hw.
  destruct (write_all _ fs) as [fs1 [[] | e]]; simpl in Hw; [| exact Hw].
  destruct (regionprops_table L (labeled_filtered s) props) as [t | e];
    [| exact Hw].
  now rewrite IH.
Qed.

(** What a loop that ended normally did for each field of view, and
    what it wrote. *)
Lemma fov_loop_ok cfg p c n out_dir props debug dpath fovs :
  forall imgs0 tabs0 fs fs' imgs tabs,
  fov_loop L cfg p c n out_dir props debug dpath fovs imgs0 tabs0 fs
    = (fs', Ok (imgs, tabs)) ->
  (exists ts, map_result (fov_table L cfg p c n props) fovs = Ok ts /\
              tabs = (tabs0 ++ ts)%list) /\
  (forall fov, In fov fovs ->
     exists s, segment_fov L p c n fov = Ok s /\
               imgs !! fov = Some (labeled_filtered s)) /\
  (forall fov, ~ In fov fovs -> imgs !! fov = imgs0 !! fov).
Proof.
  induction fovs as [| fov rest IH]; intros imgs0 tabs0 fs fs' imgs tabs.
  - simpl. unfold io_ret. intros [= <- <- <-]. split; [| split].
    + exists []. now rewrite app_nil_r.
    + intros fov [].
    + reflexivity.
  - rewrite fov_loop_cons. simpl map_result. unfold fov_table at 1.
    destruct (segment_fov L p c n fov) as [s | e] eqn:Es; [| discriminate].
    simpl bind.
    destruct (write_all _ fs) as [fs1 [[] | e]]; [| discriminate].
    destruct (regionprops_table L (labeled_filtered s) props) as [t | e] eqn:Et;
      [| discriminate].
    intros H. apply IH in H. destruct H as ((ts & Hts & ->) & Hin & Hout).
    split; [| split].
    + exists (set_column (FOV_ID cfg) (CStr fov) t :: ts). simpl.
      rewrite Hts. simpl. split; [reflexivity |].
      now rewrite <- app_assoc.
    + intros fov' [<- | Hfov'].
      * destruct (in_dec string_dec fov rest) as [Hr | Hr].
        -- destruct (Hin fov Hr) as (s' & Es' & Hs').
           exists s'. split; [exact Es' | exact Hs'].
        -- exists s. split; [exact Es |].
           rewrite (Hout fov Hr). apply lookup_insert_eq.
      * apply Hin. exact Hfov'.
    + intros fov' Hn. rewrite Hout by (simpl in Hn; tauto).
      apply lookup_insert_ne. intros ->. apply Hn. now left.
Qed.

Lemma apply_writes_app ws1 ws2 m :
  apply_writes (ws1 ++ ws2) m = apply_writes ws2 (apply_writes ws1 m).
Proof. unfold apply_writes. apply fold_left_app. Qed.

(** A loop that ended normally could write every file of its list,
    and the files are what the list says. *)
Lemma fov_loop_ok_files cfg p c n out_dir props debug dpath fovs :
  forall imgs0 tabs0 fs fs' acc,
  fov_loop L cfg p c n out_dir props debug dpath fovs imgs0 tabs0 fs
    = (fs', Ok acc) ->
  Forall (fun w => writable (dirs fs) (fst w))
         (loop_writes L p c n out_dir dpath debug fovs) /\
  fs' = FS (dirs fs)
           (apply_writes (loop_writes L p c n out_dir dpath debug fovs) (files fs)).
Proof.
  induction fovs as [| fov rest IH]; intros imgs0 tabs0 fs fs' acc.
  - simpl. unfold io_ret. intros [= <- _]. split; [constructor | now destruct fs].
  - rewrite fov_loop_cons. unfold loop_writes. simpl flat_map.
    destruct (segment_fov L p c n fov) as [s | e]; [| discriminate].
    destruct (write_all _ fs) as [fs1 [[] | e]] eqn:Ew; [| discriminate].
    apply write_all_ok in Ew. destruct Ew as [Hw ->].
    destruct (regionprops_table L (labeled_filtered s) props) as [t | e];
      [| discriminate].
    intros H. apply IH in H. destruct H as [Hrest ->]. simpl dirs in *.
    split; [apply Forall_app; now split |].
    simpl files. now rewrite apply_writes_app.
Qed.

(** Conversely, where every pass goes through and every file of the
    list can be written, the loop ends normally. *)
Lemma fov_loop_run cfg p c n out_dir props debug dpath fovs :
  forall ts imgs0 tabs0 fs,
  map_result (fov_table L cfg p c n props) fovs = Ok ts ->
  Forall (fun w => writable (dirs fs) (fst w))
         (loop_writes L p c n out_dir dpath debug fovs) ->
  exists imgs,
    fov_loop L cfg p c n out_dir props debug dpath fovs imgs0 tabs0 fs
    = (FS (dirs fs)
          (apply_writes (loop_writes L p c n out_dir dpath debug fovs) (files fs)),
       Ok (imgs, (tabs0 ++ ts)%list)).
Proof.
  induction fovs as [| fov rest IH]; intros ts imgs0 tabs0 fs.
  - simpl. intros [= <-] _. exists imgs0. rewrite app_nil_r.
    unfold io_ret. now destruct fs.
  - rewrite fov_loop_cons. unfold loop_writes. simpl flat_map.
    simpl map_result. unfold fov_table at 1.
    destruct (segment_fov L p c n fov) as [s | e]; [| discriminate].
    simpl bind.
    destruct (regionprops_table L (labeled_filtered s) props) as [t | e];
      [| discriminate].
    simpl bind.
    destruct (map_result (fov_table L cfg p c n props) rest) as [ts' |] eqn:Ets;
      [| discriminate].
    simpl. intros [= <-] Hall. apply Forall_app in Hall. destruct Hall as [Hw Hrest].
    rewrite (write_all_run _ _ Hw).
    destruct (IH ts' (<[ fov := labeled_filtered s ]> imgs0)
                 (tabs0 ++ [set_column (FOV_ID cfg) (CStr fov) t])%list
                 (FS (dirs fs) (apply_writes (pass_writes out_dir dpath fov debug s)
                                             (files fs)))
                 eq_refl Hrest) as (imgs & E).
    exists imgs. rewrite E. simpl. now rewrite apply_writes_app, <- app_assoc.
Qed.

(** The dict and the list a loop that ended normally returns do not
    depend on the output directory, the debug flag or the file
    system. *)
Lemma fov_loop_acc cfg p c n o1 o2 props d1 d2 dp1 dp2 fovs imgs0 tabs0
    fs1 fs2 fs1' fs2' acc1 acc2 :
  fov_loop L cfg p c n o1 props d1 dp1 fovs imgs0 tabs0 fs1 = (fs1', Ok acc1) ->
  fov_loop L cfg p c n o2 props d2 dp2 fovs imgs0 tabs0 fs2 = (fs2', Ok acc2) ->
  acc1 = acc2.
Proof.
  destruct acc1 as [imgs1 tabs1], acc2 as [imgs2 tabs2]. intros H1 H2.
  apply fov_loop_ok in H1. destruct H1 as ((ts1 & Hts1 & ->) & Hin1 & Hout1).
  apply fov_loop_ok in H2. destruct H2 as ((ts2 & Hts2 & ->) & Hin2 & Hout2).
  f_equal; [| congruence].
  apply map_eq. intros fov.
  destruct (in_dec string_dec fov fovs) as [Hf | Hf].
  - destruct (Hin1 fov Hf) as (s1 & Es1 & ->).
    destruct (Hin2 fov Hf) as (s2 & Es2 & ->). congruence.
  - now rewrite Hout1, Hout2.
Qed.

Lemma write_file_dirs q a fs : dirs (fst (write_file q a fs)) = dirs fs.
Proof.
  destruct (write_file_cases q a fs) as [[_ ->] | [_ (e & ->)]]; reflexivity.
Qed.

Lemma write_file_ok q a fs fs' u :
  write_file q a fs = (fs', Ok u) ->
  writable (dirs fs) q /\ fs' = FS (dirs fs) (<[ q := a ]> (files fs)).
Proof.
  intros H. destruct (write_file_cases q a fs) as [[Hw E] | [_ (e & E)]];
    rewrite E in H; [| discriminate].
  injection H as <- _. now split.
Qed.

Lemma write_file_raise q a fs fs' e :
  write_file q a fs = (fs', Raise e) -> fs' = fs.
Proof.
  intros H. destruct (write_file_cases q a fs) as [[Hw E] | [_ (e' & E)]];
    rewrite E in H; [discriminate |].
  now injection H as <- _.
Qed.

(** A run that returns, step by step: the channel was found, [out_dir]
    was there, the debug directory could be made where asked for, the
    loop went through, and the table was written. *)
Lemma segment_fibers_steps cfg data ch out_dir p props debug fs fs' table images :
  segment_fibers L cfg data ch out_dir p props debug fs
    = (fs', Ok (table, images)) ->
  exists c fs1 fs2 tabs,
    loc_channel data ch = Ok c /\
    os_path_exists fs out_dir = true /\
    (if debug then os_makedirs (os_path_join out_dir "_debug") else io_ret tt) fs
      = (fs1, Ok tt) /\
    fov_loop L cfg p c (xr_rows data) out_dir props debug
             (os_path_join out_dir "_debug") (xr_fovs data) ∅ [] fs1
      = (fs2, Ok (images, tabs)) /\
    pd_concat tabs = Ok table /\
    writable (dirs fs2) (os_path_join out_dir "fiber_object_table.csv") /\
    fs' = FS (dirs fs2)
             (<[ os_path_join out_dir "fiber_object_table.csv" := CsvTable table ]>
                (files fs2)).
Proof.
  rewrite segment_fibers_eq.
  destruct (loc_channel data ch) as [c |] eqn:Ec; [| discriminate].
  destruct (loc_channel_inv _ _ _ Ec) as (_ & Hf & Hs & _).
  destruct (os_path_exists fs out_dir); [| discriminate].
  destruct ((if debug then os_makedirs (os_path_join out_dir "_debug")
             else io_ret tt) fs) as [fs1 [[] | e]] eqn:Em; [| discriminate].
  destruct (fov_loop _ _ _ _ _ _ _ _ _ _ _ _ fs1) as [fs2 [[imgs tabs] | e]] eqn:El;
    [| discriminate].
  simpl snd. simpl fst.
  destruct (pd_concat tabs) as [tb |] eqn:Ep; [| discriminate].
  destruct (write_file _ _ fs2) as [fs3 [[] | e]] eqn:Ew; [| discriminate].
  intros [= <- <- <-].
  apply write_file_ok in Ew. destruct Ew as [Hw ->].
  rewrite Hf, Hs in El. simpl in El.
  exists c, fs1, fs2, tabs.
  split; [reflexivity |]. split; [reflexivity |]. split; [reflexivity |].
  split; [exact El |]. split; [exact Ep |]. split; [exact Hw | reflexivity].
Qed.

Lemma segment_fibers_inv cfg data ch out_dir p props debug fs fs' table images :
  segment_fibers L cfg data ch out_dir p props debug fs
    = (fs', Ok (table, images)) ->
  exists c tabs,
    loc_channel data ch = Ok c /\
    os_path_exists fs out_dir = true /\
    map_result (fov_table L cfg p c (xr_rows data) props) (xr_fovs data) = Ok tabs /\
    table = concat tabs /\
    (forall fov, In fov (xr_fovs data) ->
       exists s, segment_fov L p c (xr_rows data) fov = Ok s /\
                 images !! fov = Some (labeled_filtered s)) /\
    (forall fov, ~ In fov (xr_fovs data) -> images !! fov = None).
Proof.
  intros Hrun.
  destruct (segment_fibers_steps _ _ _ _ _ _ _ _ _ _ _ Hrun)
    as (c & fs1 & fs2 & tabs & Hc & Hout & _ & El & Ep & _).
  apply fov_loop_ok in El. destruct El as ((ts & Hts & ->) & Hin & Hnot).
  exists c, ts. simpl in Ep.
  assert (Htb : table = concat ts).
  { unfold pd_concat in Ep. destruct ts; [discriminate | now injection Ep as <-]. }
  repeat split; auto.
Qed.

(** * Properties of the loop body *)

Lemma segment_fov_well_formed p c n fov s :
  segment_fov L p c n fov = Ok s -> well_formed (fiber_channel_data s).
Proof.
  intros H.
  destruct (segment_fov_inv _ _ _ _ _ H)
    as (top & k & edt & t0 & t1 & smoothed & flooded & kept & H1 & _).
  now destruct (loc_fov_shape _ _ _ H1).
Qed.

(** C3.  The Distance & Threshold stage: 3-class multi-Otsu gives two
    cutoffs [t0 <= t1]; a cell of the smoothed distance field strictly
    below [t0] is marked 1, a cell strictly above [t1] is marked 2, and
    a cell in the closed band [[t0, t1]] keeps 0. *)
Theorem threshold_classification p c n fov s :
  segment_fov L p c n fov = Ok s ->
  exists t0 t1,
    threshold_multiotsu L (distance_transformed s) 3 = Ok [t0; t1] /\
    thresholds s = [t0; t1] /\
    PrimFloat.leb t0 t1 = true /\
    same_dims (distance_transformed s) (threshed s) /\
    forall i x,
      nth_error (buf (distance_transformed s)) i = Some x ->
      (PrimFloat.ltb x t0 = true ->
       nth_error (buf (threshed s)) i = Some 1%float) /\
      (PrimFloat.ltb t1 x = true ->
       nth_error (buf (threshed s)) i = Some 2%float) /\
      (PrimFloat.leb t0 x = true -> PrimFloat.leb x t1 = true ->
       nth_error (buf (threshed s)) i = Some 0%float).
Proof using HL.
  intros H.
  destruct (segment_fov_inv _ _ _ _ _ H)
    as (top & k & edt & t0 & t1 & smoothed & flooded & kept & _ & _ & _ & _
        & _ & _ & _ & _ & H9 & H10 & H11 & H12 & _).
  destruct (threshold_multiotsu_two L HL _ _ H9) as (u0 & u1 & Hts & Hle & _).
  rewrite Hts in H10, H11. injection H10 as <-. injection H11 as <-.
  exists u0, u1. rewrite <- Hts.
  split; [exact H9 |]. split; [reflexivity |]. split; [exact Hle |].
  rewrite H12. split; [apply np_map_dims |].
  intros i x Hx. unfold np_map; simpl.
  pose proof (map_nth_error (class_of u0 u1) _ _ Hx) as Hc.
  repeat split; intros.
  - rewrite Hc. f_equal. now apply class_of_below.
  - rewrite Hc. f_equal. now apply class_of_above.
  - rewrite Hc. f_equal. now apply class_of_between.
Qed.

Lemma ndi_label_numbers_objects a :
  well_formed a -> numbers_objects a (fst (ndi_label a)) (snd (ndi_label a)).
Proof.
  intros Hwf.
  assert (Hz : forall i, (i < length (buf a))%nat ->
                 cell_at (fst (ndi_label a)) i = 0 <-> cell_at a i = 0)
    by (intros i Hi; now apply ndi_label_zero).
  split; [exact Hz |]. split; [intros i; now apply ndi_label_range |].
  split; [intros k Hk; now apply ndi_label_onto |].
  intros i j Hi Hj Hni Hnj. apply ndi_label_connected; auto.
  - intros E. now apply Hz in E.
  - intros E. now apply Hz in E.
Qed.

(** C4.  The Watershed stage: the segmentation is the watershed output
    minus 1, so a cell flooded from class 1 becomes 0; labelling it
    gives 0 exactly on the zero cells and the identifiers [1 .. N],
    each of them used, two cells sharing one exactly when a chain of
    non-zero cells joins them. *)
Theorem watershed_labels p c n fov s :
  segment_fov L p c n fov = Ok s ->
  exists flooded,
    watershed L (elevation_map s) (threshed s) = Ok flooded /\
    classified (threshed s) /\
    segmentation s = np_sub1 flooded /\
    (forall i, (i < length (buf flooded))%nat -> cell_at flooded i = 1 ->
               cell_at (segmentation s) i = 0) /\
    labeled s = fst (ndi_label (segmentation s)) /\
    numbers_objects (segmentation s) (labeled s)
                    (snd (ndi_label (segmentation s))).
Proof using HL.
  intros H.
  pose proof (segment_fov_well_formed _ _ _ _ _ H) as Hwf.
  destruct (segment_fov_dims _ _ _ _ _ H)
    as (_ & _ & _ & _ & _ & _ & D7 & _).
  pose proof (same_dims_well_formed _ _ D7 Hwf) as Hwseg.
  destruct (segment_fov_inv _ _ _ _ _ H)
    as (top & k & edt & t0 & t1 & smoothed & flooded & kept & _ & _ & _ & _
        & _ & _ & _ & _ & _ & _ & _ & H12 & _ & _ & H15 & H16 & H17 & _).
  exists flooded. split; [exact H15 |].
  split; [rewrite H12; apply class_of_classified |].
  split; [exact H16 |].
  split; [intros i Hi Hf; rewrite H16, np_sub1_cell by exact Hi; lia |].
  split; [exact H17 |].
  rewrite H17. now apply ndi_label_numbers_objects.
Qed.

(** C2.  The filtered label image is the cell-by-cell product of what
    the size filter returns and the segmentation; no relabelling takes
    place, and a non-zero cell of the result carries the label that
    cell had before filtering. *)
Theorem filtering_keeps_label_values p c n fov s :
  segment_fov L p c n fov = Ok s ->
  exists kept,
    remove_small_objects (labeled s) (min_fiber_size p) = Ok kept /\
    labeled_filtered s = np_mul kept (segmentation s) /\
    (forall i, cell_at (labeled_filtered s) i
               = cell_at kept i * cell_at (segmentation s) i) /\
    (forall i, cell_at (labeled_filtered s) i <> 0 ->
               cell_at (labeled_filtered s) i = cell_at (labeled s) i) /\
    (forall v, In v (buf (labeled_filtered s)) -> v <> 0 ->
               In v (buf (labeled s))).
Proof using HL.
  intros H.
  pose proof (segment_fov_binary _ _ _ _ _ H) as Hb.
  destruct (segment_fov_dims _ _ _ _ _ H)
    as (_ & _ & _ & _ & _ & _ & D7 & D8 & D9).
  destruct (segment_fov_inv _ _ _ _ _ H)
    as (top & k & edt & t0 & t1 & smoothed & flooded & kept & _ & _ & _ & _
        & _ & _ & _ & _ & _ & _ & _ & _ & _ & _ & _ & _ & H17 & H18 & H19).
  exists kept. split; [exact H18 |]. split; [exact H19 |].
  rewrite H17 in H18.
  assert (Hks : same_dims kept (segmentation s)).
  { pose proof (ndi_label_dims (segmentation s)) as [E1 E2].
    pose proof (remove_small_objects_dims _ _ _ H18) as [E3 E4].
    split; congruence. }
  assert (Hlab : forall i, cell_at (labeled_filtered s) i <> 0 ->
                   cell_at (labeled_filtered s) i = cell_at (labeled s) i).
  { intros i. rewrite H19, H17.
    exact (filtered_is_label _ (min_fiber_size p) kept i Hb H18). }
  split; [intros i; rewrite H19; now apply np_mul_cell |].
  split; [exact Hlab |].
  intros v Hv Hne. apply (In_nth _ _ 0) in Hv. destruct Hv as (i & Hi & Ei).
  change (cell_at (labeled_filtered s) i = v) in Ei. subst v.
  rewrite (Hlab i Hne). apply nth_In.
  destruct D8 as [_ ->]. destruct D9 as [_ E]. now rewrite <- E.
Qed.

(** * Properties of a run *)

Lemma map_result_In {A B : Type} (f : A -> result B) l ys x :
  map_result f l = Ok ys -> In x l -> exists y, f x = Ok y /\ In y ys.
Proof.
  revert ys. induction l as [| a l IH]; intros ys; simpl; [tauto |].
  destruct (f a) as [b |] eqn:Ea; simpl; [| discriminate].
  destruct (map_result f l) as [ys' |]; simpl; [| discriminate].
  intros [= <-] [<- | Hx].
  - exists b. split; [exact Ea | now left].
  - destruct (IH ys' eq_refl Hx) as (y & Ey & Hy). exists y. split; [exact Ey | now right].
Qed.

Lemma filtered_image_objects p c n fov s :
  segment_fov L p c n fov = Ok s ->
  (forall i, 0 <= cell_at (labeled_filtered s) i) /\
  one_object_per_value (labeled_filtered s).
Proof using HL.
  intros H.
  pose proof (segment_fov_binary _ _ _ _ _ H) as Hb.
  pose proof (segment_fov_well_formed _ _ _ _ _ H) as Hwf.
  destruct (segment_fov_dims _ _ _ _ _ H)
    as (_ & _ & _ & _ & _ & _ & D7 & _ & D9).
  pose proof (same_dims_well_formed _ _ D7 Hwf) as Hwseg.
  destruct (segment_fov_inv _ _ _ _ _ H)
    as (top & k & edt & t0 & t1 & smoothed & flooded & kept & _ & _ & _ & _
        & _ & _ & _ & _ & _ & _ & _ & _ & _ & _ & _ & _ & H17 & H18 & H19).
  rewrite H17 in H18. rewrite H19. split.
  - intros i. now apply (filtered_nonneg _ (min_fiber_size p)).
  - intros i j Hi Hj Hni Hnj.
    pose proof (filtered_dims _ _ _ H18) as [_ El]. rewrite El in Hi, Hj.
    now apply (filtered_connected _ (min_fiber_size p)).
Qed.

Lemma map_result_Forall2 {A B : Type} (f : A -> result B) l ys :
  map_result f l = Ok ys -> Forall2 (fun x y => f x = Ok y) l ys.
Proof.
  revert ys. induction l as [| x l IH]; intros ys; simpl.
  - intros [= <-]. constructor.
  - destruct (f x) as [y |] eqn:E; simpl; [| discriminate].
    destruct (map_result f l) as [ys' |]; simpl; [| discriminate].
    intros [= <-]. constructor; [exact E | now apply IH].
Qed.

Lemma set_cell_In name c cells : In (name, c) (set_cell name c cells).
Proof.
  induction cells as [| [k v] t IH]; simpl; [now left |].
  destruct (String.eqb_spec k name) as [-> | Hne]; [now left | now right].
Qed.

Lemma set_column_In name c t r :
  In r (set_column name c t) -> In (name, c) (row_cells r).
Proof.
  unfold set_column. intros Hr. apply in_map_iff in Hr.
  destruct Hr as (r0 & <- & _). simpl. apply set_cell_In.
Qed.

(** The rows of one field of view: they carry its name, their labels
    are pairwise different and are the non-zero values of its filtered
    label image, each of which marks one object. *)
Lemma fov_table_rows cfg p c n props fov rows :
  fov_table L cfg p c n props fov = Ok rows ->
  exists s,
    segment_fov L p c n fov = Ok s /\
    (forall r, In r rows -> In (FOV_ID cfg, CStr fov) (row_cells r)) /\
    List.NoDup (map row_label rows) /\
    (forall l, In l (map row_label rows) <->
               l <> 0 /\ In l (buf (labeled_filtered s))) /\
    one_object_per_value (labeled_filtered s).
Proof using HL.
  unfold fov_table. intros Hrows.
  destruct (segment_fov L p c n fov) as [s |] eqn:Hs; simpl in Hrows;
    [| discriminate].
  destruct (regionprops_table L (labeled_filtered s) props) as [t |] eqn:Et;
    simpl in Hrows; [| discriminate].
  injection Hrows as <-. exists s. split; [reflexivity |].
  split; [intros r; apply set_column_In |].
  rewrite set_column_labels, (regionprops_table_labels _ _ _ _ Et).
  destruct (filtered_image_objects _ _ _ _ _ Hs) as [Hnn Hobj].
  split; [apply region_labels_NoDup |]. split; [| exact Hobj].
  intros l. rewrite region_labels_spec. split.
  - intros [Hl Hi]. split; [lia | exact Hi].
  - intros [Hl Hi]. split; [| exact Hi].
    apply (In_nth _ _ 0) in Hi. destruct Hi as (i & _ & <-).
    pose proof (Hnn i). unfold cell_at in *. lia.
Qed.

(** C1.  The table [segment_fibers] returns consists of one group of
    rows for every field of view, in the order of the fields of view,
    and of nothing else.  The rows of a group carry the name of their
    field of view and pairwise different labels; a value is the label
    of a row of the group exactly when it is a non-zero value of the
    filtered label image returned for that field of view, and every
    such value marks exactly one object of that image. *)
Theorem table_rows_match_labels
    cfg data ch out_dir p props debug fs fs' table images :
  segment_fibers L cfg data ch out_dir p props debug fs
    = (fs', Ok (table, images)) ->
  exists c groups,
    loc_channel data ch = Ok c /\
    table = concat groups /\
    Forall2 (fun fov rows =>
               exists s,
                 segment_fov L p c (xr_rows data) fov = Ok s /\
                 images !! fov = Some (labeled_filtered s) /\
                 fov_table L cfg p c (xr_rows data) props fov = Ok rows /\
                 (forall r, In r rows ->
                            In (FOV_ID cfg, CStr fov) (row_cells r)) /\
                 List.NoDup (map row_label rows) /\
                 (forall l, In l (map row_label rows) <->
                            l <> 0 /\ In l (buf (labeled_filtered s))) /\
                 one_object_per_value (labeled_filtered s))
            (xr_fovs data) groups.
Proof using HL.
  intros Hrun.
  destruct (segment_fibers_inv _ _ _ _ _ _ _ _ _ _ _ Hrun)
    as (c & tabs & Hc & _ & Htabs & -> & Hin & _).
  exists c, tabs. split; [exact Hc |]. split; [reflexivity |].
  apply map_result_Forall2 in Htabs.
  clear Hrun. revert Hin Htabs. generalize (xr_fovs data). intros fovs0 Hin Htabs.
  induction Htabs as [| fov rows fovs tabs' Hrow _ IH]; constructor.
  - destruct (fov_table_rows _ _ _ _ _ _ _ Hrow) as (s & Hs & Hfov & Hnd & Hlab & Hobj).
    destruct (Hin fov (or_introl eq_refl)) as (s' & Hs' & Himg).
    rewrite Hs in Hs'. injection Hs' as <-.
    exists s. split; [exact Hs |]. split; [exact Himg |]. split; [exact Hrow |].
    split; [exact Hfov |]. split; [exact Hnd |]. split; [exact Hlab | exact Hobj].
  - apply IH. intros f Hf. apply Hin. now right.
Qed.

(** C9.  A label image [segment_fibers] returns has the height and the
    width of the source image, as has every image computed on the way;
    its cells are 0 or positive, and every positive value marks exactly
    one object of the image. *)
Theorem label_image_dims_and_ids
    cfg data ch out_dir p props debug fs fs' table images fov lf :
  segment_fibers L cfg data ch out_dir p props debug fs
    = (fs', Ok (table, images)) ->
  images !! fov = Some lf ->
  shape lf = (xr_rows data, xr_cols data) /\
  well_formed lf /\
  exists c s,
    loc_channel data ch = Ok c /\
    segment_fov L p c (xr_rows data) fov = Ok s /\
    lf = labeled_filtered s /\
    shape (fiber_channel_data s) = (xr_rows data, xr_cols data) /\
    dims_preserved s /\
    (forall i, 0 <= cell_at lf i) /\
    one_object_per_value lf.
Proof using HL.
  intros Hrun Himg.
  destruct (segment_fibers_inv _ _ _ _ _ _ _ _ _ _ _ Hrun)
    as (c & tabs & Hc & _ & _ & _ & Hin & Hout).
  destruct (in_dec string_dec fov (xr_fovs data)) as [Hfov | Hfov];
    [| rewrite (Hout fov Hfov) in Himg; discriminate].
  destruct (Hin fov Hfov) as (s & Hs & Himg').
  assert (lf = labeled_filtered s) by congruence. subst lf.
  pose proof (segment_fov_well_formed _ _ _ _ _ Hs) as Hwf.
  pose proof (segment_fov_dims _ _ _ _ _ Hs) as Hdims.
  assert (Hshape : shape (fiber_channel_data s) = (xr_rows data, xr_cols data)).
  { destruct (segment_fov_inv _ _ _ _ _ Hs)
      as (top & k & edt & t0 & t1 & smoothed & flooded & kept & H1 & _).
    destruct (loc_fov_shape _ _ _ H1) as [-> _].
    destruct (loc_channel_inv _ _ _ Hc) as (_ & _ & -> & _). reflexivity. }
  pose proof Hdims as (_ & _ & _ & _ & _ & _ & _ & _ & D9).
  split; [destruct D9 as [-> _]; exact Hshape |].
  split; [exact (same_dims_well_formed _ _ D9 Hwf) |].
  exists c, s.
  split; [exact Hc |]. split; [exact Hs |]. split; [reflexivity |].
  split; [exact Hshape |]. split; [exact Hdims |].
  exact (filtered_image_objects p c (xr_rows data) fov s Hs).
Qed.

(** ** The two functions side by side *)

Lemma has_name_In names x : has_name names x = true <-> In x names.
Proof.
  unfold has_name. rewrite existsb_exists. split.
  - intros (y & Hy & E). apply String.eqb_eq in E. now subst.
  - intros H. exists x. split; [exact H | apply String.eqb_refl].
Qed.

(** On a field of view and a channel of the data, the plotting function
    computes, call by call, what one pass of the loop computes. *)
Lemma plot_is_segment_fov data fov ch p c :
  loc_channel data ch = Ok c -> In fov (xr_fovs data) ->
  plot_fiber_segmentation_steps L data fov ch p =
  (do s <- segment_fov L p c (xr_rows data) fov ; Ok (panels_of s)).
Proof.
  intros Hc Hfov.
  destruct (loc_channel_inv _ _ _ Hc) as (Hch & Hf & Hs & Hv).
  unfold plot_fiber_segmentation_steps, segment_fov, loc_fov_channel, loc_fov.
  rewrite Hf, Hs, Hv, Hch. rewrite (proj2 (has_name_In _ _) Hfov). simpl.
  repeat match goal with
         | |- context [bind ?m _] =>
             match m with
             | bind _ _ => fail 1
             | _ => destruct m; simpl; [| reflexivity]
             end
         end.
  reflexivity.
Qed.

(** C10.  For a field of view and a channel of the data and the same
    keyword arguments, [plot_fiber_segmentation_steps] fails exactly
    when the pass of [segment_fibers] for that field of view fails, and
    with the same exception; otherwise its filtered label image is the
    one of that pass, which is the image [segment_fibers] returns for
    the field of view. *)
Theorem plot_agrees_with_segment_fibers cfg data ch p c fov :
  loc_channel data ch = Ok c -> In fov (xr_fovs data) ->
  (forall e, plot_fiber_segmentation_steps L data fov ch p = Raise e <->
             segment_fov L p c (xr_rows data) fov = Raise e) /\
  (forall s, segment_fov L p c (xr_rows data) fov = Ok s ->
             exists pn, plot_fiber_segmentation_steps L data fov ch p = Ok pn /\
                        panel_labeled_filtered pn = labeled_filtered s) /\
  (forall out_dir props debug fs fs' table images,
     segment_fibers L cfg data ch out_dir p props debug fs
       = (fs', Ok (table, images)) ->
     exists pn, plot_fiber_segmentation_steps L data fov ch p = Ok pn /\
                images !! fov = Some (panel_labeled_filtered pn)).
Proof.
  intros Hc Hfov. rewrite (plot_is_segment_fov data fov ch p c Hc Hfov).
  split; [| split].
  - intros e. destruct (segment_fov L p c (xr_rows data) fov); simpl.
    + split; discriminate.
    + split; intros [= ->]; reflexivity.
  - intros s ->. simpl. exists (panels_of s). now split.
  - intros out_dir props debug fs fs' table images Hrun.
    destruct (segment_fibers_inv _ _ _ _ _ _ _ _ _ _ _ Hrun)
      as (c' & tabs & Hc' & _ & _ & _ & Hin & _).
    assert (c' = c) by congruence. subst c'.
    destruct (Hin fov Hfov) as (s & -> & Himg). simpl.
    exists (panels_of s). now split.
Qed.

(** ** Two runs *)

(** The label image of a pass is the one numbering of the objects of
    its segmentation in raster order. *)
Lemma labeled_is_raster_numbering p c n fov s :
  segment_fov L p c n fov = Ok s ->
  labeled s = fst (ndi_label (segmentation s)) /\
  numbers_objects (segmentation s) (labeled s)
                  (snd (ndi_label (segmentation s))) /\
  raster_numbered (labeled s) /\
  forall lab N,
    numbers_objects (segmentation s) lab N -> raster_numbered lab ->
    length (buf lab) = length (buf (segmentation s)) ->
    buf lab = buf (labeled s).
Proof using HL.
  intros H.
  pose proof (segment_fov_well_formed _ _ _ _ _ H) as Hwf.
  destruct (segment_fov_dims _ _ _ _ _ H)
    as (_ & _ & _ & _ & _ & _ & D7 & _).
  pose proof (same_dims_well_formed _ _ D7 Hwf) as Hwseg.
  destruct (segment_fov_inv _ _ _ _ _ H)
    as (top & k & edt & t0 & t1 & smoothed & flooded & kept & _ & _ & _ & _
        & _ & _ & _ & _ & _ & _ & _ & _ & _ & _ & _ & _ & H17 & _).
  split; [exact H17 |]. rewrite H17.
  pose proof (ndi_label_raster_numbered _ Hwseg) as Hr.
  split; [now apply ndi_label_numbers_objects |].
  split; [exact Hr |].
  intros lab N Hn Hrl Hlen.
  apply (raster_numbering_unique (segmentation s) lab N _
           (snd (ndi_label (segmentation s)))); auto.
  - now apply ndi_label_numbers_objects.
  - apply ndi_label_dims.
Qed.

(** C5.  What [segment_fibers] returns is fixed by the data and the
    keyword arguments: two runs that return, whatever output directory,
    debug flag and state of the file system each has, return the same
    table (the same rows in the same order) and the same label images,
    cell by cell.  The numbers of the labelling step are fixed as well:
    the label image of every field of view numbers the objects of the
    segmentation in the raster order of their first cells, and that is
    the only label image doing so. *)
Theorem segment_fibers_deterministic
    cfg data ch p props
    out_dir1 debug1 fs1 fs1' table1 images1
    out_dir2 debug2 fs2 fs2' table2 images2 :
  segment_fibers L cfg data ch out_dir1 p props debug1 fs1
    = (fs1', Ok (table1, images1)) ->
  segment_fibers L cfg data ch out_dir2 p props debug2 fs2
    = (fs2', Ok (table2, images2)) ->
  table1 = table2 /\ images1 = images2 /\
  forall fov, In fov (xr_fovs data) ->
    exists c s,
      loc_channel data ch = Ok c /\
      segment_fov L p c (xr_rows data) fov = Ok s /\
      images1 !! fov = Some (labeled_filtered s) /\
      labeled s = fst (ndi_label (segmentation s)) /\
      numbers_objects (segmentation s) (labeled s)
                      (snd (ndi_label (segmentation s))) /\
      raster_numbered (labeled s) /\
      forall lab N,
        numbers_objects (segmentation s) lab N -> raster_numbered lab ->
        length (buf lab) = length (buf (segmentation s)) ->
        buf lab = buf (labeled s).
Proof using HL.
  intros H1 H2.
  destruct (segment_fibers_inv _ _ _ _ _ _ _ _ _ _ _ H1)
    as (c1 & tabs1 & Hc1 & _ & Ht1 & -> & Hin1 & Hout1).
  destruct (segment_fibers_inv _ _ _ _ _ _ _ _ _ _ _ H2)
    as (c2 & tabs2 & Hc2 & _ & Ht2 & -> & Hin2 & Hout2).
  assert (c2 = c1) by congruence. subst c2.
  split; [congruence |]. split.
  - apply map_eq. intros fov.
    destruct (in_dec string_dec fov (xr_fovs data)) as [Hf | Hf].
    + destruct (Hin1 fov Hf) as (s1 & Es1 & ->).
      destruct (Hin2 fov Hf) as (s2 & Es2 & ->). congruence.
    + now rewrite Hout1, Hout2.
  - intros fov Hf. destruct (Hin1 fov Hf) as (s & Es & Himg).
    exists c1, s. split; [exact Hc1 |]. split; [exact Es |].
    split; [exact Himg |]. exact (labeled_is_raster_numbering _ _ _ _ _ Es).
Qed.

(** ** The output directory *)

(** C7, as the code has it.  When [out_dir] does not exist the call
    raises and leaves the file system as it found it; the outcome is
    the same whatever the image library does, so no stage has run for
    any field of view.  For a channel of the data the exception is
    [FileNotFoundError]. *)
Theorem missing_out_dir_fails_fast cfg data ch out_dir p props debug fs :
  os_path_exists fs out_dir = false ->
  (exists e, segment_fibers L cfg data ch out_dir p props debug fs
             = (fs, Raise e)) /\
  (forall L', segment_fibers L' cfg data ch out_dir p props debug fs
              = segment_fibers L cfg data ch out_dir p props debug fs) /\
  (has_name (xr_channels data) ch = true ->
   segment_fibers L cfg data ch out_dir p props debug fs
   = (fs, Raise FileNotFoundError)).
Proof.
  intros Hmissing.
  assert (Hrun : forall M, segment_fibers M cfg data ch out_dir p props debug fs
                   = match loc_channel data ch with
                     | Ok _ => (fs, Raise FileNotFoundError)
                     | Raise e => (fs, Raise e)
                     end).
  { intros M. rewrite segment_fibers_eq.
    destruct (loc_channel data ch); [| reflexivity].
    now rewrite Hmissing. }
  split; [| split].
  - rewrite Hrun. destruct (loc_channel data ch); eauto.
  - intros L'. now rewrite !Hrun.
  - intros Hch. rewrite Hrun. unfold loc_channel. now rewrite Hch.
Qed.

(** Once the debug directory is dealt with, nothing touches the
    directories. *)
Lemma segment_fibers_dirs cfg data ch out_dir p props debug fs :
  dirs (fst (segment_fibers L cfg data ch out_dir p props debug fs)) =
  match loc_channel data ch with
  | Raise _ => dirs fs
  | Ok _ =>
    if os_path_exists fs out_dir && debug
    then dirs (fst (os_makedirs (os_path_join out_dir "_debug") fs))
    else dirs fs
  end.
Proof.
  rewrite segment_fibers_eq.
  destruct (loc_channel data ch) as [c |]; [| reflexivity].
  destruct (os_path_exists fs out_dir); [| reflexivity].
  simpl andb.
  assert (Hm : dirs (fst ((if debug then os_makedirs (os_path_join out_dir "_debug")
                           else io_ret tt) fs))
               = if debug
                 then dirs (fst (os_makedirs (os_path_join out_dir "_debug") fs))
                 else dirs fs) by now destruct debug.
  rewrite <- Hm. clear Hm.
  destruct ((if debug then os_makedirs (os_path_join out_dir "_debug")
             else io_ret tt) fs) as [fs1 [[] | e]]; [| reflexivity].
  match goal with
  | |- context [fov_loop ?a ?b ?c ?d ?e ?f ?g ?h ?i ?j ?k ?l fs1] =>
      pose proof (fov_loop_dirs b c d e f g h i j k l fs1) as Hl;
      destruct (fov_loop a b c d e f g h i j k l fs1) as [fs2 [acc | e']]
  end; simpl in Hl |- *; [| exact Hl].
  destruct (pd_concat (snd acc)) as [t |]; simpl; [| exact Hl].
  pose proof (write_file_dirs (os_path_join out_dir "fiber_object_table.csv")
                (CsvTable t) fs2) as Hw.
  destruct (write_file _ _ fs2) as [fs3 [[] | e]]; simpl in Hw |- *; congruence.
Qed.

(** The debug directory of an output directory that is a directory and
    is written without a trailing separator. *)
Lemma makedirs_debug_run out_dir fs :
  is_dir fs out_dir = true -> ends_with_sep out_dir = false ->
  os_path_exists fs (os_path_join out_dir "_debug") = false ->
  os_makedirs (os_path_join out_dir "_debug") fs
  = (FS ({[ os_path_join out_dir "_debug" ]} ∪ dirs fs) (files fs), Ok tt).
Proof.
  intros Hdir Hsep Hd. apply makedirs_debug_new; [| exact Hd].
  right. rewrite dirname_join by (exact Hsep || reflexivity).
  now apply is_dir_elem.
Qed.


(** ** An image that is zero everywhere *)

Lemma np_max_zeros z :
  buf z <> [] -> Forall (fun x => x = 0%float) (buf z) -> np_max z = Ok 0%float.
Proof.
  unfold np_max. destruct (buf z) as [| x xs]; [congruence |].
  intros _ Hz. inversion Hz as [| ? ? -> Hxs]; subst. f_equal.
  clear Hz. induction Hxs as [| y ys -> _ IH]; simpl; [reflexivity | exact IH].
Qed.

Lemma np_true_divide_zeros z :
  Forall (fun x => x = 0%float) (buf z) ->
  np_true_divide z 0%float = np_map (fun _ => nan) z.
Proof.
  intros Hz. unfold np_true_divide, np_map. f_equal.
  induction Hz as [| x xs -> _ IH]; simpl; [reflexivity | now rewrite IH].
Qed.

(** C6, as the code has it.  When the smoothed image of a field of view
    is zero everywhere, the normalisation raises nothing: [np.max] is 0,
    the quotient is an array of NaN of the same dimensions, and that
    array is what [equalize_adapthist] is called with; the pass raises
    only what that call or a later one raises. *)
Theorem zero_image_gives_nan p c n fov data z :
  loc_fov c fov = Ok data ->
  gaussian_filter L data (blur p) = Ok z ->
  buf z <> [] ->
  Forall (fun x => x = 0%float) (buf z) ->
  contrast_scaling_divisor p <> 0 ->
  np_max z = Ok 0%float /\
  np_true_divide z 0%float = np_map (fun _ => nan) z /\
  exists k,
    py_truediv n (contrast_scaling_divisor p) = Ok k /\
    (forall e, equalize_adapthist L (np_map (fun _ => nan) z) k = Raise e ->
               segment_fov L p c n fov = Raise e) /\
    (forall s, segment_fov L p c n fov = Ok s ->
               equalize_adapthist L (np_map (fun _ => nan) z) k
               = Ok (contrast_adjusted s)).
Proof.
  intros Hdata Hz Hne Hzero Hdiv.
  pose proof (np_max_zeros z Hne Hzero) as Hmax.
  pose proof (np_true_divide_zeros z Hzero) as Hnan.
  split; [exact Hmax |]. split; [exact Hnan |].
  assert (Hk : exists k, py_truediv n (contrast_scaling_divisor p) = Ok k).
  { unfold py_truediv. destruct (Z.eqb_spec (contrast_scaling_divisor p) 0);
      [contradiction | eauto]. }
  destruct Hk as (k & Hk). exists k. split; [exact Hk |].
  split.
  - intros e He. unfold segment_fov.
    rewrite Hdata; simpl. rewrite Hz; simpl. rewrite Hmax; simpl.
    rewrite Hk; simpl. rewrite Hnan, He. reflexivity.
  - intros s Hs.
    destruct (segment_fov_inv _ _ _ _ _ Hs)
      as (top & k' & edt & t0 & t1 & smoothed & flooded & kept & H1 & H2 & H3
          & H4 & H5 & _).
    rewrite Hdata in H1. injection H1 as H1. rewrite <- H1 in H2.
    rewrite Hz in H2. injection H2 as H2. rewrite <- H2 in H3, H5.
    rewrite Hmax in H3. injection H3 as <-.
    rewrite Hk in H4. injection H4 as <-.
    now rewrite Hnan in H5.
Qed.

(** * Further properties *)

(** X1.  With [min_fiber_size = 0] nothing is removed: the filtered label
    image is the label image. *)
Theorem zero_min_size_keeps_every_object p c n fov s :
  segment_fov L p c n fov = Ok s ->
  min_fiber_size p = 0 ->
  forall i, cell_at (labeled_filtered s) i = cell_at (labeled s) i.
Proof using HL.
  intros H Hmin i.
  pose proof (segment_fov_binary _ _ _ _ _ H) as Hb.
  destruct (segment_fov_inv _ _ _ _ _ H)
    as (top & k & edt & t0 & t1 & smoothed & flooded & kept & _ & _ & _ & _
        & _ & _ & _ & _ & _ & _ & _ & _ & _ & _ & _ & _ & H17 & H18 & H19).
  rewrite H19, H17. rewrite H17 in H18.
  rewrite (filtered_is_kept _ _ _ i Hb H18).
  rewrite (remove_small_objects_cell _ _ _ i H18), Hmin. reflexivity.
Qed.

(** X2.  The returned dict has the fields of view of the data as its keys,
    and no other. *)
Theorem label_images_keys
    cfg data ch out_dir p props debug fs fs' table images :
  segment_fibers L cfg data ch out_dir p props debug fs
    = (fs', Ok (table, images)) ->
  forall fov, is_Some (images !! fov) <-> In fov (xr_fovs data).
Proof.
  intros Hrun fov.
  destruct (segment_fibers_inv _ _ _ _ _ _ _ _ _ _ _ Hrun)
    as (c & tabs & _ & _ & _ & _ & Hin & Hout).
  split.
  - intros [lf Hlf].
    destruct (in_dec string_dec fov (xr_fovs data)) as [Hfov | Hfov];
      [exact Hfov |].
    rewrite (Hout fov Hfov) in Hlf. discriminate.
  - intros Hfov. destruct (Hin fov Hfov) as (s & _ & Hs). eauto.
Qed.


(** * The files of a run *)

(** ** Lists of writes *)

Lemma apply_writes_last ws k v m :
  apply_writes (ws ++ [(k, v)]) m = <[ k := v ]> (apply_writes ws m).
Proof. unfold apply_writes. now rewrite fold_left_app. Qed.

(** A path holds what was written to it last, or what it held. *)
Lemma lookup_apply_writes ws m q :
  apply_writes ws m !! q
  = match List.find (fun kv => String.eqb (fst kv) q) (rev ws) with
    | Some kv => Some (snd kv)
    | None => m !! q
    end.
Proof.
  induction ws as [| [k v] ws IH] using rev_ind; [reflexivity |].
  rewrite apply_writes_last, rev_unit. simpl.
  destruct (String.eqb_spec k q) as [-> | Hne].
  - apply lookup_insert_eq.
  - rewrite lookup_insert_ne by exact Hne. exact IH.
Qed.

(** Writing the same list a second time changes nothing. *)
Lemma apply_writes_twice ws m :
  apply_writes ws (apply_writes ws m) = apply_writes ws m.
Proof.
  apply map_eq. intros q. rewrite !lookup_apply_writes.
  now destruct (List.find _ (rev ws)).
Qed.

Lemma apply_writes_keeps ws m q :
  is_Some (m !! q) -> is_Some (apply_writes ws m !! q).
Proof.
  intros H. rewrite lookup_apply_writes.
  destruct (List.find _ (rev ws)); [eauto | exact H].
Qed.

Lemma write_file_other q' a fs q :
  q <> q' -> files (fst (write_file q' a fs)) !! q = files fs !! q.
Proof.
  intros Hne.
  destruct (write_file_cases q' a fs) as [[_ ->] | [_ (e & ->)]]; [| reflexivity].
  simpl. apply lookup_insert_ne. congruence.
Qed.

(** ** What one pass and the loop write *)

Lemma pass_paths_In out_dir dpath fov debug q :
  In q (pass_paths out_dir dpath fov debug) <->
  q = os_path_join out_dir (fov +:+ "_fiber_labels.tiff") \/
  (debug = true /\
   exists sfx, In sfx ["_thresholded.tiff"; "_ridges_thresholded.tiff";
                       "_meijering_filter.tiff"; "_contrast_adjusted.tiff"] /\
               q = os_path_join dpath (fov +:+ sfx)).
Proof.
  unfold pass_paths, debug_paths. destruct debug; simpl.
  - split.
    + intros [<- | [<- | [<- | [<- | [<- | []]]]]];
        [right | right | right | right | left; reflexivity];
        (split; [reflexivity |]); eexists; (split; [| reflexivity]); tauto.
    + intros [-> | [_ (sfx & [<- | [<- | [<- | [<- | []]]]] & ->)]]; tauto.
  - split.
    + intros [<- | []]. now left.
    + intros [-> | [[=] _]]. now left.
Qed.

Lemma pass_writes_Forall (P : string -> Prop) out_dir dpath fov debug s :
  (forall q, In q (pass_paths out_dir dpath fov debug) -> P q) ->
  Forall (fun w => P (fst w)) (pass_writes out_dir dpath fov debug s).
Proof.
  intros H. apply List.Forall_forall. intros w Hw. apply H.
  rewrite <- (pass_writes_paths out_dir dpath fov debug s). now apply in_map.
Qed.

(** Once the writes of a pass are through, the label file holds the
    filtered label image. *)
Lemma pass_label_written out_dir dpath fov debug s fs fs1 u :
  write_all (pass_writes out_dir dpath fov debug s) fs = (fs1, Ok u) ->
  files fs1 !! os_path_join out_dir (fov +:+ "_fiber_labels.tiff")
  = Some (TiffInt (labeled_filtered s)).
Proof.
  intros H. apply write_all_ok in H. destruct H as [_ ->].
  unfold pass_writes. simpl files. rewrite apply_writes_last.
  apply lookup_insert_eq.
Qed.

(** A path that is none of the loop's is left as it was, however the
    loop ends. *)
Lemma fov_loop_other cfg p c n out_dir props debug dpath fovs q :
  (forall fov, In fov fovs ->
     q <> os_path_join out_dir (fov +:+ "_fiber_labels.tiff")) ->
  (debug = true ->
   forall fov sfx,
     In fov fovs ->
     In sfx ["_thresholded.tiff"; "_ridges_thresholded.tiff";
             "_meijering_filter.tiff"; "_contrast_adjusted.tiff"] ->
     q <> os_path_join dpath (fov +:+ sfx)) ->
  forall imgs tabs fs,
  files (fst (fov_loop L cfg p c n out_dir props debug dpath fovs imgs tabs fs))
    !! q
  = files fs !! q.
Proof.
  induction fovs as [| fov rest IH]; intros Hl Hd imgs tabs fs; [reflexivity |].
  rewrite fov_loop_cons.
  destruct (segment_fov L p c n fov) as [s | e]; [| reflexivity].
  assert (Hhere : files (fst (write_all (pass_writes out_dir dpath fov debug s) fs))
                    !! q
                  = files fs !! q).
  { apply write_all_other. rewrite pass_writes_paths, pass_paths_In.
    intros [E | [Hdbg (sfx & Hs & E)]].
    - revert E. apply Hl. now left.
    - revert E. apply (Hd Hdbg); [now left | exact Hs]. }
  destruct (write_all _ fs) as [fs1 [[] | e]]; simpl in Hhere; [| exact Hhere].
  destruct (regionprops_table L (labeled_filtered s) props) as [t | e];
    [| exact Hhere].
  rewrite IH; [exact Hhere | |].
  - intros f Hf. apply Hl. now right.
  - intros Hdbg f sfx Hf Hs. apply (Hd Hdbg); [now right | exact Hs].
Qed.

(** The table is not among the files of the loop. *)
Lemma fov_loop_table_path cfg p c n out_dir props debug dpath fovs imgs tabs fs :
  files (fst (fov_loop L cfg p c n out_dir props debug dpath fovs imgs tabs fs))
    !! os_path_join out_dir "fiber_object_table.csv"
  = files fs !! os_path_join out_dir "fiber_object_table.csv".
Proof.
  apply fov_loop_other.
  - intros fov _ E. symmetry in E. revert E.
    apply tiff_path_not_table. simpl. tauto.
  - intros _ fov sfx _ Hs E. symmetry in E. revert E.
    apply tiff_path_not_table. simpl in *. tauto.
Qed.



(** The files after the step that makes the debug directory are the
    files before it. *)
Lemma debug_step_files (debug : bool) dp fs :
  files (fst ((if debug then os_makedirs dp else io_ret tt) fs)) = files fs.
Proof. destruct debug; [apply os_makedirs_files | reflexivity]. Qed.

(** X5.  A path that is none of the outputs (the table, the label image
    of a field of view and, in debug mode, its four debug images) holds
    after the call what it held before, however the call ends. *)
Theorem other_files_are_left_alone cfg data ch out_dir p props debug fs q :
  q <> os_path_join out_dir "fiber_object_table.csv" ->
  (forall fov, In fov (xr_fovs data) ->
     q <> os_path_join out_dir (fov +:+ "_fiber_labels.tiff")) ->
  (debug = true ->
   forall fov sfx,
     In fov (xr_fovs data) ->
     In sfx ["_thresholded.tiff"; "_ridges_thresholded.tiff";
             "_meijering_filter.tiff"; "_contrast_adjusted.tiff"] ->
     q <> os_path_join (os_path_join out_dir "_debug") (fov +:+ sfx)) ->
  files (fst (segment_fibers L cfg data ch out_dir p props debug fs)) !! q
  = files fs !! q.
Proof.
  intros Hcsv Hl Hd. rewrite segment_fibers_eq.
  destruct (loc_channel data ch) as [c |] eqn:Ec; [| reflexivity].
  destruct (loc_channel_inv _ _ _ Ec) as (_ & Hf & _ & _).
  destruct (os_path_exists fs out_dir); [| reflexivity].
  pose proof (debug_step_files debug (os_path_join out_dir "_debug") fs) as Hfiles.
  destruct ((if debug then os_makedirs (os_path_join out_dir "_debug")
             else io_ret tt) fs) as [fs1 [[] | e]]; simpl in Hfiles;
    [| simpl; now rewrite Hfiles].
  rewrite <- Hfiles.
  match goal with
  | |- context [fov_loop ?a ?b ?c ?d ?e ?f ?g ?h ?i ?j ?k ?l fs1] =>
      pose proof (fov_loop_other b c d e f g h i j q) as Hloop;
      rewrite Hf in Hloop; specialize (Hloop Hl Hd k l fs1);
      rewrite <- Hf in Hloop;
      destruct (fov_loop a b c d e f g h i j k l fs1) as [fs2 [acc | e']]
  end; simpl in Hloop; [| exact Hloop].
  destruct (pd_concat (snd acc)) as [t |]; simpl; [| exact Hloop].
  pose proof (write_file_other (os_path_join out_dir "fiber_object_table.csv")
                (CsvTable t) fs2 q Hcsv) as Hw.
  destruct (write_file _ _ fs2) as [fs3 [[] | e]]; simpl in Hw |- *; congruence.
Qed.

(** X6.  A call that raises has not written the table: the path of
    [fiber_object_table.csv] holds what it held before. *)
Theorem no_table_when_the_call_raises
    cfg data ch out_dir p props debug fs e :
  snd (segment_fibers L cfg data ch out_dir p props debug fs) = Raise e ->
  files (fst (segment_fibers L cfg data ch out_dir p props debug fs))
    !! os_path_join out_dir "fiber_object_table.csv"
  = files fs !! os_path_join out_dir "fiber_object_table.csv".
Proof.
  rewrite segment_fibers_eq.
  destruct (loc_channel data ch) as [c |]; [| reflexivity].
  destruct (os_path_exists fs out_dir); [| reflexivity].
  pose proof (debug_step_files debug (os_path_join out_dir "_debug") fs) as Hfiles.
  destruct ((if debug then os_makedirs (os_path_join out_dir "_debug")
             else io_ret tt) fs) as [fs1 [[] | e1]]; simpl in Hfiles;
    [| simpl; now rewrite Hfiles].
  rewrite <- Hfiles.
  match goal with
  | |- context [fov_loop ?a ?b ?c ?d ?e ?f ?g ?h ?i ?j ?k ?l fs1] =>
      pose proof (fov_loop_table_path b c d e f g h i j k l fs1) as Hloop;
      destruct (fov_loop a b c d e f g h i j k l fs1) as [fs2 [acc | e']]
  end; simpl in Hloop; [| intros _; exact Hloop].
  destruct (pd_concat (snd acc)) as [t |]; simpl; [| intros _; exact Hloop].
  destruct (write_file _ _ fs2) as [fs3 [[] | e3]] eqn:Ew; simpl;
    [discriminate |].
  intros _. apply write_file_raise in Ew. now subst fs3.
Qed.

(** * Edge cases of a run *)


(** X8.  An image without a cell: the blurred image is empty as well and
    [np.max] refuses it, so the pass raises [ValueError]. *)
Theorem empty_image_raises_value_error p c n fov a b :
  loc_fov c fov = Ok a ->
  (snd (fst (ch_shape c)) = 0 \/ snd (ch_shape c) = 0)%nat ->
  gaussian_filter L a (blur p) = Ok b ->
  segment_fov L p c n fov = Raise ValueError.
Proof using HL.
  intros Ha Hzero Hb.
  destruct (loc_fov_shape _ _ _ Ha) as [Hshape Hwf].
  destruct (gaussian_filter_dims L HL _ _ _ Hb) as [_ Hlen].
  assert (Hnil : buf b = []).
  { apply length_zero_iff_nil. rewrite Hlen, Hwf, Hshape. simpl.
    destruct Hzero as [-> | ->]; lia. }
  unfold segment_fov. rewrite Ha. simpl bind. rewrite Hb. simpl bind.
  unfold np_max. now rewrite Hnil.
Qed.

Lemma py_truediv_zero n : py_truediv n 0 = Raise ZeroDivisionError.
Proof. reflexivity. Qed.

Lemma segment_fov_zero_divisor p c n fov s :
  contrast_scaling_divisor p = 0 -> segment_fov L p c n fov <> Ok s.
Proof.
  intros Hz H.
  destruct (segment_fov_inv _ _ _ _ _ H)
    as (top & k & edt & t0 & t1 & smoothed & flooded & kept & _ & _ & _ & H4 & _).
  rewrite Hz, py_truediv_zero in H4. discriminate.
Qed.

(** X9.  With [contrast_scaling_divisor = 0] nothing is ever returned:
    the kernel size [fov_len / 0] raises [ZeroDivisionError] in the
    first pass (once the image is blurred and its maximum taken), and
    neither function returns, whatever the data. *)
Theorem zero_divisor_never_returns cfg data ch out_dir p props debug fs fov :
  contrast_scaling_divisor p = 0 ->
  (forall c n a b,
     loc_fov c fov = Ok a -> gaussian_filter L a (blur p) = Ok b ->
     buf b <> [] ->
     segment_fov L p c n fov = Raise ZeroDivisionError) /\
  (forall pn, plot_fiber_segmentation_steps L data fov ch p <> Ok pn) /\
  (forall r, snd (segment_fibers L cfg data ch out_dir p props debug fs)
             <> Ok r).
Proof.
  intros Hz. split; [| split].
  - intros c n a b Ha Hb Hne.
    unfold segment_fov. rewrite Ha. simpl bind. rewrite Hb. simpl bind.
    unfold np_max. destruct (buf b) as [| x xs]; [contradiction |].
    simpl bind. now rewrite Hz, py_truediv_zero.
  - intros pn H. unfold plot_fiber_segmentation_steps in H.
    do 4 bind_ok H. rewrite Hz, py_truediv_zero in E2. discriminate.
  - intros [table images] H.
    destruct (segment_fibers L cfg data ch out_dir p props debug fs)
      as [fs' r] eqn:Hrun.
    simpl in H. subst r.
    destruct (segment_fibers_steps _ _ _ _ _ _ _ _ _ _ _ Hrun)
      as (c & fs1 & fs2 & tabs & _ & _ & _ & Hloop & Hcat & _).
    destruct (fov_loop_ok _ _ _ _ _ _ _ _ _ _ _ _ _ _ _ Hloop)
      as ((ts & Hts & ->) & Hin & _).
    destruct (xr_fovs data) as [| f rest].
    + simpl in Hts. injection Hts as <-. discriminate.
    + destruct (Hin f (or_introl eq_refl)) as (s & Hs & _).
      exact (segment_fov_zero_divisor _ _ _ _ _ Hz Hs).
Qed.

(** * The size filter *)

Lemma count_occ_kept b m l xs :
  l <> 0 ->
  count_occ Z.eq_dec (map (fun z => if bincount b z <? m then 0 else z) xs) l
  = if bincount b l <? m then O else count_occ Z.eq_dec xs l.
Proof.
  intros Hl. induction xs as [| x xs IH]; simpl.
  - now destruct (_ <? _).
  - rewrite IH. destruct (Z.eq_dec x l) as [-> | Hx].
    + destruct (bincount b l <? m).
      * destruct (Z.eq_dec 0 l); [congruence | reflexivity].
      * destruct (Z.eq_dec l l); [reflexivity | congruence].
    + destruct (bincount b x <? m).
      * destruct (Z.eq_dec 0 l); [congruence | reflexivity].
      * destruct (Z.eq_dec x l); [congruence | reflexivity].
Qed.

Lemma remove_small_objects_count ar m kept l :
  remove_small_objects ar m = Ok kept -> l <> 0 ->
  bincount (buf kept) l
  = if (m =? 0) || negb (bincount (buf ar) l <? m)
    then bincount (buf ar) l else 0.
Proof.
  unfold remove_small_objects. intros H Hl.
  destruct (m =? 0); [now injection H as <- |].
  destruct (existsb _ _); [discriminate |]. injection H as <-.
  unfold bincount at 1, np_map. simpl buf.
  rewrite count_occ_kept by exact Hl. simpl.
  now destruct (bincount (buf ar) l <? m).
Qed.

Lemma filtered_buf seg m kept :
  binary seg ->
  remove_small_objects (fst (ndi_label seg)) m = Ok kept ->
  buf (np_mul kept seg) = buf kept.
Proof.
  intros Hb Hk.
  pose proof (ndi_label_dims seg) as [_ E2].
  pose proof (remove_small_objects_dims _ _ _ Hk) as [_ E4].
  pose proof (filtered_dims _ _ _ Hk) as [_ E6].
  apply (nth_ext _ _ 0 0); [congruence |].
  intros i _. exact (filtered_is_kept seg m kept i Hb Hk).
Qed.

Lemma bincount_pos b l : 0 < bincount b l <-> In l b.
Proof.
  unfold bincount. rewrite (count_occ_In Z.eq_dec). lia.
Qed.

(** X10.  What the size filter does to an object of [labeled]: with
    fewer than [min_fiber_size] cells it is gone from the filtered
    image; otherwise it is there with all its cells.  So every object of
    the filtered image has at least [min_fiber_size] cells. *)
Theorem size_filter_keeps_large_objects p c n fov s l :
  segment_fov L p c n fov = Ok s ->
  l <> 0 ->
  (bincount (buf (labeled s)) l < min_fiber_size p ->
   ~ In l (buf (labeled_filtered s))) /\
  (min_fiber_size p <= bincount (buf (labeled s)) l ->
   bincount (buf (labeled_filtered s)) l = bincount (buf (labeled s)) l) /\
  (In l (buf (labeled_filtered s)) ->
   min_fiber_size p <= bincount (buf (labeled_filtered s)) l).
Proof using HL.
  intros H Hl.
  pose proof (segment_fov_binary _ _ _ _ _ H) as Hb.
  destruct (segment_fov_inv _ _ _ _ _ H)
    as (top & k & edt & t0 & t1 & smoothed & flooded & kept & _ & _ & _ & _
        & _ & _ & _ & _ & _ & _ & _ & _ & _ & _ & _ & _ & H17 & H18 & H19).
  rewrite H19. rewrite H17 in H18 |- *.
  rewrite (filtered_buf _ _ _ Hb H18).
  pose proof (remove_small_objects_count _ _ _ l H18 Hl) as Hc.
  pose proof (bincount_pos (buf kept) l) as Hpos.
  assert (Hnn : 0 <= bincount (buf (fst (ndi_label (segmentation s)))) l)
    by (unfold bincount; lia).
  destruct (Z.eqb_spec (min_fiber_size p) 0) as [Hm | Hm];
    destruct (Z.ltb_spec (bincount (buf (fst (ndi_label (segmentation s)))) l)
                         (min_fiber_size p)) as [Hlt | Hge];
    cbn [orb negb] in Hc.
  - lia.
  - split; [intros; lia |]. split; [intros _; exact Hc |].
    intros Hin. apply Hpos in Hin. lia.
  - split; [intros _ Hin; apply Hpos in Hin; lia |].
    split; [intros; lia |]. intros Hin. apply Hpos in Hin. lia.
  - split; [intros; lia |]. split; [intros _; exact Hc |].
    intros Hin. lia.
Qed.

(** * The table *)

Lemma sorted_labels_from s n :
  StronglySorted Z.lt (map Z.of_nat (seq s n)).
Proof.
  revert s. induction n as [| n IH]; intros s; simpl; constructor.
  - apply IH.
  - apply List.Forall_forall. intros y Hy. apply in_map_iff in Hy.
    destruct Hy as (k & <- & Hk). apply in_seq in Hk. lia.
Qed.

Lemma sorted_filter (f : Z -> bool) l :
  StronglySorted Z.lt l -> StronglySorted Z.lt (List.filter f l).
Proof.
  induction 1 as [| x l Hs IH Hx]; simpl; [constructor |].
  destruct (f x); [| exact IH].
  constructor; [exact IH |].
  apply List.Forall_forall. intros y Hy. apply filter_In in Hy.
  exact (proj1 (List.Forall_forall _ _) Hx y (proj1 Hy)).
Qed.

Lemma region_labels_sorted a : StronglySorted Z.lt (region_labels a).
Proof. unfold region_labels. apply sorted_filter, sorted_labels_from. Qed.

Lemma fov_table_labels cfg p c n props fov rows :
  fov_table L cfg p c n props fov = Ok rows ->
  exists s, segment_fov L p c n fov = Ok s /\
            map row_label rows = region_labels (labeled_filtered s).
Proof.
  unfold fov_table. intros H.
  destruct (segment_fov L p c n fov) as [s |]; simpl in H; [| discriminate].
  destruct (regionprops_table L (labeled_filtered s) props) as [t |] eqn:Et;
    simpl in H; [| discriminate].
  injection H as <-. exists s. split; [reflexivity |].
  rewrite set_column_labels. now apply regionprops_table_labels in Et.
Qed.

(** X11.  The order of the table: its label column is made of one
    group per field of view, in the order of the fields of view of the
    data, and the group of a field of view lists the values above 0 of
    its label image in increasing order. *)
Theorem table_is_grouped_and_sorted
    cfg data ch out_dir p props debug fs fs' table images :
  segment_fibers L cfg data ch out_dir p props debug fs
    = (fs', Ok (table, images)) ->
  exists groups,
    map row_label table = concat groups /\
    Forall2 (fun fov labels =>
               exists lf, images !! fov = Some lf /\
                          StronglySorted Z.lt labels /\
                          forall v, In v labels <-> 0 < v /\ In v (buf lf))
            (xr_fovs data) groups.
Proof.
  intros Hrun.
  destruct (segment_fibers_inv _ _ _ _ _ _ _ _ _ _ _ Hrun)
    as (c & tabs & _ & _ & Htabs & -> & Hin & _).
  exists (map (map row_label) tabs). split; [apply concat_map |].
  apply map_result_Forall2 in Htabs.
  clear Hrun. revert Hin Htabs. generalize (xr_fovs data). intros fovs0 Hin Htabs.
  induction Htabs as [| fov rows fovs tabs' Hrow _ IH]; simpl; constructor.
  - destruct (fov_table_labels _ _ _ _ _ _ _ Hrow) as (s & Hs & Hlab).
    destruct (Hin fov (or_introl eq_refl)) as (s' & Hs' & Himg).
    rewrite Hs in Hs'. injection Hs' as <-.
    exists (labeled_filtered s). split; [exact Himg |].
    rewrite Hlab. split; [apply region_labels_sorted |].
    intros v. apply region_labels_spec.
  - apply IH. intros f Hf. apply Hin. now right.
Qed.

(** * Debug mode *)

Lemma writable_more d ds q :
  writable ds q -> q <> d -> writable ({[ d ]} ∪ ds) q.
Proof.
  intros (H1 & H2 & H3) Hne. split; [exact H1 |]. split.
  - destruct H2 as [H2 | H2]; [now left | right].
    apply elem_of_union. now right.
  - intros H. apply elem_of_union in H. destruct H as [H | H]; [| contradiction].
    apply elem_of_singleton in H. contradiction.
Qed.

Lemma is_dir_false fs q : is_dir fs q = false <-> q ∉ dirs fs.
Proof. apply bool_decide_eq_false. Qed.

Lemma has_sep_suffix g sfx :
  has_sep g = false ->
  In sfx ["_thresholded.tiff"; "_ridges_thresholded.tiff";
          "_meijering_filter.tiff"; "_contrast_adjusted.tiff";
          "_fiber_labels.tiff"] ->
  has_sep (g +:+ sfx) = false /\ g +:+ sfx <> EmptyString.
Proof.
  intros Hg Hs. rewrite has_sep_app, Hg.
  simpl in Hs. destruct Hs as [<- | [<- | [<- | [<- | [<- | []]]]]];
    (split; [reflexivity | now apply append_nonempty]).
Qed.

(** A debug image of a field of view whose name holds no separator can
    be written once the debug directory is made, unless its path is
    that of a directory. *)
Lemma debug_path_writable out_dir g ds q :
  has_sep g = false ->
  In q (debug_paths (os_path_join out_dir "_debug") g) ->
  q ∉ ds ->
  writable ({[ os_path_join out_dir "_debug" ]} ∪ ds) q.
Proof.
  intros Hg Hq Hnd.
  assert (Hs : exists sfx,
             In sfx ["_thresholded.tiff"; "_ridges_thresholded.tiff";
                     "_meijering_filter.tiff"; "_contrast_adjusted.tiff"] /\
             q = os_path_join (os_path_join out_dir "_debug") (g +:+ sfx)).
  { unfold debug_paths in Hq. simpl in Hq.
    destruct Hq as [<- | [<- | [<- | [<- | []]]]]; eexists;
      (split; [| reflexivity]); simpl; tauto. }
  destruct Hs as (sfx & Hsfx & ->).
  destruct (has_sep_suffix g sfx Hg) as [Hns Hne]; [simpl in *; tauto |].
  assert (Hdp : os_path_join (os_path_join out_dir "_debug") (g +:+ sfx)
                <> os_path_join out_dir "_debug")
    by (apply debug_path_not_file; simpl in *; tauto).
  split; [now apply os_path_join_nonempty |]. split.
  - right. rewrite dirname_join by (apply debug_path_plain || exact Hns).
    apply elem_of_union. left. now apply elem_of_singleton.
  - intros H. apply elem_of_union in H. destruct H as [H | H]; [| contradiction].
    apply elem_of_singleton in H. contradiction.
Qed.

(** The label image of a field of view whose name holds no separator
    can be written into an output directory that is a directory,
    unless its path is that of a directory. *)
Lemma label_path_writable out_dir g ds :
  out_dir ∈ ds -> ends_with_sep out_dir = false -> has_sep g = false ->
  os_path_join out_dir (g +:+ "_fiber_labels.tiff") ∉ ds ->
  writable ds (os_path_join out_dir (g +:+ "_fiber_labels.tiff")).
Proof.
  intros Hdir Hsep Hg Hnd.
  destruct (has_sep_suffix g "_fiber_labels.tiff" Hg) as [Hns Hne];
    [simpl; tauto |].
  split; [now apply os_path_join_nonempty |]. split; [| exact Hnd].
  right. now rewrite dirname_join.
Qed.

Lemma loop_writes_In p c n out_dir dpath debug fovs w :
  In w (loop_writes L p c n out_dir dpath debug fovs) ->
  exists fov, In fov fovs /\ In (fst w) (pass_paths out_dir dpath fov debug).
Proof.
  unfold loop_writes. intros H. apply in_flat_map in H.
  destruct H as (fov & Hfov & Hw). exists fov. split; [exact Hfov |].
  destruct (segment_fov L p c n fov) as [s |]; [| destruct Hw].
  rewrite <- (pass_writes_paths out_dir dpath fov debug s). now apply in_map.
Qed.

Lemma loop_writes_label p c n out_dir dpath debug fovs fov s :
  In fov fovs -> segment_fov L p c n fov = Ok s ->
  In (os_path_join out_dir (fov +:+ "_fiber_labels.tiff"),
      TiffInt (labeled_filtered s))
     (loop_writes L p c n out_dir dpath debug fovs).
Proof.
  intros Hfov Hs. unfold loop_writes. apply in_flat_map.
  exists fov. split; [exact Hfov |]. rewrite Hs.
  unfold pass_writes. apply in_or_app. right. now left.
Qed.

(** X12.  Debug mode changes nothing of what is returned.  Where a call
    without it returns, [_debug] is yet to be made, no name of a field
    of view holds a separator and no path of a debug image is that of a
    directory, the call with it returns the same table and the same
    label images, and has made [_debug]. *)
Theorem debug_mode_returns_the_same
    cfg data ch out_dir p props fs fs1 table images :
  segment_fibers L cfg data ch out_dir p props false fs
    = (fs1, Ok (table, images)) ->
  os_path_exists fs (os_path_join out_dir "_debug") = false ->
  Forall (fun f => has_sep f = false) (xr_fovs data) ->
  (forall fov q,
     In fov (xr_fovs data) ->
     In q (debug_paths (os_path_join out_dir "_debug") fov) ->
     is_dir fs q = false) ->
  exists fs2,
    segment_fibers L cfg data ch out_dir p props true fs
      = (fs2, Ok (table, images)) /\
    dirs fs2 = {[ os_path_join out_dir "_debug" ]} ∪ dirs fs1.
Proof.
  intros Hrun Hd Hnames Hfree.
  destruct (segment_fibers_steps _ _ _ _ _ _ _ _ _ _ _ Hrun)
    as (c & fs0 & fs2 & tabs & Hc & Hout & Hm & Hloop & Hcat & Hcsv & ->).
  injection Hm as <-.
  destruct (loc_channel_inv _ _ _ Hc) as (_ & Hcf & Hcs & _).
  destruct (fov_loop_ok_files _ _ _ _ _ _ _ _ _ _ _ _ _ _ Hloop) as [Hws Hfs2].
  pose proof (fov_loop_ok _ _ _ _ _ _ _ _ _ _ _ _ _ _ _ Hloop)
    as ((ts & Hts & Htabs) & Hin & _).
  assert (Hdirs2 : dirs fs2 = dirs fs) by now rewrite Hfs2.
  rewrite Hdirs2 in Hcsv.
  set (dp := os_path_join out_dir "_debug") in *.
  assert (Hmk : os_makedirs dp fs = (FS ({[ dp ]} ∪ dirs fs) (files fs), Ok tt)).
  { apply makedirs_debug_new; [| exact Hd].
    unfold dp.
    rewrite (dirname_join_same out_dir "_debug" "fiber_object_table.csv")
      by reflexivity.
    exact (proj1 (proj2 Hcsv)). }
  assert (Hall : Forall (fun w => writable ({[ dp ]} ∪ dirs fs) (fst w))
                        (loop_writes L p c (xr_rows data) out_dir dp true
                                     (xr_fovs data))).
  { apply List.Forall_forall. intros w Hw.
    destruct (loop_writes_In _ _ _ _ _ _ _ _ Hw) as (fov & Hfov & Hq).
    apply pass_paths_In in Hq.
    destruct Hq as [Hq | [_ (sfx & Hsfx & Hq)]]; rewrite Hq.
    - destruct (Hin fov Hfov) as (s & Hs & _).
      apply writable_more.
      + exact (proj1 (List.Forall_forall _ _) Hws _
                 (loop_writes_label p c (xr_rows data) out_dir dp false
                    (xr_fovs data) fov s Hfov Hs)).
      + apply debug_path_not_file. simpl. tauto.
    - apply (debug_path_writable out_dir fov).
      + exact (proj1 (List.Forall_forall _ _) Hnames fov Hfov).
      + unfold debug_paths. simpl in Hsfx |- *.
        destruct Hsfx as [<- | [<- | [<- | [<- | []]]]]; tauto.
      + apply is_dir_false. apply (Hfree fov); [exact Hfov |].
        unfold debug_paths. simpl in Hsfx |- *.
        destruct Hsfx as [<- | [<- | [<- | [<- | []]]]]; tauto. }
  destruct (fov_loop_run cfg p c (xr_rows data) out_dir props true dp (xr_fovs data)
              ts ∅ [] (FS ({[ dp ]} ∪ dirs fs) (files fs)) Hts Hall)
    as (imgs & Hloop2).
  pose proof (fov_loop_acc _ _ _ _ _ _ _ _ _ _ _ _ _ _ _ _ _ _ _ _ Hloop2 Hloop)
    as Hacc.
  injection Hacc as -> Htabs2.
  rewrite segment_fibers_eq, Hc, Hout. cbv beta iota. fold dp.
  rewrite Hmk, Hcf, Hcs. simpl snd at 1. simpl fst at 1.
  rewrite Hloop2. simpl snd. simpl fst. rewrite Htabs2, Hcat.
  rewrite write_file_run.
  - eexists. split; [reflexivity |]. simpl. now rewrite Hdirs2.
  - simpl dirs. apply writable_more; [exact Hcsv |].
    apply (debug_path_not_file out_dir out_dir ""). simpl. tauto.
Qed.

(** * Running again *)

Lemma os_path_exists_kept fs fs' p :
  dirs fs ⊆ dirs fs' ->
  (forall q, is_Some (files fs !! q) -> is_Some (files fs' !! q)) ->
  os_path_exists fs p = true -> os_path_exists fs' p = true.
Proof.
  unfold os_path_exists. intros Hd Hf H.
  apply orb_true_iff in H. apply orb_true_iff.
  destruct H as [H | H]; [left | right].
  - apply bool_decide_eq_true in H. apply bool_decide_eq_true. now apply Hd.
  - apply bool_decide_eq_true in H. apply bool_decide_eq_true. now apply Hf.
Qed.

(** X22.  Without debug mode a run can be repeated: run again on what
    it left behind, a call that returned returns the same values and
    leaves every directory and every file as the first run left them. *)
Theorem rerun_changes_nothing
    cfg data ch out_dir p props fs fs1 table images :
  segment_fibers L cfg data ch out_dir p props false fs
    = (fs1, Ok (table, images)) ->
  segment_fibers L cfg data ch out_dir p props false fs1
    = (fs1, Ok (table, images)).
Proof.
  intros Hrun.
  destruct (segment_fibers_steps _ _ _ _ _ _ _ _ _ _ _ Hrun)
    as (c & fs0 & fs2 & tabs & Hc & Hout & Hm & Hloop & Hcat & Hcsv & ->).
  injection Hm as <-.
  destruct (loc_channel_inv _ _ _ Hc) as (_ & Hcf & Hcs & _).
  destruct (fov_loop_ok_files _ _ _ _ _ _ _ _ _ _ _ _ _ _ Hloop) as [Hws ->].
  pose proof (fov_loop_ok _ _ _ _ _ _ _ _ _ _ _ _ _ _ _ Hloop)
    as ((ts & Hts & Htabs) & _ & _).
  simpl dirs in *. simpl files in *.
  set (dp := os_path_join out_dir "_debug") in *.
  set (ws := loop_writes L p c (xr_rows data) out_dir dp false (xr_fovs data)) in *.
  set (csv := os_path_join out_dir "fiber_object_table.csv") in *.
  set (fs1 := FS (dirs fs) (<[ csv := CsvTable table ]> (apply_writes ws (files fs)))).
  assert (Hall : files fs1
                 = apply_writes (ws ++ [(csv, CsvTable table)]) (files fs))
    by (unfold fs1; simpl; now rewrite apply_writes_last).
  assert (Hout1 : os_path_exists fs1 out_dir = true).
  { apply (os_path_exists_kept fs); [reflexivity | | exact Hout].
    intros q Hq. rewrite Hall. now apply apply_writes_keeps. }
  destruct (fov_loop_run cfg p c (xr_rows data) out_dir props false dp (xr_fovs data)
              ts ∅ [] fs1 Hts Hws) as (imgs & Hloop2).
  pose proof (fov_loop_acc _ _ _ _ _ _ _ _ _ _ _ _ _ _ _ _ _ _ _ _ Hloop2 Hloop)
    as Hacc.
  injection Hacc as -> Htabs2.
  rewrite segment_fibers_eq, Hc, Hout1, Hcf, Hcs. unfold io_ret.
  simpl snd at 1. simpl fst at 1. fold dp.
  rewrite Hloop2. simpl snd. simpl fst. rewrite Htabs2, Hcat. fold csv.
  rewrite write_file_run by exact Hcsv.
  f_equal. unfold fs1 at 3. simpl dirs. f_equal. simpl files.
  fold ws. rewrite <- !apply_writes_last, <- Hall.
  rewrite Hall at 1. rewrite Hall. apply apply_writes_twice.
Qed.

Lemma fov_loop_keeps_files cfg p c n out_dir props debug dpath fovs q :
  forall imgs tabs fs,
  is_Some (files fs !! q) ->
  is_Some (files (fst (fov_loop L cfg p c n out_dir props debug dpath fovs
                                imgs tabs fs)) !! q).
Proof.
  induction fovs as [| fov rest IH]; intros imgs tabs fs Hq; [exact Hq |].
  rewrite fov_loop_cons.
  destruct (segment_fov L p c n fov) as [s | e]; [| exact Hq].
  pose proof (write_all_keeps (pass_writes out_dir dpath fov debug s) fs q Hq)
    as Hs.
  destruct (write_all _ fs) as [fs1 [[] | e]]; simpl in Hs; [| exact Hs].
  destruct (regionprops_table L (labeled_filtered s) props) as [t | e];
    [now apply IH | exact Hs].
Qed.

(** X23.  With debug mode a run cannot be repeated: once a call in
    debug mode has made [_debug] in an output directory, however that
    call ended, every further call in debug mode for that directory
    raises at once and leaves the file system as it is, whatever the
    fields of view, the keyword arguments and the library:
    [FileExistsError] when its channel is one of its data, [KeyError]
    otherwise. *)
Theorem debug_run_cannot_be_repeated
    cfg data ch out_dir p props fs L' cfg' data' ch' p' props' :
  has_name (xr_channels data) ch = true ->
  is_dir fs out_dir = true ->
  ends_with_sep out_dir = false ->
  os_path_exists fs (os_path_join out_dir "_debug") = false ->
  segment_fibers L' cfg' data' ch' out_dir p' props' true
    (fst (segment_fibers L cfg data ch out_dir p props true fs))
  = (fst (segment_fibers L cfg data ch out_dir p props true fs),
     Raise (if has_name (xr_channels data') ch' then FileExistsError
            else KeyError)).
Proof.
  intros Hch Hdir Hsep Hd.
  assert (Hdirs : dirs (fst (segment_fibers L cfg data ch out_dir p props true fs))
                  = {[ os_path_join out_dir "_debug" ]} ∪ dirs fs).
  { rewrite segment_fibers_dirs. unfold loc_channel.
    rewrite Hch, (is_dir_exists _ _ Hdir). simpl.
    now rewrite makedirs_debug_run. }
  set (fs1 := fst (segment_fibers L cfg data ch out_dir p props true fs)) in *.
  assert (Hdir1 : out_dir ∈ dirs fs1).
  { rewrite Hdirs. apply elem_of_union. right. now apply is_dir_elem. }
  assert (Hdp1 : os_path_join out_dir "_debug" ∈ dirs fs1).
  { rewrite Hdirs. apply elem_of_union. left. now apply elem_of_singleton. }
  rewrite segment_fibers_eq. unfold loc_channel.
  destruct (has_name (xr_channels data') ch'); [| reflexivity].
  rewrite (is_dir_exists fs1 out_dir) by now apply is_dir_elem.
  rewrite makedirs_debug_exists; [reflexivity | |].
  - right. now rewrite dirname_join by (exact Hsep || reflexivity).
  - apply is_dir_exists. now apply is_dir_elem.
Qed.

(** * A pass that fails *)

Lemma fov_table_inv cfg p c n props fov :
  fov_table L cfg p c n props fov =
  match segment_fov L p c n fov with
  | Raise e => Raise e
  | Ok s => match regionprops_table L (labeled_filtered s) props with
            | Raise e => Raise e
            | Ok t => Ok (set_column (FOV_ID cfg) (CStr fov) t)
            end
  end.
Proof.
  unfold fov_table. destruct (segment_fov L p c n fov) as [s |]; simpl;
    [| reflexivity].
  now destruct (regionprops_table L (labeled_filtered s) props).
Qed.

Lemma fov_loop_first_failure cfg p c n out_dir props debug dpath pre f post e :
  forall ts,
  map_result (fov_table L cfg p c n props) pre = Ok ts ->
  fov_table L cfg p c n props f = Raise e ->
  forall imgs tabs fs,
    (forall g q, In g (pre ++ [f]) ->
                 In q (pass_paths out_dir dpath g debug) ->
                 writable (dirs fs) q) ->
    snd (fov_loop L cfg p c n out_dir props debug dpath (pre ++ f :: post)
                  imgs tabs fs) = Raise e /\
    forall g, In g pre ->
      is_Some (files (fst (fov_loop L cfg p c n out_dir props debug dpath
                                    (pre ++ f :: post) imgs tabs fs))
                 !! os_path_join out_dir (g +:+ "_fiber_labels.tiff")).
Proof.
  induction pre as [| g0 pre IH]; intros ts Hpre Hf imgs tabs fs Hw.
  - split; [| intros g []]. simpl app. rewrite fov_loop_cons.
    rewrite fov_table_inv in Hf.
    destruct (segment_fov L p c n f) as [s |]; [| now injection Hf as <-].
    rewrite write_all_run
      by (apply pass_writes_Forall; intros q Hq; apply (Hw f); [now left | exact Hq]).
    destruct (regionprops_table L (labeled_filtered s) props);
      [discriminate | now injection Hf as <-].
  - simpl in Hpre.
    destruct (fov_table L cfg p c n props g0) as [t0 |] eqn:E0; simpl in Hpre;
      [| discriminate].
    destruct (map_result (fov_table L cfg p c n props) pre) as [ts' |] eqn:Ets;
      simpl in Hpre; [| discriminate].
    rewrite fov_table_inv in E0.
    simpl app. rewrite fov_loop_cons.
    destruct (segment_fov L p c n g0) as [s |]; [| discriminate].
    assert (Hrun : write_all (pass_writes out_dir dpath g0 debug s) fs
                   = (FS (dirs fs)
                         (apply_writes (pass_writes out_dir dpath g0 debug s)
                                       (files fs)), Ok tt)).
    { apply write_all_run, pass_writes_Forall.
      intros q Hq. apply (Hw g0); [now left | exact Hq]. }
    rewrite Hrun.
    destruct (regionprops_table L (labeled_filtered s) props) as [t |];
      [| discriminate].
    destruct (IH ts' eq_refl Hf (<[ g0 := labeled_filtered s ]> imgs)
                 (tabs ++ [set_column (FOV_ID cfg) (CStr g0) t])
                 (FS (dirs fs)
                     (apply_writes (pass_writes out_dir dpath g0 debug s)
                                   (files fs))))
      as [Hraise Hfiles].
    { intros g q Hg Hq. apply (Hw g); [now right | exact Hq]. }
    split; [exact Hraise |].
    intros g [<- | Hg]; [| now apply Hfiles].
    apply fov_loop_keeps_files.
    rewrite (pass_label_written _ _ _ _ _ _ _ _ Hrun). eauto.
Qed.

(** X24.  The loop stops at the first field of view that fails.  Let
    the output directory be a directory (written without a trailing
    separator, with no [_debug] in it in debug mode), and let the names
    of [f] and of the fields of view before it hold no separator and
    none of their output paths be that of a directory.  When the passes
    of the fields of view before [f] go through and that of [f] raises
    [e], the call raises [e], whatever comes after [f]; the label images
    of the fields of view before [f] are on disk by then. *)
Theorem first_failing_fov_decides
    cfg data ch out_dir p props debug fs c pre f post ts e :
  loc_channel data ch = Ok c ->
  xr_fovs data = (pre ++ f :: post)%list ->
  is_dir fs out_dir = true ->
  ends_with_sep out_dir = false ->
  (debug = true -> os_path_exists fs (os_path_join out_dir "_debug") = false) ->
  (forall g, In g (pre ++ [f]) ->
     has_sep g = false /\
     forall q, In q (pass_paths out_dir (os_path_join out_dir "_debug") g debug) ->
               is_dir fs q = false) ->
  map_result (fov_table L cfg p c (xr_rows data) props) pre = Ok ts ->
  fov_table L cfg p c (xr_rows data) props f = Raise e ->
  snd (segment_fibers L cfg data ch out_dir p props debug fs) = Raise e /\
  forall g, In g pre ->
    is_Some (files (fst (segment_fibers L cfg data ch out_dir p props debug fs))
               !! os_path_join out_dir (g +:+ "_fiber_labels.tiff")).
Proof.
  intros Hc Hfovs Hdir Hsep Hdbg Hfree Hpre Hf.
  destruct (loc_channel_inv _ _ _ Hc) as (_ & Hcf & Hcs & _).
  rewrite segment_fibers_eq, Hc, (is_dir_exists _ _ Hdir), Hcf, Hcs, Hfovs.
  simpl snd at 2 4.
  set (dp := os_path_join out_dir "_debug") in *.
  assert (Hm : exists fs1,
             (if debug then os_makedirs dp else io_ret tt) fs = (fs1, Ok tt) /\
             dirs fs1 = if debug then {[ dp ]} ∪ dirs fs else dirs fs).
  { destruct debug.
    - unfold dp. rewrite (makedirs_debug_run _ _ Hdir Hsep (Hdbg eq_refl)).
      eexists. split; reflexivity.
    - exists fs. split; reflexivity. }
  destruct Hm as (fs1 & -> & Hdirs1).
  assert (Hw : forall g q, In g (pre ++ [f]) ->
                 In q (pass_paths out_dir dp g debug) -> writable (dirs fs1) q).
  { intros g q Hg Hq. destruct (Hfree g Hg) as [Hns Hnd].
    specialize (Hnd q Hq). apply is_dir_false in Hnd.
    rewrite Hdirs1. apply pass_paths_In in Hq.
    destruct Hq as [-> | [-> (sfx & Hsfx & ->)]].
    - assert (Hlab : writable (dirs fs)
                       (os_path_join out_dir (g +:+ "_fiber_labels.tiff")))
        by (apply label_path_writable; auto; now apply is_dir_elem).
      destruct debug; [| exact Hlab].
      apply writable_more; [exact Hlab |].
      apply debug_path_not_file. simpl. tauto.
    - apply (debug_path_writable out_dir g); [exact Hns | | exact Hnd].
      unfold debug_paths. simpl in Hsfx |- *.
      destruct Hsfx as [<- | [<- | [<- | [<- | []]]]]; tauto. }
  destruct (fov_loop_first_failure cfg p c (xr_rows data) out_dir props debug
              dp pre f post e ts Hpre Hf ∅ [] fs1 Hw)
    as [Hraise Hfiles].
  destruct (fov_loop L cfg p c (xr_rows data) out_dir props debug
                     dp (pre ++ f :: post) ∅ [] fs1)
    as [fs2 r].
  simpl in Hraise, Hfiles. subst r. split; [reflexivity | exact Hfiles].
Qed.

(** * An output directory that is no directory *)

Lemma entry_error_under_file fs q :
  q <> EmptyString -> os_path_dirname q <> EmptyString ->
  is_dir fs (os_path_dirname q) = false ->
  os_path_exists fs (os_path_dirname q) = true ->
  entry_error fs q = Some NotADirectoryError.
Proof.
  intros Hq Hd Hnd Hex. unfold entry_error.
  destruct q as [| c0 q0]; [congruence |].
  unfold os_path_exists in Hex. unfold is_dir in Hnd.
  rewrite Hnd in Hex. simpl in Hex.
  destruct (os_path_dirname (String c0 q0)) as [| c d]; [congruence |].
  destruct (String.length (String c0 q0)); cbn [dir_error];
    now rewrite Hnd, Hex.
Qed.

(** X26.  An output directory has to be a directory.  A regular file
    in its place passes the existence test of line 161, but nothing can
    be made in it: for a channel of the data, in debug mode
    [os.makedirs] raises [NotADirectoryError], and without debug mode
    the first [imsave] does, once the first pass is through; the file
    system is left as it was. *)
Theorem file_as_out_dir_raises cfg data ch out_dir p props debug fs :
  has_name (xr_channels data) ch = true ->
  out_dir <> EmptyString ->
  ends_with_sep out_dir = false ->
  os_path_exists fs out_dir = true ->
  is_dir fs out_dir = false ->
  (debug = true ->
   segment_fibers L cfg data ch out_dir p props debug fs
   = (fs, Raise NotADirectoryError)) /\
  (debug = false ->
   forall c f rest s,
     loc_channel data ch = Ok c ->
     xr_fovs data = f :: rest ->
     has_sep f = false ->
     segment_fov L p c (xr_rows data) f = Ok s ->
     segment_fibers L cfg data ch out_dir p props debug fs
     = (fs, Raise NotADirectoryError)).
Proof.
  intros Hch Hne Hsep Hex Hnd. split.
  - intros ->. rewrite segment_fibers_eq. unfold loc_channel. rewrite Hch, Hex.
    assert (Hdn : os_path_dirname (os_path_join out_dir "_debug") = out_dir)
      by now apply dirname_join.
    rewrite os_makedirs_plain;
      [| apply debug_path_basename | right; now rewrite Hdn].
    unfold os_mkdir. rewrite entry_error_under_file; [reflexivity | | | |];
      rewrite ?Hdn; auto.
    now apply os_path_join_nonempty.
  - intros -> c f rest s Hc Hfovs Hf Hs.
    destruct (loc_channel_inv _ _ _ Hc) as (_ & Hcf & Hcs & _).
    rewrite segment_fibers_eq, Hc, Hex, Hcf, Hcs, Hfovs. unfold io_ret.
    simpl snd at 1. rewrite fov_loop_cons, Hs.
    unfold pass_writes. simpl app. cbn [write_all fst snd]. unfold io_bind.
    destruct (has_sep_suffix f "_fiber_labels.tiff" Hf) as [Hns Hnn];
      [simpl; tauto |].
    assert (Hdn : os_path_dirname
                    (os_path_join out_dir (f +:+ "_fiber_labels.tiff")) = out_dir)
      by now apply dirname_join.
    unfold write_file, write_error.
    rewrite entry_error_under_file; [reflexivity | | | |]; rewrite ?Hdn; auto.
    now apply os_path_join_nonempty.
Qed.

End Pipeline.

(** * Dimensionality reduction: the figure registry *)

Lemma on_current_last change l num f :
  on_current change (l ++ [(num, f)]) = (l ++ [(num, change f)])%list.
Proof. unfold on_current. rewrite rev_unit, rev_involutive. reflexivity. Qed.

Lemma current_figure_last l num f : current_figure (l ++ [(num, f)]) = f.
Proof. unfold current_figure. now rewrite rev_unit. Qed.

Lemma find_figure_here num figs f :
  find_figure num
    (List.filter (fun nf => negb (fst nf =? num)) figs ++ [(num, f)]) = Some f.
Proof.
  unfold find_figure. induction figs as [| [k g] figs IH]; simpl.
  - now rewrite Z.eqb_refl.
  - destruct (Z.eqb_spec k num) as [-> | Hk]; simpl; [exact IH |].
    destruct (Z.eqb_spec k num); [contradiction | exact IH].
Qed.

Lemma find_figure_others num m figs f :
  m <> num ->
  find_figure m
    (List.filter (fun nf => negb (fst nf =? num)) figs ++ [(num, f)])
  = find_figure m figs.
Proof.
  intros Hne. unfold find_figure. induction figs as [| [k g] figs IH]; simpl.
  - destruct (Z.eqb_spec num m); [congruence | reflexivity].
  - destruct (Z.eqb_spec k num) as [-> | Hk]; simpl.
    + destruct (Z.eqb_spec num m); [congruence | exact IH].
    + destruct (Z.eqb_spec k m); [reflexivity | exact IH].
Qed.

(** * Dimensionality reduction: frames *)

Lemma column_positions_lt labels name i :
  In i (column_positions labels name) -> (i < length labels)%nat.
Proof.
  unfold column_positions. rewrite filter_In, in_seq. lia.
Qed.

Lemma column_positions_none labels name :
  column_positions labels name = [] <-> ~ In name labels.
Proof.
  unfold column_positions. split.
  - intros Hnil Hin. apply (In_nth _ _ ""%string) in Hin.
    destruct Hin as (i & Hi & E).
    assert (Hf : In i (List.filter (fun i => String.eqb (nth i labels "") name)
                                   (seq 0 (length labels)))).
    { apply filter_In. split; [apply in_seq; lia |].
      rewrite E. apply String.eqb_refl. }
    rewrite Hnil in Hf. contradiction.
  - intros Hn.
    destruct (List.filter _ _) as [| i t] eqn:E; [reflexivity |].
    assert (Hi : In i (i :: t)) by now left.
    rewrite <- E in Hi. apply filter_In in Hi. destruct Hi as [Hi Hname].
    apply in_seq in Hi. apply String.eqb_eq in Hname.
    exfalso. apply Hn. rewrite <- Hname. apply nth_In. lia.
Qed.

(** Looking columns up fails with [KeyError] and with nothing else. *)
Lemma locate_columns_raise labels wanted e :
  locate_columns labels wanted = Raise e ->
  e = KeyError /\ exists name, In name wanted /\ ~ In name labels.
Proof.
  unfold locate_columns. induction wanted as [| w wanted IH]; simpl;
    [discriminate |].
  destruct (column_positions labels w) as [| i ps] eqn:Ew; simpl.
  - intros [= <-]. split; [reflexivity |].
    exists w. split; [now left | now apply column_positions_none].
  - destruct (map_result _ wanted) as [gs |] eqn:Em; simpl; [discriminate |].
    intros [= <-]. destruct (IH eq_refl) as (He & name & Hin & Hn).
    split; [exact He |]. exists name. split; [now right | exact Hn].
Qed.

Lemma locate_columns_missing labels wanted name :
  In name wanted -> ~ In name labels ->
  locate_columns labels wanted = Raise KeyError.
Proof.
  intros Hin Hn.
  destruct (locate_columns labels wanted) as [ps | e] eqn:E.
  - exfalso. revert ps E Hin. unfold locate_columns.
    induction wanted as [| w wanted IH]; intros ps E Hin; [contradiction |].
    simpl in E.
    destruct (column_positions labels w) as [| i t] eqn:Ew; simpl in E;
      [discriminate |].
    destruct (map_result _ wanted) as [gs |] eqn:Em; simpl in E;
      [| discriminate].
    destruct Hin as [-> | Hin].
    + apply column_positions_none in Hn. rewrite Hn in Ew. discriminate.
    + exact (IH _ eq_refl Hin).
  - now destruct (locate_columns_raise _ _ _ E) as [-> _].
Qed.

Lemma locate_columns_lt labels wanted ps i :
  locate_columns labels wanted = Ok ps -> In i ps -> (i < length labels)%nat.
Proof.
  unfold locate_columns. revert ps.
  induction wanted as [| w wanted IH]; intros ps; simpl.
  - intros [= <-] [].
  - destruct (column_positions labels w) as [| j t] eqn:Ew; simpl;
      [discriminate |].
    destruct (map_result _ wanted) as [gs |] eqn:Em; simpl; [| discriminate].
    intros [= <-] Hi. change (In i ((j :: t) ++ concat gs)) in Hi.
    apply in_app_or in Hi. destruct Hi as [Hi | Hi].
    + rewrite <- Ew in Hi. exact (column_positions_lt _ _ _ Hi).
    + exact (IH _ eq_refl Hi).
Qed.

Lemma dropna_idempotent d : dropna (dropna d) = dropna d.
Proof.
  unfold dropna. simpl. f_equal.
  induction (df_rows d) as [| r rows IH]; simpl; [reflexivity |].
  destruct (negb (existsb isna r)) eqn:E; simpl; [rewrite E |]; now rewrite IH.
Qed.

Lemma dropna_complete d r v :
  In r (df_rows (dropna d)) -> In v r -> isna v = false.
Proof.
  unfold dropna. simpl. rewrite filter_In. intros [_ Hr] Hv.
  apply negb_true_iff in Hr.
  destruct (isna v) eqn:E; [| reflexivity].
  assert (existsb isna r = true) by (apply existsb_exists; eauto). congruence.
Qed.

Lemma dropna_rectangular d : rectangular d -> rectangular (dropna d).
Proof.
  unfold rectangular, dropna. simpl. intros H.
  apply List.Forall_forall. intros r Hr. apply filter_In in Hr.
  exact (proj1 (List.Forall_forall _ _) H r (proj1 Hr)).
Qed.

(** * Dimensionality reduction: the two functions, outcome by outcome *)

Section Visualization.

Variable V : vizlib.

Lemma plot_dim_reduced_data_eq c1 c2 id hue d title o sd sf st :
  plot_dim_reduced_data V c1 c2 id hue d title o sd sf st =
  let sc := {| sc_x := c1; sc_y := c2; sc_hue := hue; sc_palette := palette o;
               sc_data := d; sc_legend := legend_type o; sc_alpha := alpha o |} in
  match scatterplot_check V sc with
  | Raise e => (after_drawing id (figure_before id st) st, Raise e)
  | Ok _ =>
    let fig := drawn sc title o (figure_before id st) in
    match sd with
    | None => (after_drawing id fig st, Ok tt)
    | Some dir =>
      if path_exists st dir
      then match sf with
           | None => (after_drawing id fig st, Raise ValueError)
           | Some file =>
             ({| figures := figures (after_drawing id fig st);
                 disk_paths := disk_paths st;
                 saved := <[ os_path_join dir file := fig ]> (saved st) |},
              Ok tt)
           end
      else (after_drawing id fig st, Raise ValueError)
    end
  end.
Proof.
  cbv zeta.
  unfold plot_dim_reduced_data, sns_scatterplot.
  unfold gui_bind at 1. unfold plt_figure at 1.
  unfold gui_bind at 1. unfold gui_bind at 1. unfold gui_lift at 1.
  destruct (scatterplot_check V _) as [[] | e]; [| reflexivity].
  unfold draw_on_current at 1. cbn [figures disk_paths saved].
  unfold activate. rewrite on_current_last.
  unfold gui_bind at 1. unfold plt_legend, draw_on_current at 1.
  cbn [figures disk_paths saved]. rewrite on_current_last.
  unfold gui_bind at 1. unfold plt_title, draw_on_current at 1.
  cbn [figures disk_paths saved]. rewrite on_current_last.
  fold (figure_before id st).
  destruct sd as [dir |]; [| reflexivity].
  unfold path_exists at 1. cbn [figures disk_paths saved].
  fold (path_exists st dir).
  destruct (path_exists st dir); [| reflexivity].
  destruct sf as [file |]; [| reflexivity].
  unfold plt_savefig. cbn [figures disk_paths saved].
  rewrite on_current_last, current_figure_last. reflexivity.
Qed.

Lemma visualize_eq d cols cat cm a sd st :
  visualize_dimensionality_reduction V d cols cat cm a sd st =
  if has_name algorithms a
  then match reduce V (dropna d) cols cat a with
       | Raise e => (st, Raise e)
       | Ok (c1, c2, n, hue) =>
         plot_dim_reduced_data V c1 c2 (Z.of_nat n) hue (dropna d)
                               (a +:+ " projection of data") default_options
                               sd (Some (a +:+ "Visualization.png")) st
       end
  else (st, Raise ValueError).
Proof.
  unfold visualize_dimensionality_reduction.
  destruct (has_name algorithms a); [| reflexivity].
  cbn [negb]. unfold gui_bind, gui_lift.
  destruct (reduce V (dropna d) cols cat a) as [[[[c1 c2] n] hue] | e];
    reflexivity.
Qed.

Lemma valid_algorithm a :
  has_name algorithms a = true -> a = "UMAP" \/ a = "PCA" \/ a = "tSNE".
Proof.
  unfold has_name, algorithms. cbn [existsb].
  rewrite !orb_true_iff, !String.eqb_eq. intuition discriminate.
Qed.

Lemma valid_algorithm_number a :
  has_name algorithms a = true ->
  exists r n, dict_get dim_red_map a = Ok r /\
              list_index (map fst dim_red_map) a = Ok n /\
              list_index algorithms a = Ok n.
Proof.
  intros H. destruct (valid_algorithm a H) as [-> | [-> | ->]].
  - exists UMAP, 0%nat. repeat split.
  - exists PCA, 1%nat. repeat split.
  - exists TSNE, 2%nat. repeat split.
Qed.

(** What a reduction that went through computed. *)
Lemma reduce_inv d cols cat a c1 c2 n hue :
  reduce V d cols cat a = Ok (c1, c2, n, hue) ->
  exists r sel X results,
    dict_get dim_red_map a = Ok r /\
    df_getitem_list d cols = Ok sel /\
    (if negb (String.eqb a "UMAP") then X = df_values sel
     else exists scaled, standard_scaler V (df_values sel) = Ok scaled /\
                         X = as_entries scaled) /\
    fit_transform V r X = Ok results /\
    np_column results 0 = Ok c1 /\
    np_column results 1 = Ok c2 /\
    list_index algorithms a = Ok n /\
    df_getitem d cat = Ok hue.
Proof.
  unfold reduce. intros H.
  destruct (dict_get dim_red_map a) as [r |] eqn:Ed; cbn [bind] in H; [| discriminate].
  destruct (df_getitem_list d cols) as [sel |] eqn:Es; cbn [bind] in H;
    [| destruct (negb _); discriminate].
  assert (HX : exists X,
             (if negb (String.eqb a "UMAP") then X = df_values sel
              else exists scaled,
                  standard_scaler V (df_values sel) = Ok scaled /\
                  X = as_entries scaled) /\
             (do dim_red_results <- fit_transform V r X ;
              do component_one <- np_column dim_red_results 0 ;
              do component_two <- np_column dim_red_results 1 ;
              do fig_id <- list_index (map fst dim_red_map) a ;
              do hue <- df_getitem d cat ;
              Ok (component_one, component_two, fig_id, hue))
             = Ok (c1, c2, n, hue)).
  { destruct (negb (String.eqb a "UMAP")).
    - exists (df_values sel). split; [reflexivity | exact H].
    - destruct (standard_scaler V (df_values sel)) as [scaled |];
        cbn [bind] in H; [| discriminate].
      exists (as_entries scaled). split; [eauto | exact H]. }
  destruct HX as (X & HX & H').
  destruct (fit_transform V r X) as [results |] eqn:Ef; cbn [bind] in H'; [| discriminate].
  destruct (np_column results 0) as [k1 |] eqn:E1; cbn [bind] in H'; [| discriminate].
  destruct (np_column results 1) as [k2 |] eqn:E2; cbn [bind] in H'; [| discriminate].
  destruct (list_index (map fst dim_red_map) a) as [m |] eqn:Ei; cbn [bind] in H';
    [| discriminate].
  destruct (df_getitem d cat) as [h |] eqn:Eh; cbn [bind] in H'; [| discriminate].
  injection H' as <- <- <- <-.
  exists r, sel, X, results.
  split; [reflexivity |]. split; [reflexivity |]. split; [exact HX |].
  split; [exact Ef |]. split; [exact E1 |]. split; [exact E2 |].
  split; [exact Ei | reflexivity].
Qed.

(** What a call that returned has done. *)
Lemma visualize_ok_inv d cols cat cm a sd st st' :
  visualize_dimensionality_reduction V d cols cat cm a sd st = (st', Ok tt) ->
  exists c1 c2 n hue,
    has_name algorithms a = true /\
    reduce V (dropna d) cols cat a = Ok (c1, c2, n, hue) /\
    let sc := {| sc_x := c1; sc_y := c2; sc_hue := hue;
                 sc_palette := "Spectral"; sc_data := dropna d;
                 sc_legend := "full"; sc_alpha := alpha default_options |} in
    let fig := drawn sc (a +:+ " projection of data") default_options
                     (figure_before (Z.of_nat n) st) in
    figures st' = figures (after_drawing (Z.of_nat n) fig st) /\
    disk_paths st' = disk_paths st /\
    match sd with
    | None => saved st' = saved st
    | Some dir =>
      path_exists st dir = true /\
      saved st' = <[ os_path_join dir (a +:+ "Visualization.png") := fig ]>
                    (saved st)
    end.
Proof.
  rewrite visualize_eq.
  destruct (has_name algorithms a); [| discriminate].
  destruct (reduce V (dropna d) cols cat a) as [[[[c1 c2] n] hue] | e] eqn:Er;
    [| discriminate].
  rewrite plot_dim_reduced_data_eq. cbv zeta.
  destruct (scatterplot_check V _) as [[] | e]; [| discriminate].
  intros H. exists c1, c2, n, hue. split; [reflexivity |].
  split; [reflexivity |]. cbv zeta.
  destruct sd as [dir |].
  - destruct (path_exists st dir); [| discriminate].
    injection H as <-. simpl. auto.
  - injection H as <-. simpl. auto.
Qed.

(** * Dimensionality reduction: properties *)

Lemma reduce_missing_column d cols cat a name :
  has_name algorithms a = true ->
  In name cols -> ~ In name (df_columns d) ->
  reduce V d cols cat a = Raise KeyError.
Proof.
  intros Ha Hin Hn.
  destruct (valid_algorithm_number a Ha) as (r & n & Hd & _ & _).
  unfold reduce. rewrite Hd. cbn [bind].
  unfold df_getitem_list. rewrite (locate_columns_missing _ _ _ Hin Hn).
  destruct (negb _); reflexivity.
Qed.

(** X13.  An algorithm that is none of UMAP, PCA and tSNE, a column the
    frame does not have, or a category the frame does not have: the call
    raises and leaves figures and files as they were.  The exception is
    [ValueError] for the algorithm and, with a known algorithm,
    [KeyError] for a column. *)
Theorem bad_arguments_leave_no_trace d cols cat cm a sd st :
  has_name algorithms a = false \/
  (exists name, In name cols /\ ~ In name (df_columns d)) \/
  ~ In cat (df_columns d) ->
  exists e,
    visualize_dimensionality_reduction V d cols cat cm a sd st = (st, Raise e) /\
    (has_name algorithms a = false -> e = ValueError) /\
    (has_name algorithms a = true ->
     (exists name, In name cols /\ ~ In name (df_columns d)) -> e = KeyError).
Proof.
  intros Hbad. rewrite visualize_eq.
  destruct (has_name algorithms a) eqn:Ha.
  - destruct (reduce V (dropna d) cols cat a) as [[[[c1 c2] n] hue] | e] eqn:Er.
    + exfalso.
      destruct (reduce_inv _ _ _ _ _ _ _ _ Er)
        as (r & sel & X & results & _ & Hsel & _ & _ & _ & _ & _ & Hhue).
      unfold df_getitem, df_getitem_list in Hsel, Hhue.
      change (df_columns (dropna d)) with (df_columns d) in Hsel, Hhue.
      destruct Hbad as [Hbad | [(name & Hin & Hn) | Hn]]; [discriminate | |].
      * rewrite (locate_columns_missing _ _ name Hin Hn) in Hsel. discriminate.
      * rewrite (locate_columns_missing _ [cat] cat (or_introl eq_refl) Hn)
          in Hhue.
        discriminate.
    + exists e. split; [reflexivity |]. split; [discriminate |].
      intros _ (name & Hin & Hn).
      rewrite (reduce_missing_column (dropna d) cols cat a name Ha Hin Hn)
        in Er.
      now injection Er as <-.
  - exists ValueError. split; [reflexivity |]. split; [reflexivity | discriminate].
Qed.

Lemma dict_get_valid a r :
  dict_get dim_red_map a = Ok r -> has_name algorithms a = true.
Proof.
  unfold dict_get, dim_red_map, has_name, algorithms. cbn [existsb].
  rewrite (String.eqb_sym a "UMAP"), (String.eqb_sym a "PCA"),
    (String.eqb_sym a "tSNE").
  destruct (String.eqb "UMAP" a); [reflexivity |].
  destruct (String.eqb "PCA" a); [reflexivity |].
  destruct (String.eqb "tSNE" a); [reflexivity | discriminate].
Qed.

(** X14.  A projection with fewer than two components (PCA on a single
    column, say) cannot be plotted: slicing the second component raises
    [IndexError], and nothing is drawn or saved. *)
Theorem too_few_components_raise_index_error
    d cols cat cm a sd st r sel results :
  a <> "UMAP" ->
  dict_get dim_red_map a = Ok r ->
  df_getitem_list (dropna d) cols = Ok sel ->
  fit_transform V r (df_values sel) = Ok results ->
  (snd (shape results) < 2)%nat ->
  visualize_dimensionality_reduction V d cols cat cm a sd st
  = (st, Raise IndexError).
Proof.
  intros Ha Hr Hsel Hfit Hk.
  rewrite visualize_eq, (dict_get_valid _ _ Hr).
  unfold reduce. rewrite Hr. cbn [bind].
  apply String.eqb_neq in Ha. rewrite Ha. cbn [negb].
  rewrite Hsel. cbn [bind]. rewrite Hfit. cbn [bind].
  unfold np_column.
  destruct (Nat.ltb_spec 0 (snd (shape results))); [| reflexivity].
  cbn [bind].
  destruct (Nat.ltb_spec 1 (snd (shape results))); [lia | reflexivity].
Qed.

Lemma take_columns_entry d ps r v :
  rectangular d ->
  (forall i, In i ps -> (i < length (df_columns d))%nat) ->
  In r (df_rows (take_columns d ps)) -> In v r ->
  exists r0, In r0 (df_rows d) /\ In v r0.
Proof.
  intros Hrect Hps Hr Hv. unfold take_columns in Hr. simpl in Hr.
  apply in_map_iff in Hr. destruct Hr as (r0 & <- & Hr0).
  apply in_map_iff in Hv. destruct Hv as (i & <- & Hi).
  exists r0. split; [exact Hr0 |]. apply nth_In.
  rewrite (proj1 (List.Forall_forall _ _) Hrect r0 Hr0). now apply Hps.
Qed.

(** X15.  Rows with a missing entry are dropped before anything else:
    the call does what it does on the frame without them, and of a
    frame with one entry per column no missing entry reaches the scaler
    or the projection, which get one row per complete row of the frame
    (complete in all columns, not only in the selected ones). *)
Theorem missing_values_are_dropped_first d cols cat cm a sd st :
  rectangular d ->
  visualize_dimensionality_reduction V d cols cat cm a sd st
  = visualize_dimensionality_reduction V (dropna d) cols cat cm a sd st /\
  forall sel,
    df_getitem_list (dropna d) cols = Ok sel ->
    Forall (fun v => isna v = false) (buf (df_values sel)) /\
    fst (shape (df_values sel))
    = length (List.filter (fun r => negb (existsb isna r)) (df_rows d)).
Proof.
  intros Hrect. split.
  - rewrite !visualize_eq. now rewrite dropna_idempotent.
  - intros sel Hsel. unfold df_getitem_list in Hsel.
    destruct (locate_columns (df_columns (dropna d)) cols) as [ps |] eqn:Eps;
      simpl in Hsel; [| discriminate].
    injection Hsel as <-. split.
    + apply List.Forall_forall. intros v Hv. unfold df_values in Hv. simpl in Hv.
      apply in_concat in Hv. destruct Hv as (r & Hr & Hv).
      destruct (take_columns_entry (dropna d) ps r v
                  (dropna_rectangular d Hrect)
                  (fun i Hi => locate_columns_lt _ _ _ i Eps Hi))
        as (r0 & Hr0 & Hv0).
      * unfold take_columns. simpl. exact Hr.
      * exact Hv.
      * exact (dropna_complete d r0 v Hr0 Hv0).
    + simpl. now rewrite length_map.
Qed.

(** X16.  What is plotted: the first two components of the projection
    of the selected columns of the complete rows, the projection being
    that of the algorithm asked for.  UMAP gets the output of the
    scaler; PCA and tSNE get the values as they are. *)
Theorem scatter_shows_first_two_components d cols cat cm a sd st st' :
  visualize_dimensionality_reduction V d cols cat cm a sd st = (st', Ok tt) ->
  exists r sel results before sc,
    dict_get dim_red_map a = Ok r /\
    df_getitem_list (dropna d) cols = Ok sel /\
    (if String.eqb a "UMAP"
     then exists scaled,
         standard_scaler V (df_values sel) = Ok scaled /\
         fit_transform V r (as_entries scaled) = Ok results
     else fit_transform V r (df_values sel) = Ok results) /\
    fig_scatters (current_figure (figures st')) = (before ++ [sc])%list /\
    np_column results 0 = Ok (sc_x sc) /\
    np_column results 1 = Ok (sc_y sc).
Proof.
  intros Hrun.
  destruct (visualize_ok_inv _ _ _ _ _ _ _ _ Hrun)
    as (c1 & c2 & n & hue & _ & Hred & Hfigs & _ & _).
  cbv zeta in Hfigs.
  destruct (reduce_inv _ _ _ _ _ _ _ _ Hred)
    as (r & sel & X & results & Hr & Hsel & HX & Hfit & H1 & H2 & _ & _).
  exists r, sel, results. eexists. eexists.
  split; [exact Hr |]. split; [exact Hsel |]. split.
  { destruct (String.eqb a "UMAP"); cbn [negb] in HX.
    - destruct HX as (scaled & Hsc & ->). eauto.
    - now subst X. }
  split.
  { rewrite Hfigs. unfold after_drawing. cbn [figures].
    rewrite current_figure_last. unfold drawn, set_title, set_legend, add_scatter.
    cbn [fig_scatters]. reflexivity. }
  split; [exact H1 | exact H2].
Qed.

(** X17.  The figure of a call that returns: it is the current figure,
    its number is the position of the algorithm among UMAP, PCA and
    tSNE, its title is the name of the algorithm followed by
    [" projection of data"] in size 24, and the scatter plot added to it
    is coloured by the category column with the palette "Spectral",
    whatever [color_map] is. *)
Theorem figure_of_a_successful_call d cols cat cm a sd st st' :
  visualize_dimensionality_reduction V d cols cat cm a sd st = (st', Ok tt) ->
  exists n sc,
    list_index algorithms a = Ok n /\
    find_figure (Z.of_nat n) (figures st') = Some (current_figure (figures st')) /\
    fig_title (current_figure (figures st'))
    = Some (a +:+ " projection of data", 24) /\
    fig_scatters (current_figure (figures st'))
    = (fig_scatters (figure_before (Z.of_nat n) st) ++ [sc])%list /\
    sc_palette sc = "Spectral" /\
    sc_data sc = dropna d /\
    df_getitem (dropna d) cat = Ok (sc_hue sc).
Proof.
  intros Hrun.
  destruct (visualize_ok_inv _ _ _ _ _ _ _ _ Hrun)
    as (c1 & c2 & n & hue & _ & Hred & Hfigs & _ & _).
  cbv zeta in Hfigs.
  destruct (reduce_inv _ _ _ _ _ _ _ _ Hred)
    as (r & sel & X & results & _ & _ & _ & _ & _ & _ & Hn & Hhue).
  exists n. eexists. split; [exact Hn |].
  rewrite Hfigs. unfold after_drawing. cbn [figures].
  rewrite current_figure_last, find_figure_here.
  split; [reflexivity |]. split; [reflexivity |].
  unfold drawn, set_title, set_legend, add_scatter. cbn [fig_scatters].
  split; [reflexivity |]. cbn [sc_palette sc_data sc_hue].
  split; [reflexivity |]. split; [reflexivity | exact Hhue].
Qed.

(** X18.  The image of a call that returns: with a [save_dir], which
    then exists, the current figure is saved in it under the name of
    the algorithm followed by ["Visualization.png"], and no other file
    changes; without one no file changes. *)
Theorem image_of_a_successful_call d cols cat cm a sd st st' :
  visualize_dimensionality_reduction V d cols cat cm a sd st = (st', Ok tt) ->
  match sd with
  | None => saved st' = saved st
  | Some dir =>
    path_exists st dir = true /\
    saved st' !! os_path_join dir (a +:+ "Visualization.png")
    = Some (current_figure (figures st')) /\
    forall q, q <> os_path_join dir (a +:+ "Visualization.png") ->
              saved st' !! q = saved st !! q
  end.
Proof.
  intros Hrun.
  destruct (visualize_ok_inv _ _ _ _ _ _ _ _ Hrun)
    as (c1 & c2 & n & hue & _ & _ & Hfigs & _ & Hsaved).
  cbv zeta in Hfigs, Hsaved.
  destruct sd as [dir |]; [| exact Hsaved].
  destruct Hsaved as [Hex ->]. split; [exact Hex |].
  rewrite Hfigs. unfold after_drawing. cbn [figures].
  rewrite current_figure_last. split; [apply lookup_insert_eq |].
  intros q Hq. apply lookup_insert_ne. congruence.
Qed.

(** X19.  Figures are never cleared: a second call with the same
    algorithm draws on the figure of the first, so its figure (and the
    image it saves) still shows the scatter plots of the first call,
    followed by its own. *)
Theorem figures_accumulate
    d1 cols1 cat1 cm1 sd1 d2 cols2 cat2 cm2 sd2 a st st1 st2 :
  visualize_dimensionality_reduction V d1 cols1 cat1 cm1 a sd1 st = (st1, Ok tt) ->
  visualize_dimensionality_reduction V d2 cols2 cat2 cm2 a sd2 st1 = (st2, Ok tt) ->
  exists sc,
    fig_scatters (current_figure (figures st2))
    = (fig_scatters (current_figure (figures st1)) ++ [sc])%list /\
    sc_data sc = dropna d2 /\
    fig_scatters (current_figure (figures st1)) <> [].
Proof.
  intros Hrun1 Hrun2.
  destruct (visualize_ok_inv _ _ _ _ _ _ _ _ Hrun1)
    as (c1 & c2 & n & hue & _ & Hred1 & Hfigs1 & _ & _).
  destruct (visualize_ok_inv _ _ _ _ _ _ _ _ Hrun2)
    as (c1' & c2' & n' & hue' & _ & Hred2 & Hfigs2 & _ & _).
  cbv zeta in Hfigs1, Hfigs2.
  destruct (reduce_inv _ _ _ _ _ _ _ _ Hred1)
    as (_ & _ & _ & _ & _ & _ & _ & _ & _ & _ & Hn & _).
  destruct (reduce_inv _ _ _ _ _ _ _ _ Hred2)
    as (_ & _ & _ & _ & _ & _ & _ & _ & _ & _ & Hn' & _).
  rewrite Hn in Hn'. injection Hn' as <-.
  eexists. rewrite Hfigs2. unfold after_drawing at 1. cbn [figures].
  rewrite current_figure_last.
  unfold figure_before. rewrite Hfigs1. unfold after_drawing. cbn [figures].
  rewrite find_figure_here, current_figure_last.
  unfold drawn, set_title, set_legend, add_scatter. cbn [fig_scatters].
  split; [reflexivity |]. split; [reflexivity |].
  now destruct (fig_scatters (figure_before (Z.of_nat n) st)).
Qed.

(** X20.  [save_dir] is looked at last: when it does not exist the call
    raises [ValueError] only after the projection has been computed and
    the figure drawn, so the figure is there although nothing is
    saved. *)
Theorem save_dir_is_checked_after_drawing
    d cols cat cm a dir st c1 c2 n hue :
  has_name algorithms a = true ->
  reduce V (dropna d) cols cat a = Ok (c1, c2, n, hue) ->
  scatterplot_check V {| sc_x := c1; sc_y := c2; sc_hue := hue;
                         sc_palette := "Spectral"; sc_data := dropna d;
                         sc_legend := "full";
                         sc_alpha := alpha default_options |} = Ok tt ->
  path_exists st dir = false ->
  exists st',
    visualize_dimensionality_reduction V d cols cat cm a (Some dir) st
    = (st', Raise ValueError) /\
    saved st' = saved st /\
    fig_title (current_figure (figures st'))
    = Some (a +:+ " projection of data", 24) /\
    exists before,
      fig_scatters (current_figure (figures st'))
      = (before ++ [{| sc_x := c1; sc_y := c2; sc_hue := hue;
                       sc_palette := "Spectral"; sc_data := dropna d;
                       sc_legend := "full";
                       sc_alpha := alpha default_options |}])%list.
Proof.
  intros Ha Hred Hsc Hdir.
  rewrite visualize_eq, Ha, Hred, plot_dim_reduced_data_eq. cbv zeta.
  change (palette default_options) with "Spectral"%string.
  change (legend_type default_options) with "full"%string.
  rewrite Hsc, Hdir. eexists. split; [reflexivity |].
  unfold after_drawing. cbn [figures saved]. rewrite current_figure_last.
  split; [reflexivity |]. split; [reflexivity |].
  eexists. unfold drawn, set_title, set_legend, add_scatter.
  cbn [fig_scatters]. reflexivity.
Qed.

(** X21.  [plot_dim_reduced_data] writes one file at most, and only on
    request: the saved images change only when [save_dir] and
    [save_file] are both given and [save_dir] exists; the call then
    returns and the file [save_dir/save_file] holds the current
    figure. *)
Theorem saves_only_on_request c1 c2 id hue d title o sd sf st :
  saved (fst (plot_dim_reduced_data V c1 c2 id hue d title o sd sf st))
  = saved st \/
  exists dir file,
    sd = Some dir /\ sf = Some file /\ path_exists st dir = true /\
    snd (plot_dim_reduced_data V c1 c2 id hue d title o sd sf st) = Ok tt /\
    saved (fst (plot_dim_reduced_data V c1 c2 id hue d title o sd sf st))
    = <[ os_path_join dir file :=
           current_figure
             (figures (fst (plot_dim_reduced_data V c1 c2 id hue d title o
                                                   sd sf st))) ]>
        (saved st).
Proof.
  rewrite plot_dim_reduced_data_eq. cbv zeta.
  destruct (scatterplot_check V _) as [[] | e]; [| now left].
  destruct sd as [dir |]; [| now left].
  destruct (path_exists st dir) eqn:Hdir; [| now left].
  destruct sf as [file |]; [| now left].
  right. exists dir, file. repeat split; try reflexivity; try exact Hdir.
  cbn [fst figures saved]. unfold after_drawing. cbn [figures].
  now rewrite current_figure_last.
Qed.

(** X25.  A call touches one figure only, that of its algorithm: the
    figure of any other number is after the call what it was before,
    however the call ends. *)
Theorem other_figures_are_left_alone d cols cat cm a sd st m :
  (forall n, list_index algorithms a = Ok n -> m <> Z.of_nat n) ->
  find_figure m
    (figures (fst (visualize_dimensionality_reduction V d cols cat cm a sd st)))
  = find_figure m (figures st).
Proof.
  intros Hm. rewrite visualize_eq.
  destruct (has_name algorithms a); [| reflexivity].
  destruct (reduce V (dropna d) cols cat a) as [[[[c1 c2] n] hue] | e] eqn:Er;
    [| reflexivity].
  destruct (reduce_inv _ _ _ _ _ _ _ _ Er)
    as (_ & _ & _ & _ & _ & _ & _ & _ & _ & _ & Hn & _).
  specialize (Hm n Hn).
  rewrite plot_dim_reduced_data_eq. cbv zeta.
  destruct (scatterplot_check V _) as [[] | e];
    [| now apply find_figure_others].
  destruct sd as [dir |]; [| now apply find_figure_others].
  destruct (path_exists st dir); [| now apply find_figure_others].
  now apply find_figure_others.
Qed.

End Visualization.

(** * A worked example

    The library instance [plain_lib] meets what is assumed, and the
    properties above are instantiated on the sample data. *)

(** ** [plain_lib] meets what is assumed *)

Lemma plain_lib_ok : imglib_ok plain_lib.
Proof.
  constructor; simpl.
  - intros a s b [= <-]. apply same_dims_refl.
  - intros a k b [= <-]. apply same_dims_refl.
  - intros a ws pol b [= <-]. apply same_dims_refl.
  - intros m b [= <-]. apply np_map_dims.
  - intros a b [= <-]. apply same_dims_refl.
  - intros e m ws [= <-]. apply np_map_dims.
  - intros a ts. destruct (existsb _ (buf a)) eqn:Ex; [| discriminate].
    intros [= <-]. exists 0.25%float, 0.75%float.
    split; [reflexivity |]. split; [reflexivity |].
    apply existsb_exists in Ex. apply List.Exists_exists. exact Ex.
  - intros e m ws [= <-] _ _. simpl. apply List.Forall_forall.
    intros y Hy. apply in_map_iff in Hy. destruct Hy as (x & <- & _).
    destruct (PrimFloat.eqb x 2); auto.
Qed.

Lemma sample_steps_run :
  segment_fov plain_lib plain_params sample_channel 3 "fov0" = Ok sample_steps.
Proof. vm_compute. reflexivity. Qed.

Lemma threshold_classification_witness :
  segment_fov plain_lib plain_params sample_channel 3 "fov0" = Ok sample_steps /\
  exists t0 t1,
    threshold_multiotsu plain_lib (distance_transformed sample_steps) 3
      = Ok [t0; t1] /\
    thresholds sample_steps = [t0; t1] /\
    PrimFloat.leb t0 t1 = true /\
    same_dims (distance_transformed sample_steps) (threshed sample_steps) /\
    forall i x,
      nth_error (buf (distance_transformed sample_steps)) i = Some x ->
      (PrimFloat.ltb x t0 = true ->
       nth_error (buf (threshed sample_steps)) i = Some 1%float) /\
      (PrimFloat.ltb t1 x = true ->
       nth_error (buf (threshed sample_steps)) i = Some 2%float) /\
      (PrimFloat.leb t0 x = true -> PrimFloat.leb x t1 = true ->
       nth_error (buf (threshed sample_steps)) i = Some 0%float).
Proof.
  split; [exact sample_steps_run |].
  apply (threshold_classification plain_lib plain_lib_ok plain_params sample_channel 3 "fov0").
  - exact sample_steps_run.
Defined.

Lemma watershed_labels_witness :
  segment_fov plain_lib plain_params sample_channel 3 "fov0" = Ok sample_steps /\
  exists flooded,
    watershed plain_lib (elevation_map sample_steps) (threshed sample_steps)
      = Ok flooded /\
    classified (threshed sample_steps) /\
    segmentation sample_steps = np_sub1 flooded /\
    (forall i, (i < length (buf flooded))%nat -> cell_at flooded i = 1 ->
               cell_at (segmentation sample_steps) i = 0) /\
    labeled sample_steps = fst (ndi_label (segmentation sample_steps)) /\
    numbers_objects (segmentation sample_steps) (labeled sample_steps)
                    (snd (ndi_label (segmentation sample_steps))).
Proof.
  split; [exact sample_steps_run |].
  apply (watershed_labels plain_lib plain_lib_ok plain_params sample_channel 3 "fov0").
  - exact sample_steps_run.
Defined.

Lemma filtering_keeps_label_values_witness :
  segment_fov plain_lib plain_params sample_channel 3 "fov0" = Ok sample_steps /\
  exists kept,
    remove_small_objects (labeled sample_steps) (min_fiber_size plain_params)
      = Ok kept /\
    labeled_filtered sample_steps = np_mul kept (segmentation sample_steps) /\
    (forall i, cell_at (labeled_filtered sample_steps) i
               = cell_at kept i * cell_at (segmentation sample_steps) i) /\
    (forall i, cell_at (labeled_filtered sample_steps) i <> 0 ->
               cell_at (labeled_filtered sample_steps) i
               = cell_at (labeled sample_steps) i) /\
    (forall v, In v (buf (labeled_filtered sample_steps)) -> v <> 0 ->
               In v (buf (labeled sample_steps))).
Proof.
  split; [exact sample_steps_run |].
  apply (filtering_keeps_label_values plain_lib plain_lib_ok plain_params sample_channel 3 "fov0").
  - exact sample_steps_run.
Defined.

Lemma sample_run :
  segment_fibers plain_lib plain_settings sample_data "Collagen" "out"
                 plain_params ["label"] false out_fs
  = (sample_fs_after, Ok (sample_table, sample_images)).
Proof. vm_compute. reflexivity. Qed.

Lemma sample_debug_run :
  segment_fibers plain_lib plain_settings sample_data "Collagen" "out"
                 plain_params ["label"] true out_fs
  = (sample_debug_fs_after, Ok (sample_table, sample_images)).
Proof. vm_compute. reflexivity. Qed.

Lemma table_rows_match_labels_witness :
  segment_fibers plain_lib plain_settings sample_data "Collagen" "out"
                 plain_params ["label"] false out_fs
    = (sample_fs_after, Ok (sample_table, sample_images)) /\
  exists c groups,
    loc_channel sample_data "Collagen" = Ok c /\
    sample_table = concat groups /\
    Forall2 (fun fov rows =>
               exists s,
                 segment_fov plain_lib plain_params c (xr_rows sample_data) fov
                   = Ok s /\
                 sample_images !! fov = Some (labeled_filtered s) /\
                 fov_table plain_lib plain_settings plain_params c
                           (xr_rows sample_data) ["label"] fov = Ok rows /\
                 (forall r, In r rows ->
                            In (FOV_ID plain_settings, CStr fov) (row_cells r)) /\
                 List.NoDup (map row_label rows) /\
                 (forall l, In l (map row_label rows) <->
                            l <> 0 /\ In l (buf (labeled_filtered s))) /\
                 one_object_per_value (labeled_filtered s))
            (xr_fovs sample_data) groups.
Proof.
  split; [exact sample_run |].
  apply (table_rows_match_labels plain_lib plain_lib_ok plain_settings sample_data
           "Collagen" "out" plain_params ["label"] false out_fs sample_fs_after
           sample_table sample_images).
  exact sample_run.
Defined.

Lemma label_image_dims_and_ids_witness :
  segment_fibers plain_lib plain_settings sample_data "Collagen" "out"
                 plain_params ["label"] false out_fs
    = (sample_fs_after, Ok (sample_table, sample_images)) /\
  sample_images !! "fov0" = Some (labeled_filtered sample_steps) /\
  shape (labeled_filtered sample_steps)
    = (xr_rows sample_data, xr_cols sample_data) /\
  well_formed (labeled_filtered sample_steps) /\
  exists c s,
    loc_channel sample_data "Collagen" = Ok c /\
    segment_fov plain_lib plain_params c (xr_rows sample_data) "fov0" = Ok s /\
    labeled_filtered sample_steps = labeled_filtered s /\
    shape (fiber_channel_data s) = (xr_rows sample_data, xr_cols sample_data) /\
    dims_preserved s /\
    (forall i, 0 <= cell_at (labeled_filtered sample_steps) i) /\
    one_object_per_value (labeled_filtered sample_steps).
Proof.
  split; [exact sample_run |].
  split; [vm_compute; reflexivity |].
  apply (label_image_dims_and_ids plain_lib plain_lib_ok plain_settings sample_data "Collagen"
           "out" plain_params ["label"] false out_fs sample_fs_after sample_table
           sample_images "fov0" (labeled_filtered sample_steps)).
  - exact sample_run.
  - vm_compute. reflexivity.
Defined.

Lemma plot_agrees_with_segment_fibers_witness :
  loc_channel sample_data "Collagen" = Ok sample_channel /\
  In "fov0" (xr_fovs sample_data) /\
  (forall e, plot_fiber_segmentation_steps plain_lib sample_data "fov0"
               "Collagen" plain_params = Raise e <->
             segment_fov plain_lib plain_params sample_channel
                         (xr_rows sample_data) "fov0" = Raise e) /\
  (forall s, segment_fov plain_lib plain_params sample_channel
                         (xr_rows sample_data) "fov0" = Ok s ->
             exists pn, plot_fiber_segmentation_steps plain_lib sample_data
                          "fov0" "Collagen" plain_params = Ok pn /\
                        panel_labeled_filtered pn = labeled_filtered s) /\
  (forall out_dir props debug fs fs' table images,
     segment_fibers plain_lib plain_settings sample_data "Collagen" out_dir
                    plain_params props debug fs
       = (fs', Ok (table, images)) ->
     exists pn, plot_fiber_segmentation_steps plain_lib sample_data "fov0"
                  "Collagen" plain_params = Ok pn /\
                images !! "fov0" = Some (panel_labeled_filtered pn)).
Proof.
  split; [reflexivity |]. split; [now left |].
  apply (plot_agrees_with_segment_fibers plain_lib plain_settings sample_data
           "Collagen" plain_params sample_channel "fov0").
  - reflexivity.
  - now left.
Defined.

Lemma segment_fibers_deterministic_witness :
  segment_fibers plain_lib plain_settings sample_data "Collagen" "out"
                 plain_params ["label"] false out_fs
    = (sample_fs_after, Ok (sample_table, sample_images)) /\
  segment_fibers plain_lib plain_settings sample_data "Collagen" "out"
                 plain_params ["label"] true out_fs
    = (sample_debug_fs_after, Ok (sample_table, sample_images)) /\
  sample_table = sample_table /\ sample_images = sample_images /\
  forall fov, In fov (xr_fovs sample_data) ->
    exists c s,
      loc_channel sample_data "Collagen" = Ok c /\
      segment_fov plain_lib plain_params c (xr_rows sample_data) fov = Ok s /\
      sample_images !! fov = Some (labeled_filtered s) /\
      labeled s = fst (ndi_label (segmentation s)) /\
      numbers_objects (segmentation s) (labeled s)
                      (snd (ndi_label (segmentation s))) /\
      raster_numbered (labeled s) /\
      forall lab N,
        numbers_objects (segmentation s) lab N -> raster_numbered lab ->
        length (buf lab) = length (buf (segmentation s)) ->
        buf lab = buf (labeled s).
Proof.
  split; [exact sample_run |].
  split; [exact sample_debug_run |].
  apply (segment_fibers_deterministic plain_lib plain_lib_ok plain_settings
           sample_data "Collagen" plain_params ["label"]
           "out" false out_fs sample_fs_after sample_table sample_images
           "out" true out_fs sample_debug_fs_after sample_table sample_images).
  - exact sample_run.
  - exact sample_debug_run.
Defined.

Lemma missing_out_dir_fails_fast_witness :
  os_path_exists out_fs "elsewhere" = false /\
  (exists e, segment_fibers plain_lib plain_settings sample_data "Collagen"
               "elsewhere" plain_params ["label"] true out_fs
             = (out_fs, Raise e)) /\
  (forall L', segment_fibers L' plain_settings sample_data "Collagen"
                "elsewhere" plain_params ["label"] true out_fs
              = segment_fibers plain_lib plain_settings sample_data "Collagen"
                  "elsewhere" plain_params ["label"] true out_fs) /\
  (has_name (xr_channels sample_data) "Collagen" = true ->
   segment_fibers plain_lib plain_settings sample_data "Collagen" "elsewhere"
                  plain_params ["label"] true out_fs
   = (out_fs, Raise FileNotFoundError)).
Proof.
  split; [vm_compute; reflexivity |].
  apply (missing_out_dir_fails_fast plain_lib plain_settings sample_data
           "Collagen" "elsewhere" plain_params ["label"] true out_fs).
  vm_compute. reflexivity.
Defined.

(** C7, as stated, fails: the channel is selected before [out_dir] is
    looked at, so with a name that is no channel of the data the call
    raises [KeyError], not [FileNotFoundError]. *)
Lemma unknown_channel_raises_key_error :
  os_path_exists out_fs "elsewhere" = false /\
  segment_fibers plain_lib plain_settings sample_data "Nucleus" "elsewhere"
                 plain_params ["label"] false out_fs
  = (out_fs, Raise KeyError).
Proof. vm_compute. split; reflexivity. Qed.



Lemma zero_image_gives_nan_witness :
  loc_fov zero_channel "fov0" = Ok (NdArray (2, 2)%nat [0; 0; 0; 0]%float) /\
  np_max (NdArray (2, 2)%nat [0; 0; 0; 0]%float) = Ok 0%float /\
  np_true_divide (NdArray (2, 2)%nat [0; 0; 0; 0]%float) 0%float
    = np_map (fun _ => nan) (NdArray (2, 2)%nat [0; 0; 0; 0]%float) /\
  exists k,
    py_truediv 2 (contrast_scaling_divisor plain_params) = Ok k /\
    (forall e,
       equalize_adapthist plain_lib
         (np_map (fun _ => nan) (NdArray (2, 2)%nat [0; 0; 0; 0]%float)) k
       = Raise e ->
       segment_fov plain_lib plain_params zero_channel 2 "fov0" = Raise e) /\
    (forall s,
       segment_fov plain_lib plain_params zero_channel 2 "fov0" = Ok s ->
       equalize_adapthist plain_lib
         (np_map (fun _ => nan) (NdArray (2, 2)%nat [0; 0; 0; 0]%float)) k
       = Ok (contrast_adjusted s)).
Proof.
  split; [reflexivity |].
  apply (zero_image_gives_nan plain_lib plain_params zero_channel 2 "fov0"
           (NdArray (2, 2)%nat [0; 0; 0; 0]%float)
           (NdArray (2, 2)%nat [0; 0; 0; 0]%float)).
  - reflexivity.
  - reflexivity.
  - simpl. discriminate.
  - simpl. repeat constructor.
  - simpl. lia.
Defined.

(** C6, as stated, fails: on a field of view that is zero everywhere
    the normalisation raises nothing; the quotient is NaN in every
    cell, the pass goes on with it, and the label image comes out
    empty. *)
Lemma zero_image_raises_nothing :
  np_max (NdArray (2, 2)%nat [0; 0; 0; 0]%float) = Ok 0%float /\
  np_true_divide (NdArray (2, 2)%nat [0; 0; 0; 0]%float) 0%float
    = NdArray (2, 2)%nat [nan; nan; nan; nan] /\
  exists s,
    segment_fov plain_lib plain_params zero_channel 2 "fov0" = Ok s /\
    buf (blurred s) = [0; 0; 0; 0]%float /\
    buf (contrast_adjusted s) = [nan; nan; nan; nan] /\
    region_labels (labeled_filtered s) = [].
Proof.
  split; [reflexivity |]. split; [reflexivity |].
  eexists. vm_compute. repeat split; reflexivity.
Qed.

Lemma zero_min_size_keeps_every_object_witness :
  exists s,
    segment_fov plain_lib keep_all_params sample_channel 3 "fov0" = Ok s /\
    min_fiber_size keep_all_params = 0 /\
    forall i, cell_at (labeled_filtered s) i = cell_at (labeled s) i.
Proof.
  eexists. split; [vm_compute; reflexivity |]. split; [reflexivity |].
  apply (zero_min_size_keeps_every_object plain_lib plain_lib_ok keep_all_params
           sample_channel 3 "fov0").
  - vm_compute. reflexivity.
  - reflexivity.
Defined.

Lemma label_images_keys_witness :
  segment_fibers plain_lib plain_settings sample_data "Collagen" "out"
                 plain_params ["label"] false out_fs
    = (sample_fs_after, Ok (sample_table, sample_images)) /\
  forall fov, is_Some (sample_images !! fov) <-> In fov (xr_fovs sample_data).
Proof.
  split; [exact sample_run |].
  apply (label_images_keys plain_lib plain_settings sample_data "Collagen" "out"
           plain_params ["label"] false out_fs sample_fs_after sample_table
           sample_images).
  exact sample_run.
Defined.


(** ** The files of the sample run *)


Lemma other_files_are_left_alone_witness :
  files (fst (segment_fibers plain_lib plain_settings sample_data "Collagen"
                "out" plain_params ["label"] true notes_fs))
    !! "out/notes.csv"
  = files notes_fs !! "out/notes.csv".
Proof.
  apply (other_files_are_left_alone plain_lib plain_settings sample_data
           "Collagen" "out" plain_params ["label"] true notes_fs "out/notes.csv").
  - intros E. vm_compute in E. discriminate E.
  - intros fov [<- | [<- | []]] E; vm_compute in E; discriminate E.
  - intros _ fov sfx [<- | [<- | []]] [<- | [<- | [<- | [<- | []]]]] E;
      vm_compute in E; discriminate E.
Defined.

Lemma no_table_when_the_call_raises_witness :
  snd (segment_fibers plain_lib plain_settings sample_data "Collagen" "out"
         zero_divisor_params ["label"] false out_fs)
    = Raise ZeroDivisionError /\
  files (fst (segment_fibers plain_lib plain_settings sample_data "Collagen"
                "out" zero_divisor_params ["label"] false out_fs))
    !! os_path_join "out" "fiber_object_table.csv"
  = files out_fs !! os_path_join "out" "fiber_object_table.csv".
Proof.
  split; [vm_compute; reflexivity |].
  apply (no_table_when_the_call_raises plain_lib plain_settings sample_data
           "Collagen" "out" zero_divisor_params ["label"] false out_fs
           ZeroDivisionError).
  vm_compute. reflexivity.
Defined.

(** ** Edge cases on small inputs *)


Lemma empty_image_raises_value_error_witness :
  loc_fov empty_channel "fov0" = Ok (NdArray (0, 4)%nat []) /\
  segment_fov plain_lib plain_params empty_channel 0 "fov0" = Raise ValueError.
Proof.
  split; [reflexivity |].
  apply (empty_image_raises_value_error plain_lib plain_lib_ok plain_params
           empty_channel 0 "fov0" (NdArray (0, 4)%nat []) (NdArray (0, 4)%nat [])).
  - reflexivity.
  - left. reflexivity.
  - reflexivity.
Defined.

Lemma zero_divisor_never_returns_witness :
  (forall c n a b,
     loc_fov c "fov0" = Ok a ->
     gaussian_filter plain_lib a (blur zero_divisor_params) = Ok b ->
     buf b <> [] ->
     segment_fov plain_lib zero_divisor_params c n "fov0"
     = Raise ZeroDivisionError) /\
  (forall pn, plot_fiber_segmentation_steps plain_lib sample_data "fov0"
                "Collagen" zero_divisor_params <> Ok pn) /\
  (forall r, snd (segment_fibers plain_lib plain_settings sample_data "Collagen"
                    "out" zero_divisor_params ["label"] false out_fs)
             <> Ok r).
Proof.
  apply (zero_divisor_never_returns plain_lib plain_settings sample_data
           "Collagen" "out" zero_divisor_params ["label"] false out_fs "fov0").
  reflexivity.
Defined.

(** The object of one cell of the first sample image (label 3) is
    below [min_fiber_size = 2]. *)
Lemma size_filter_keeps_large_objects_witness :
  (bincount (buf (labeled sample_steps)) 3 < min_fiber_size plain_params ->
   ~ In 3 (buf (labeled_filtered sample_steps))) /\
  (min_fiber_size plain_params <= bincount (buf (labeled sample_steps)) 3 ->
   bincount (buf (labeled_filtered sample_steps)) 3
   = bincount (buf (labeled sample_steps)) 3) /\
  (In 3 (buf (labeled_filtered sample_steps)) ->
   min_fiber_size plain_params <= bincount (buf (labeled_filtered sample_steps)) 3).
Proof.
  apply (size_filter_keeps_large_objects plain_lib plain_lib_ok plain_params
           sample_channel 3 "fov0" sample_steps 3).
  - exact sample_steps_run.
  - discriminate.
Defined.

Lemma table_is_grouped_and_sorted_witness :
  exists groups,
    map row_label sample_table = concat groups /\
    Forall2 (fun fov labels =>
               exists lf, sample_images !! fov = Some lf /\
                          StronglySorted Z.lt labels /\
                          forall v, In v labels <-> 0 < v /\ In v (buf lf))
            (xr_fovs sample_data) groups.
Proof.
  apply (table_is_grouped_and_sorted plain_lib plain_settings sample_data
           "Collagen" "out" plain_params ["label"] false out_fs sample_fs_after
           sample_table sample_images).
  exact sample_run.
Defined.

Lemma debug_mode_returns_the_same_witness :
  exists fs2,
    segment_fibers plain_lib plain_settings sample_data "Collagen" "out"
                   plain_params ["label"] true out_fs
      = (fs2, Ok (sample_table, sample_images)) /\
    dirs fs2 = {[ os_path_join "out" "_debug" ]} ∪ dirs sample_fs_after.
Proof.
  apply (debug_mode_returns_the_same plain_lib plain_settings sample_data
           "Collagen" "out" plain_params ["label"] out_fs sample_fs_after
           sample_table sample_images).
  - exact sample_run.
  - vm_compute. reflexivity.
  - repeat constructor.
  - intros fov q [<- | [<- | []]] [<- | [<- | [<- | [<- | []]]]];
      vm_compute; reflexivity.
Defined.

Lemma rerun_changes_nothing_witness :
  segment_fibers plain_lib plain_settings sample_data "Collagen" "out"
                 plain_params ["label"] false sample_fs_after
  = (sample_fs_after, Ok (sample_table, sample_images)).
Proof.
  apply (rerun_changes_nothing plain_lib plain_settings sample_data "Collagen"
           "out" plain_params ["label"] out_fs sample_fs_after sample_table
           sample_images).
  exact sample_run.
Defined.

(** A first run in debug mode that fails in its first pass, and a
    second one that would not. *)
Lemma debug_run_cannot_be_repeated_witness :
  segment_fibers plain_lib plain_settings sample_data "Collagen" "out"
    plain_params ["label"] true
    (fst (segment_fibers plain_lib plain_settings sample_data "Collagen" "out"
            zero_divisor_params ["label"] true out_fs))
  = (fst (segment_fibers plain_lib plain_settings sample_data "Collagen" "out"
            zero_divisor_params ["label"] true out_fs),
     Raise (if has_name (xr_channels sample_data) "Collagen"
            then FileExistsError else KeyError)).
Proof.
  apply (debug_run_cannot_be_repeated plain_lib plain_settings sample_data
           "Collagen" "out" zero_divisor_params ["label"] out_fs
           plain_lib plain_settings sample_data "Collagen" plain_params
           ["label"]).
  - reflexivity.
  - vm_compute. reflexivity.
  - reflexivity.
  - vm_compute. reflexivity.
Defined.

Lemma first_failing_fov_decides_witness :
  snd (segment_fibers plain_lib plain_settings bright_data "Collagen" "out"
         plain_params ["label"] false out_fs) = Raise ValueError /\
  forall g, In g ["fov0"] ->
    is_Some (files (fst (segment_fibers plain_lib plain_settings bright_data
                           "Collagen" "out" plain_params ["label"] false out_fs))
               !! os_path_join "out" (g +:+ "_fiber_labels.tiff")).
Proof.
  apply (first_failing_fov_decides plain_lib plain_settings bright_data
           "Collagen" "out" plain_params ["label"] false out_fs
           {| ch_fovs := ["fov0"; "bright"];
              ch_shape := (2, 3, 4)%nat;
              ch_pixel := fun fov x y => xr_pixel bright_data fov x y "Collagen" |}
           ["fov0"] "bright" []
           [[ Row 1 [("label", CInt 1); ("fov", CStr "fov0")];
              Row 2 [("label", CInt 2); ("fov", CStr "fov0")] ]]
           ValueError).
  - reflexivity.
  - reflexivity.
  - vm_compute. reflexivity.
  - reflexivity.
  - discriminate.
  - intros g [<- | [<- | []]]; (split; [reflexivity |]);
      intros q [<- | []]; vm_compute; reflexivity.
  - vm_compute. reflexivity.
  - vm_compute. reflexivity.
Defined.

(** The condition on the names in X12 is needed: with a separator in
    the name of a field of view, a call without debug mode can return
    where the call with it cannot write its first debug image. *)
Lemma debug_mode_needs_plain_names :
  snd (segment_fibers plain_lib plain_settings nested_data "Collagen" "out"
         plain_params ["label"] false nested_fs)
  = Ok ([ Row 1 [("label", CInt 1); ("fov", CStr "a/fov0")];
          Row 2 [("label", CInt 2); ("fov", CStr "a/fov0")] ],
        {[ "a/fov0" := labeled_filtered sample_steps ]}) /\
  os_path_exists nested_fs (os_path_join "out" "_debug") = false /\
  snd (segment_fibers plain_lib plain_settings nested_data "Collagen" "out"
         plain_params ["label"] true nested_fs)
  = Raise FileNotFoundError.
Proof. vm_compute. repeat split; reflexivity. Qed.

Lemma file_as_out_dir_raises_witness :
  segment_fibers plain_lib plain_settings sample_data "Collagen" "out"
                 plain_params ["label"] true file_fs
  = (file_fs, Raise NotADirectoryError) /\
  segment_fibers plain_lib plain_settings sample_data "Collagen" "out"
                 plain_params ["label"] false file_fs
  = (file_fs, Raise NotADirectoryError).
Proof.
  split.
  - apply (file_as_out_dir_raises plain_lib plain_settings sample_data
             "Collagen" "out" plain_params ["label"] true file_fs).
    + reflexivity.
    + discriminate.
    + reflexivity.
    + vm_compute. reflexivity.
    + vm_compute. reflexivity.
    + reflexivity.
  - apply (file_as_out_dir_raises plain_lib plain_settings sample_data
             "Collagen" "out" plain_params ["label"] false file_fs)
      with (c := sample_channel) (f := "fov0") (rest := ["fov1"])
           (s := sample_steps).
    + reflexivity.
    + discriminate.
    + reflexivity.
    + vm_compute. reflexivity.
    + vm_compute. reflexivity.
    + reflexivity.
    + reflexivity.
    + reflexivity.
    + reflexivity.
    + exact sample_steps_run.
Defined.

(** ** Dimensionality reduction on the sample frame *)

Lemma sample_visualization :
  visualize_dimensionality_reduction plain_viz sample_frame ["CD4"; "CD8"]
    "population" "viridis" "PCA" (Some "plots") plots_session
  = (sample_session_after, Ok tt).
Proof. vm_compute. reflexivity. Qed.

Lemma bad_arguments_leave_no_trace_witness :
  exists e,
    visualize_dimensionality_reduction plain_viz sample_frame ["CD4"; "CD8"]
      "population" "viridis" "kmeans" (Some "plots") plots_session
    = (plots_session, Raise e) /\
    (has_name algorithms "kmeans" = false -> e = ValueError) /\
    (has_name algorithms "kmeans" = true ->
     (exists name, In name ["CD4"; "CD8"] /\
                   ~ In name (df_columns sample_frame)) -> e = KeyError).
Proof.
  apply (bad_arguments_leave_no_trace plain_viz sample_frame ["CD4"; "CD8"]
           "population" "viridis" "kmeans" (Some "plots") plots_session).
  left. reflexivity.
Defined.

Lemma too_few_components_raise_index_error_witness :
  visualize_dimensionality_reduction plain_viz sample_frame ["CD4"]
    "population" "Spectral" "PCA" None plots_session
  = (plots_session, Raise IndexError).
Proof.
  apply (too_few_components_raise_index_error plain_viz sample_frame ["CD4"]
           "population" "Spectral" "PCA" None plots_session PCA
           {| df_columns := ["CD4"];
              df_rows := [[Some (CFloat 1)]; [Some (CFloat 0)];
                          [Some (CFloat 1)]] |}
           (NdArray (3, 1)%nat [1; 0; 1]%float)).
  - discriminate.
  - reflexivity.
  - vm_compute. reflexivity.
  - vm_compute. reflexivity.
  - simpl. lia.
Defined.

Lemma missing_values_are_dropped_first_witness :
  visualize_dimensionality_reduction plain_viz sample_frame ["CD4"; "CD8"]
    "population" "viridis" "PCA" (Some "plots") plots_session
  = visualize_dimensionality_reduction plain_viz (dropna sample_frame)
      ["CD4"; "CD8"] "population" "viridis" "PCA" (Some "plots") plots_session /\
  forall sel,
    df_getitem_list (dropna sample_frame) ["CD4"; "CD8"] = Ok sel ->
    Forall (fun v => isna v = false) (buf (df_values sel)) /\
    fst (shape (df_values sel))
    = length (List.filter (fun r => negb (existsb isna r))
                          (df_rows sample_frame)).
Proof.
  apply (missing_values_are_dropped_first plain_viz sample_frame ["CD4"; "CD8"]
           "population" "viridis" "PCA" (Some "plots") plots_session).
  repeat constructor.
Defined.

Lemma scatter_shows_first_two_components_witness :
  exists r sel results before sc,
    dict_get dim_red_map "PCA" = Ok r /\
    df_getitem_list (dropna sample_frame) ["CD4"; "CD8"] = Ok sel /\
    (if String.eqb "PCA" "UMAP"
     then exists scaled,
         standard_scaler plain_viz (df_values sel) = Ok scaled /\
         fit_transform plain_viz r (as_entries scaled) = Ok results
     else fit_transform plain_viz r (df_values sel) = Ok results) /\
    fig_scatters (current_figure (figures sample_session_after))
    = (before ++ [sc])%list /\
    np_column results 0 = Ok (sc_x sc) /\
    np_column results 1 = Ok (sc_y sc).
Proof.
  apply (scatter_shows_first_two_components plain_viz sample_frame
           ["CD4"; "CD8"] "population" "viridis" "PCA" (Some "plots")
           plots_session sample_session_after).
  exact sample_visualization.
Defined.

Lemma figure_of_a_successful_call_witness :
  exists n sc,
    list_index algorithms "PCA" = Ok n /\
    find_figure (Z.of_nat n) (figures sample_session_after)
    = Some (current_figure (figures sample_session_after)) /\
    fig_title (current_figure (figures sample_session_after))
    = Some ("PCA" +:+ " projection of data", 24) /\
    fig_scatters (current_figure (figures sample_session_after))
    = (fig_scatters (figure_before (Z.of_nat n) plots_session) ++ [sc])%list /\
    sc_palette sc = "Spectral" /\
    sc_data sc = dropna sample_frame /\
    df_getitem (dropna sample_frame) "population" = Ok (sc_hue sc).
Proof.
  apply (figure_of_a_successful_call plain_viz sample_frame ["CD4"; "CD8"]
           "population" "viridis" "PCA" (Some "plots") plots_session
           sample_session_after).
  exact sample_visualization.
Defined.

Lemma image_of_a_successful_call_witness :
  path_exists plots_session "plots" = true /\
  saved sample_session_after !! os_path_join "plots" ("PCA" +:+ "Visualization.png")
  = Some (current_figure (figures sample_session_after)) /\
  forall q, q <> os_path_join "plots" ("PCA" +:+ "Visualization.png") ->
            saved sample_session_after !! q = saved plots_session !! q.
Proof.
  apply (image_of_a_successful_call plain_viz sample_frame ["CD4"; "CD8"]
           "population" "viridis" "PCA" (Some "plots") plots_session
           sample_session_after).
  exact sample_visualization.
Defined.

Lemma figures_accumulate_witness :
  exists sc,
    fig_scatters
      (current_figure
         (figures (fst (visualize_dimensionality_reduction plain_viz
                          sample_frame ["CD8"; "CD4"] "population" "viridis"
                          "PCA" None sample_session_after))))
    = (fig_scatters (current_figure (figures sample_session_after)) ++ [sc])%list /\
    sc_data sc = dropna sample_frame /\
    fig_scatters (current_figure (figures sample_session_after)) <> [].
Proof.
  apply (figures_accumulate plain_viz
           sample_frame ["CD4"; "CD8"] "population" "viridis" (Some "plots")
           sample_frame ["CD8"; "CD4"] "population" "viridis" None
           "PCA" plots_session sample_session_after).
  - exact sample_visualization.
  - vm_compute. reflexivity.
Defined.

Lemma save_dir_is_checked_after_drawing_witness :
  exists st',
    visualize_dimensionality_reduction plain_viz sample_frame ["CD4"; "CD8"]
      "population" "viridis" "PCA" (Some "nowhere") plots_session
    = (st', Raise ValueError) /\
    saved st' = saved plots_session /\
    fig_title (current_figure (figures st'))
    = Some ("PCA" +:+ " projection of data", 24) /\
    exists before,
      fig_scatters (current_figure (figures st'))
      = (before ++ [{| sc_x := [1; 0; 1]%float; sc_y := [0; 1; 3]%float;
                       sc_hue := sample_hue;
                       sc_palette := "Spectral";
                       sc_data := dropna sample_frame;
                       sc_legend := "full";
                       sc_alpha := alpha default_options |}])%list.
Proof.
  apply (save_dir_is_checked_after_drawing plain_viz sample_frame
           ["CD4"; "CD8"] "population" "viridis" "PCA" "nowhere" plots_session
           [1; 0; 1]%float [0; 1; 3]%float 1%nat sample_hue).
  - reflexivity.
  - vm_compute. reflexivity.
  - reflexivity.
  - vm_compute. reflexivity.
Defined.

(** A UMAP call after the PCA call leaves the figure of PCA alone. *)
Lemma other_figures_are_left_alone_witness :
  find_figure 1
    (figures (fst (visualize_dimensionality_reduction plain_viz sample_frame
                     ["CD4"; "CD8"] "population" "viridis" "UMAP" None
                     sample_session_after)))
  = find_figure 1 (figures sample_session_after).
Proof.
  apply (other_figures_are_left_alone plain_viz sample_frame ["CD4"; "CD8"]
           "population" "viridis" "UMAP" None sample_session_after 1).
  intros n H. vm_compute in H. injection H as <-. simpl. lia.
Defined.
